(** * Fairy-Stockfish: the Position class of [src/position.h]

    A shallow embedding of the inline members of [Position] (board
    representation, piece placement helpers, variant end detection, capture
    classification), together with models of the members whose bodies live in
    translation units that are not part of the excerpt. *)

From Stdlib Require Import ZArith Lia Bool List Ascii String Ring.
From stdpp Require Import base decidable numbers functions list.
Import ListNotations.

Local Open Scope Z_scope.

(** ** Enumerations of [types.h] *)

Inductive Color := WHITE | BLACK.

(** [operator~(Color)] *)
Definition flip_color (c : Color) : Color :=
  match c with WHITE => BLACK | BLACK => WHITE end.

Declare Scope color_scope.
Delimit Scope color_scope with color.
Notation "~~ c" := (flip_color c) (at level 35, right associativity) : color_scope.
Bind Scope color_scope with Color.
Local Open Scope color_scope.

(** The piece types a rule file may name (the list of the configuration
    file), with the pseudo type that doubles as "no piece type" and as the
    index of the aggregated entries. *)
Inductive PieceType :=
  | ALL_PIECES
  | PAWN | KNIGHT | BISHOP | ROOK | QUEEN | FERS | ALFIL | FERS_ALFIL | SILVER
  | AIWOK | BERS | ARCHBISHOP | CHANCELLOR | AMAZON | KNIBIS | BISKNI
  | SHOGI_PAWN | LANCE | SHOGI_KNIGHT | EUROSHOGI_KNIGHT | GOLD | HORSE
  | CLOBBER | BREAKTHROUGH | IMMOBILE | CANNON | WAZIR | COMMONER | KING.

Abbreviation NO_PIECE_TYPE := ALL_PIECES (only parsing).

Record Piece := make_piece { color_of : Color; type_of : PieceType }.

Definition NO_PIECE : Piece := make_piece WHITE NO_PIECE_TYPE.

Global Instance Color_eq_dec : EqDecision Color.
Proof. solve_decision. Defined.
Global Instance PieceType_eq_dec : EqDecision PieceType.
Proof. solve_decision. Defined.
Global Instance Piece_eq_dec : EqDecision Piece.
Proof. solve_decision. Defined.

Abbreviation Square := Z (only parsing).
Abbreviation Bitboard := Z (only parsing).
Abbreviation Key := Z (only parsing).
Abbreviation Value := Z (only parsing).
Abbreviation CheckCount := Z (only parsing).

Inductive MoveType := NORMAL | ENPASSANT | CASTLING | PROMOTION | DROP.

Global Instance MoveType_eq_dec : EqDecision MoveType.
Proof. solve_decision. Defined.

(** A move, seen through its accessors [from_sq], [to_sq], [type_of(Move)],
    [promotion_type] and [dropped_piece_type]. *)
Record Move := make_move {
  from_sq : Square;
  to_sq : Square;
  move_type : MoveType;
  promotion_type : PieceType;
  dropped_piece_type : PieceType
}.

(** Board geometry of [types.h]: the number of files and ranks of the build,
    the "no square" sentinel and the direction of a pawn push. *)
Class BoardGeometry := {
  FILE_NB : Z;
  RANK_NB : Z;
  SQ_NONE : Square;
  FILE_NB_pos : 0 < FILE_NB;
  RANK_NB_pos : 0 < RANK_NB;
  SQ_NONE_off_board : ~ (0 <= SQ_NONE < FILE_NB * RANK_NB)
}.

Definition SQUARE_NB `{BG : BoardGeometry} : Z := FILE_NB * RANK_NB.

(** Value constants and helpers of [types.h] that the excerpt uses but does
    not define. The two laws are the only facts about them the proofs rely
    on. *)
Class ValueConstants := {
  VALUE_MATE : Value;
  VALUE_NONE : Value;
  mate_in : Z -> Value;
  mated_in : Z -> Value;
  VALUE_MATE_not_self_opposite : VALUE_MATE <> - VALUE_MATE;
  mated_in_0_not_NONE : mated_in 0 <> VALUE_NONE
}.

(** ** Bitboards *)

(** Modelled from the spec: the table [SquareBB] of [bitboard.h] is missing;
    a bitboard has one bit per square. *)
Definition SquareBB (s : Square) : Bitboard := Z.shiftl 1 s.

(** [Bitboard & Square], [Bitboard | Square], [Bitboard ^ Square] *)
Definition bb_and (b : Bitboard) (s : Square) : Bitboard := Z.land b (SquareBB s).
Definition bb_or (b : Bitboard) (s : Square) : Bitboard := Z.lor b (SquareBB s).
Definition bb_xor (b : Bitboard) (s : Square) : Bitboard := Z.lxor b (SquareBB s).

(** Conversion of an integral value to [bool]. *)
Definition to_bool (z : Z) : bool := negb (z =? 0).

Fixpoint popcount_pos (p : positive) : Z :=
  match p with
  | xH => 1
  | xO q => popcount_pos q
  | xI q => 1 + popcount_pos q
  end.

(** Number of set bits of a (non-negative) bitboard. *)
Definition popcount (b : Bitboard) : Z :=
  match b with
  | Zpos p => popcount_pos p
  | _ => 0
  end.

(** ** The rule descriptor ([variant.h]), restricted to the members the
    position reads. Files and ranks count from 0. *)
Record Variant := {
  maxRank : Z;
  maxFile : Z;
  pieceToChar : Piece -> option Ascii.ascii;
  doubleStep : bool;
  castling : bool;
  castlingKingsideFile : Z;
  castlingQueensideFile : Z;
  castlingRank : Z;
  pieceDrops : bool;
  dropLoop : bool;
  capturesToHand : bool;
  stalemateValue : Value;
  checkmateValue : Value;
  bareKingValue : Value;
  bareKingMove : bool;
  whiteFlag : Bitboard;
  blackFlag : Bitboard;
  flagMove : bool;
  maxCheckCount : CheckCount;
  (* promotion and drop parameters: [promotedPieceType], [pieceDemotion]
     and [dropPromoted] as the rule file names them; [dropOnOccupied] is
     the drop-on-occupied parameter of the specification *)
  promotedPieceType : PieceType -> PieceType;
  pieceDemotion : bool;
  dropPromoted : bool;
  dropOnOccupied : bool
}.

(** ** StateInfo *)

#[warnings="-register-all"]
Inductive StateInfo := Build_StateInfo {
  pawnKey : Key;
  materialKey : Key;
  castlingRights : Z;
  rule50 : Z;
  pliesFromNull : Z;
  checksGiven : Color -> CheckCount;
  epSquare : Square;
  key : Key;
  capturedPiece : Piece;
  previous : option StateInfo;
  capturedpromoted : bool
}.

(** ** Position

    [pieceList] gives the slots of the row of each piece. The rows of the
    source have 16 slots ([Square pieceList[PIECE_NB][16]]): the slots 0 to
    15 of the function stand for them. A write to another slot has no
    counterpart in the row; the invariant of the lists describes the 16
    slots of a row, and what is proved of a write at the end of a list
    assumes that the row has a free slot. *)

Record Position := {
  board : Square -> Piece;
  byTypeBB : PieceType -> Bitboard;
  byColorBB : Color -> Bitboard;
  pieceCount : Piece -> Z;
  pieceList : Piece -> Z -> Square;
  index : Square -> Z;
  castlingRightsMask : Square -> Z;
  gamePly : Z;
  sideToMove : Color;
  st : StateInfo;
  var : Variant;
  chess960 : bool;
  pieceCountInHand : Color -> PieceType -> Z;
  promotedPieces : Bitboard
}.

(** Field updates. *)
Definition with_board (f : Square -> Piece) (pos : Position) : Position :=
  {| board := f; byTypeBB := byTypeBB pos; byColorBB := byColorBB pos;
     pieceCount := pieceCount pos; pieceList := pieceList pos;
     index := index pos; castlingRightsMask := castlingRightsMask pos;
     gamePly := gamePly pos; sideToMove := sideToMove pos; st := st pos;
     var := var pos; chess960 := chess960 pos;
     pieceCountInHand := pieceCountInHand pos;
     promotedPieces := promotedPieces pos |}.

Definition with_byTypeBB (f : PieceType -> Bitboard) (pos : Position) : Position :=
  {| board := board pos; byTypeBB := f; byColorBB := byColorBB pos;
     pieceCount := pieceCount pos; pieceList := pieceList pos;
     index := index pos; castlingRightsMask := castlingRightsMask pos;
     gamePly := gamePly pos; sideToMove := sideToMove pos; st := st pos;
     var := var pos; chess960 := chess960 pos;
     pieceCountInHand := pieceCountInHand pos;
     promotedPieces := promotedPieces pos |}.

Definition with_byColorBB (f : Color -> Bitboard) (pos : Position) : Position :=
  {| board := board pos; byTypeBB := byTypeBB pos; byColorBB := f;
     pieceCount := pieceCount pos; pieceList := pieceList pos;
     index := index pos; castlingRightsMask := castlingRightsMask pos;
     gamePly := gamePly pos; sideToMove := sideToMove pos; st := st pos;
     var := var pos; chess960 := chess960 pos;
     pieceCountInHand := pieceCountInHand pos;
     promotedPieces := promotedPieces pos |}.

Definition with_pieceCount (f : Piece -> Z) (pos : Position) : Position :=
  {| board := board pos; byTypeBB := byTypeBB pos; byColorBB := byColorBB pos;
     pieceCount := f; pieceList := pieceList pos;
     index := index pos; castlingRightsMask := castlingRightsMask pos;
     gamePly := gamePly pos; sideToMove := sideToMove pos; st := st pos;
     var := var pos; chess960 := chess960 pos;
     pieceCountInHand := pieceCountInHand pos;
     promotedPieces := promotedPieces pos |}.

Definition with_pieceList (f : Piece -> Z -> Square) (pos : Position) : Position :=
  {| board := board pos; byTypeBB := byTypeBB pos; byColorBB := byColorBB pos;
     pieceCount := pieceCount pos; pieceList := f;
     index := index pos; castlingRightsMask := castlingRightsMask pos;
     gamePly := gamePly pos; sideToMove := sideToMove pos; st := st pos;
     var := var pos; chess960 := chess960 pos;
     pieceCountInHand := pieceCountInHand pos;
     promotedPieces := promotedPieces pos |}.

Definition with_index (f : Square -> Z) (pos : Position) : Position :=
  {| board := board pos; byTypeBB := byTypeBB pos; byColorBB := byColorBB pos;
     pieceCount := pieceCount pos; pieceList := pieceList pos;
     index := f; castlingRightsMask := castlingRightsMask pos;
     gamePly := gamePly pos; sideToMove := sideToMove pos; st := st pos;
     var := var pos; chess960 := chess960 pos;
     pieceCountInHand := pieceCountInHand pos;
     promotedPieces := promotedPieces pos |}.

Definition with_gamePly (n : Z) (pos : Position) : Position :=
  {| board := board pos; byTypeBB := byTypeBB pos; byColorBB := byColorBB pos;
     pieceCount := pieceCount pos; pieceList := pieceList pos;
     index := index pos; castlingRightsMask := castlingRightsMask pos;
     gamePly := n; sideToMove := sideToMove pos; st := st pos;
     var := var pos; chess960 := chess960 pos;
     pieceCountInHand := pieceCountInHand pos;
     promotedPieces := promotedPieces pos |}.

Definition with_sideToMove (c : Color) (pos : Position) : Position :=
  {| board := board pos; byTypeBB := byTypeBB pos; byColorBB := byColorBB pos;
     pieceCount := pieceCount pos; pieceList := pieceList pos;
     index := index pos; castlingRightsMask := castlingRightsMask pos;
     gamePly := gamePly pos; sideToMove := c; st := st pos;
     var := var pos; chess960 := chess960 pos;
     pieceCountInHand := pieceCountInHand pos;
     promotedPieces := promotedPieces pos |}.

Definition with_st (s : StateInfo) (pos : Position) : Position :=
  {| board := board pos; byTypeBB := byTypeBB pos; byColorBB := byColorBB pos;
     pieceCount := pieceCount pos; pieceList := pieceList pos;
     index := index pos; castlingRightsMask := castlingRightsMask pos;
     gamePly := gamePly pos; sideToMove := sideToMove pos; st := s;
     var := var pos; chess960 := chess960 pos;
     pieceCountInHand := pieceCountInHand pos;
     promotedPieces := promotedPieces pos |}.

Definition with_pieceCountInHand (f : Color -> PieceType -> Z) (pos : Position) : Position :=
  {| board := board pos; byTypeBB := byTypeBB pos; byColorBB := byColorBB pos;
     pieceCount := pieceCount pos; pieceList := pieceList pos;
     index := index pos; castlingRightsMask := castlingRightsMask pos;
     gamePly := gamePly pos; sideToMove := sideToMove pos; st := st pos;
     var := var pos; chess960 := chess960 pos;
     pieceCountInHand := f;
     promotedPieces := promotedPieces pos |}.

Definition with_promotedPieces (b : Bitboard) (pos : Position) : Position :=
  {| board := board pos; byTypeBB := byTypeBB pos; byColorBB := byColorBB pos;
     pieceCount := pieceCount pos; pieceList := pieceList pos;
     index := index pos; castlingRightsMask := castlingRightsMask pos;
     gamePly := gamePly pos; sideToMove := sideToMove pos; st := st pos;
     var := var pos; chess960 := chess960 pos;
     pieceCountInHand := pieceCountInHand pos;
     promotedPieces := b |}.

(** ** Inline members of [Position] *)

Section Accessors.
Context `{VC : ValueConstants}.

Definition bare_king_value (pos : Position) (ply : Z) : Value :=
  let v := bareKingValue (var pos) in
  if v =? VALUE_MATE then mate_in ply
  else if v =? - VALUE_MATE then mated_in ply
  else v.

Definition bare_king_move (pos : Position) : bool := bareKingMove (var pos).

Definition capture_the_flag (pos : Position) (c : Color) : Bitboard :=
  match c with WHITE => whiteFlag (var pos) | BLACK => blackFlag (var pos) end.

Definition flag_move (pos : Position) : bool := flagMove (var pos).

Definition max_check_count (pos : Position) : CheckCount := maxCheckCount (var pos).

Definition checks_given (pos : Position) (c : Color) : CheckCount :=
  checksGiven (st pos) c.

(** [count<Pt>(c)] *)
Definition count (pos : Position) (pt : PieceType) (c : Color) : Z :=
  pieceCount pos (make_piece c pt).

(** [square<Pt>(c)] *)
Definition square (pos : Position) (pt : PieceType) (c : Color) : Square :=
  pieceList pos (make_piece c pt) 0.

(** [is_variant_end(Value& result, int ply)]: the returned flag together
    with the content of [result] afterwards. *)
Definition is_variant_end (pos : Position) (result : Value) (ply : Z) : bool * Value :=
  let us := sideToMove pos in
  if negb (bare_king_value pos 0 =? VALUE_NONE)
     && negb (bare_king_move pos)
     && negb (to_bool (count pos ALL_PIECES us - count pos KING us))
  then (true, bare_king_value pos ply)
  else if negb (bare_king_value pos 0 =? VALUE_NONE)
     && bare_king_move pos
     && negb (to_bool (count pos ALL_PIECES (~~us) - count pos KING (~~us)))
  then (true, - bare_king_value pos ply)
  else if negb (flag_move pos)
     && to_bool (bb_and (capture_the_flag pos (~~us)) (square pos KING (~~us)))
  then (true, mated_in ply)
  else if flag_move pos
     && to_bool (bb_and (capture_the_flag pos us) (square pos KING us))
  then (true, mate_in ply)
  else if to_bool (max_check_count pos)
     && (checksGiven (st pos) (~~us) =? max_check_count pos)
  then (true, mated_in ply)
  else (false, result).
End Accessors.

Definition side_to_move (pos : Position) : Color := sideToMove pos.

Definition empty (pos : Position) (s : Square) : bool :=
  bool_decide (board pos s = NO_PIECE).

Definition piece_on (pos : Position) (s : Square) : Piece := board pos s.

Definition moved_piece (pos : Position) (m : Move) : Piece :=
  if decide (move_type m = DROP)
  then make_piece (sideToMove pos) (dropped_piece_type m)
  else board pos (from_sq m).

Definition pieces (pos : Position) : Bitboard := byTypeBB pos ALL_PIECES.

Definition count_in_hand (pos : Position) (c : Color) (pt : PieceType) : Z :=
  pieceCountInHand pos c pt.

Definition capture_or_promotion (pos : Position) (m : Move) : bool :=
  if negb (bool_decide (move_type m = NORMAL))
  then negb (bool_decide (move_type m = DROP)) && negb (bool_decide (move_type m = CASTLING))
  else negb (empty pos (to_sq m)).

Definition capture (pos : Position) (m : Move) : bool :=
  (negb (empty pos (to_sq m)) && negb (bool_decide (move_type m = CASTLING)))
  || bool_decide (move_type m = ENPASSANT).

Definition is_promoted (pos : Position) (s : Square) : bool :=
  to_bool (bb_and (promotedPieces pos) s).

(** *** Piece placement helpers *)

Definition put_piece (pc : Piece) (s : Square) (pos : Position) : Position :=
  let pos := with_board (<[s := pc]> (board pos)) pos in
  let pos := with_byTypeBB
    (<[ALL_PIECES := bb_or (byTypeBB pos ALL_PIECES) s]> (byTypeBB pos)) pos in
  let pos := with_byTypeBB
    (<[type_of pc := bb_or (byTypeBB pos (type_of pc)) s]> (byTypeBB pos)) pos in
  let pos := with_byColorBB
    (<[color_of pc := bb_or (byColorBB pos (color_of pc)) s]> (byColorBB pos)) pos in
  (* index[s] = pieceCount[pc]++ *)
  let pos := with_index (<[s := pieceCount pos pc]> (index pos)) pos in
  let pos := with_pieceCount (<[pc := pieceCount pos pc + 1]> (pieceCount pos)) pos in
  let pos := with_pieceList
    (<[pc := <[index pos s := s]> (pieceList pos pc)]> (pieceList pos)) pos in
  let all := make_piece (color_of pc) ALL_PIECES in
  with_pieceCount (<[all := pieceCount pos all + 1]> (pieceCount pos)) pos.

Definition remove_piece `{BG : BoardGeometry} (pc : Piece) (s : Square) (pos : Position) : Position :=
  let pos := with_byTypeBB
    (<[ALL_PIECES := bb_xor (byTypeBB pos ALL_PIECES) s]> (byTypeBB pos)) pos in
  let pos := with_byTypeBB
    (<[type_of pc := bb_xor (byTypeBB pos (type_of pc)) s]> (byTypeBB pos)) pos in
  let pos := with_byColorBB
    (<[color_of pc := bb_xor (byColorBB pos (color_of pc)) s]> (byColorBB pos)) pos in
  (* board[s] is left as it is *)
  let pos := with_pieceCount (<[pc := pieceCount pos pc - 1]> (pieceCount pos)) pos in
  let lastSquare := pieceList pos pc (pieceCount pos pc) in
  let pos := with_index (<[lastSquare := index pos s]> (index pos)) pos in
  let pos := with_pieceList
    (<[pc := <[index pos lastSquare := lastSquare]> (pieceList pos pc)]> (pieceList pos)) pos in
  let pos := with_pieceList
    (<[pc := <[pieceCount pos pc := SQ_NONE]> (pieceList pos pc)]> (pieceList pos)) pos in
  let all := make_piece (color_of pc) ALL_PIECES in
  with_pieceCount (<[all := pieceCount pos all - 1]> (pieceCount pos)) pos.

Definition move_piece (pc : Piece) (from to : Square) (pos : Position) : Position :=
  let fromTo := Z.lxor (SquareBB from) (SquareBB to) in
  let pos := with_byTypeBB
    (<[ALL_PIECES := Z.lxor (byTypeBB pos ALL_PIECES) fromTo]> (byTypeBB pos)) pos in
  let pos := with_byTypeBB
    (<[type_of pc := Z.lxor (byTypeBB pos (type_of pc)) fromTo]> (byTypeBB pos)) pos in
  let pos := with_byColorBB
    (<[color_of pc := Z.lxor (byColorBB pos (color_of pc)) fromTo]> (byColorBB pos)) pos in
  let pos := with_board (<[from := NO_PIECE]> (board pos)) pos in
  let pos := with_board (<[to := pc]> (board pos)) pos in
  let pos := with_index (<[to := index pos from]> (index pos)) pos in
  with_pieceList (<[pc := <[index pos to := to]> (pieceList pos pc)]> (pieceList pos)) pos.

Definition add_to_hand (c : Color) (pt : PieceType) (pos : Position) : Position :=
  let pos := with_pieceCountInHand
    (<[c := <[pt := pieceCountInHand pos c pt + 1]> (pieceCountInHand pos c)]>
       (pieceCountInHand pos)) pos in
  with_pieceCountInHand
    (<[c := <[ALL_PIECES := pieceCountInHand pos c ALL_PIECES + 1]> (pieceCountInHand pos c)]>
       (pieceCountInHand pos)) pos.

Definition remove_from_hand (c : Color) (pt : PieceType) (pos : Position) : Position :=
  let pos := with_pieceCountInHand
    (<[c := <[pt := pieceCountInHand pos c pt - 1]> (pieceCountInHand pos c)]>
       (pieceCountInHand pos)) pos in
  with_pieceCountInHand
    (<[c := <[ALL_PIECES := pieceCountInHand pos c ALL_PIECES - 1]> (pieceCountInHand pos c)]>
       (pieceCountInHand pos)) pos.

Definition drop_piece (pc : Piece) (s : Square) (pos : Position) : Position :=
  remove_from_hand (color_of pc) (type_of pc) (put_piece pc s pos).

Definition undrop_piece `{BG : BoardGeometry} (pc : Piece) (s : Square) (pos : Position) : Position :=
  let pos := remove_piece pc s pos in
  let pos := with_board (<[s := NO_PIECE]> (board pos)) pos in
  add_to_hand (color_of pc) (type_of pc) pos.

(** ** The terminal conditions as an ordered chain of rule families

    The specification describes [is_variant_end] as a chain of rule families
    tested in a fixed order. The three families are written here as separate
    functions, each yielding the result it adjudicates, if any; they are
    compared with the code of [is_variant_end] below. *)

Section RuleFamilies.
Context `{VC : ValueConstants}.

Definition bare_king_rule (pos : Position) (ply : Z) : option Value :=
  let us := sideToMove pos in
  if negb (bare_king_value pos 0 =? VALUE_NONE)
     && negb (bare_king_move pos)
     && (count pos ALL_PIECES us - count pos KING us =? 0)
  then Some (bare_king_value pos ply)
  else if negb (bare_king_value pos 0 =? VALUE_NONE)
     && bare_king_move pos
     && (count pos ALL_PIECES (~~us) - count pos KING (~~us) =? 0)
  then Some (- bare_king_value pos ply)
  else None.

(** Is the king of [c] on a square of its target region? *)
Definition king_on_flag (pos : Position) (c : Color) : bool :=
  negb (Z.land (capture_the_flag pos c) (SquareBB (square pos KING c)) =? 0).

Definition capture_the_flag_rule (pos : Position) (ply : Z) : option Value :=
  let us := sideToMove pos in
  if negb (flag_move pos) && king_on_flag pos (~~us) then Some (mated_in ply)
  else if flag_move pos && king_on_flag pos us then Some (mate_in ply)
  else None.

Definition check_count_rule (pos : Position) (ply : Z) : option Value :=
  let us := sideToMove pos in
  if negb (max_check_count pos =? 0)
     && (checks_given pos (~~us) =? max_check_count pos)
  then Some (mated_in ply)
  else None.

(** The families in the order of the specification. *)
Definition rule_chain (pos : Position) (ply : Z) : list (option Value) :=
  [bare_king_rule pos ply; capture_the_flag_rule pos ply; check_count_rule pos ply].
End RuleFamilies.

(** ** Sample constants and positions used to exercise the definitions *)

(** A 8x8 build. *)
Definition chess_geometry : BoardGeometry.
Proof.
  refine {| FILE_NB := 8; RANK_NB := 8; SQ_NONE := 64 |}; lia.
Defined.

(** The customary mate scores: mate in [ply] is [VALUE_MATE - ply]. *)
Definition chess_values : ValueConstants.
Proof.
  refine {| VALUE_MATE := 32000; VALUE_NONE := 32002;
            mate_in := fun ply => 32000 - ply;
            mated_in := fun ply => - 32000 + ply |}; lia.
Defined.

(** Letters of the pieces of chess: upper case for White. *)
Definition chess_letters (pc : Piece) : option Ascii.ascii :=
  match color_of pc, type_of pc with
  | WHITE, PAWN => Some "P" | WHITE, KNIGHT => Some "N" | WHITE, BISHOP => Some "B"
  | WHITE, ROOK => Some "R" | WHITE, QUEEN => Some "Q" | WHITE, KING => Some "K"
  | BLACK, PAWN => Some "p" | BLACK, KNIGHT => Some "n" | BLACK, BISHOP => Some "b"
  | BLACK, ROOK => Some "r" | BLACK, QUEEN => Some "q" | BLACK, KING => Some "k"
  | _, _ => None
  end%char.

(** The default template of the configuration file, with the pieces of
    chess, and the win rules as parameters: the result of a bare king and
    its extra move, the target region of both kings and its extra move, the
    check threshold, and whether captured pieces can be dropped. *)
Definition rules (bare : Value) (bareMove : bool) (flag : Bitboard) (flagGrace : bool)
    (checks : CheckCount) (drops : bool) : Variant :=
  {| maxRank := 7; maxFile := 7; pieceToChar := chess_letters;
     doubleStep := true; castling := true;
     castlingKingsideFile := 6; castlingQueensideFile := 2; castlingRank := 0;
     pieceDrops := drops; dropLoop := false; capturesToHand := drops;
     stalemateValue := 0; checkmateValue := - 32000;
     bareKingValue := bare; bareKingMove := bareMove;
     whiteFlag := flag; blackFlag := flag; flagMove := flagGrace;
     maxCheckCount := checks;
     promotedPieceType := fun _ => NO_PIECE_TYPE; pieceDemotion := false;
     dropPromoted := false; dropOnOccupied := false |}.

Definition no_rules : Variant := rules 32002 false 0 false 0 false.

Definition start_state : StateInfo :=
  {| pawnKey := 0; materialKey := 0; castlingRights := 0; rule50 := 0;
     pliesFromNull := 0; checksGiven := fun _ => 0; epSquare := 64; key := 0;
     capturedPiece := NO_PIECE; previous := None; capturedpromoted := false |}.

(** The cleared position, as left by [std::memset] at the start of [set]. *)
Definition empty_position (v : Variant) (us : Color) : Position :=
  {| board := fun _ => NO_PIECE; byTypeBB := fun _ => 0; byColorBB := fun _ => 0;
     pieceCount := fun _ => 0; pieceList := fun _ _ => 64; index := fun _ => 0;
     castlingRightsMask := fun _ => 0; gamePly := 0; sideToMove := us;
     st := start_state; var := v; chess960 := false;
     pieceCountInHand := fun _ _ => 0; promotedPieces := 0 |}.

Definition W_KING := make_piece WHITE KING.
Definition B_KING := make_piece BLACK KING.
Definition W_PAWN := make_piece WHITE PAWN.
Definition B_PAWN := make_piece BLACK PAWN.
Definition W_ROOK := make_piece WHITE ROOK.
Definition B_KNIGHT := make_piece BLACK KNIGHT.

(** White king e1 (square 4), black king e8 (square 60), black knight b8. *)
Definition lone_white_king (v : Variant) (us : Color) : Position :=
  put_piece B_KNIGHT 57 (put_piece B_KING 60 (put_piece W_KING 4 (empty_position v us))).

(** A descriptor with all three rule families switched on: a bare king is a
    draw, the centre squares d4, e4, d5, e5 are both sides' target region,
    and three checks decide the game. *)
Definition all_rules : Variant := rules 0 false 0x1818000000 false 3 false.

Definition three_check : Variant := rules 32002 false 0 false 3 false.

Definition king_of_the_hill (grace : bool) : Variant :=
  rules 32002 false 0x1818000000 grace 0 false.

Definition bare_king_loses : Variant := rules (- 32000) false 0 false 0 false.

Definition crazyhouse : Variant := rules 32002 false 0 false 0 true.

Definition with_checksGiven (f : Color -> CheckCount) (si : StateInfo) : StateInfo :=
  {| pawnKey := pawnKey si; materialKey := materialKey si;
     castlingRights := castlingRights si; rule50 := rule50 si;
     pliesFromNull := pliesFromNull si; checksGiven := f;
     epSquare := epSquare si; key := key si; capturedPiece := capturedPiece si;
     previous := previous si; capturedpromoted := capturedpromoted si |}.

(** White (to move) has the bare king on e1; the black king stands on e4, a
    square of its target region; Black has given three checks. *)
Definition crowded_ending (v : Variant) : Position :=
  let pos :=
    put_piece B_KNIGHT 57 (put_piece B_KING 28 (put_piece W_KING 4 (empty_position v WHITE))) in
  with_st (with_checksGiven (<[BLACK := 3]> (fun _ => 0)) (st pos)) pos.

(** Kings on e1 and e4 and a rook each; [us] is to move. *)
Definition hill_reached (v : Variant) (us : Color) : Position :=
  put_piece (make_piece BLACK ROOK) 56
    (put_piece W_ROOK 0
      (put_piece B_KING 28 (put_piece W_KING 4 (empty_position v us)))).

(** ** Agreement of the square map and the bitboards *)

(** The property the specification states as the invariant of the board
    representation: a square holds the piece [pc] exactly when it is set in
    the bitboard of [pc]'s colour and in the bitboard of [pc]'s type, and the
    aggregated bitboard is the union of the two colour bitboards. *)
Definition square_map_agrees (pos : Position) : Prop :=
  (forall (s : Square) (pc : Piece), 0 <= s -> type_of pc <> NO_PIECE_TYPE ->
     (board pos s = pc <->
      Z.testbit (byColorBB pos (color_of pc)) s = true
      /\ Z.testbit (byTypeBB pos (type_of pc)) s = true))
  /\ byTypeBB pos ALL_PIECES = Z.lor (byColorBB pos WHITE) (byColorBB pos BLACK).

(** What holds of one square in a consistent position: each colour bitboard
    and each type bitboard says what the square map says. *)
Definition square_consistent (pos : Position) (s : Square) : Prop :=
  (forall c, Z.testbit (byColorBB pos c) s = true
             <-> board pos s <> NO_PIECE /\ color_of (board pos s) = c)
  /\ (forall pt, pt <> ALL_PIECES ->
        (Z.testbit (byTypeBB pos pt) s = true <-> type_of (board pos s) = pt))
  /\ (board pos s <> NO_PIECE -> type_of (board pos s) <> ALL_PIECES).

(** A square that no bitboard mentions, whatever the square map holds. *)
Definition square_vacated (pos : Position) (s : Square) : Prop :=
  (forall c, Z.testbit (byColorBB pos c) s = false)
  /\ (forall pt, pt <> ALL_PIECES -> Z.testbit (byTypeBB pos pt) s = false).

Definition bitboards_sound (pos : Position) : Prop :=
  byTypeBB pos ALL_PIECES = Z.lor (byColorBB pos WHITE) (byColorBB pos BLACK)
  /\ (forall c, 0 <= byColorBB pos c).

(** A consistent position. *)
Definition consistent (pos : Position) : Prop :=
  bitboards_sound pos /\ forall s, 0 <= s -> square_consistent pos s.

(** A position consistent everywhere but at [hole], where the bitboards have
    been cleared and the square map is still to be written. *)
Definition consistent_but (hole : Square) (pos : Position) : Prop :=
  bitboards_sound pos
  /\ square_vacated pos hole
  /\ forall s, 0 <= s -> s <> hole -> square_consistent pos s.

(** The placement operations as [do_move] and [undo_move] use them: each
    under its contract, and [remove_piece] together with the write to
    [board[s]] that follows it. *)
Inductive placement_step `{BG : BoardGeometry} : Position -> Position -> Prop :=
  | step_put pc s pos :
      0 <= s -> type_of pc <> ALL_PIECES -> board pos s = NO_PIECE ->
      placement_step pos (put_piece pc s pos)
  | step_move pc from to pos :
      0 <= from -> 0 <= to -> from <> to -> type_of pc <> ALL_PIECES ->
      board pos from = pc -> board pos to = NO_PIECE ->
      placement_step pos (move_piece pc from to pos)
  | step_drop pc s pos :
      0 <= s -> type_of pc <> ALL_PIECES -> board pos s = NO_PIECE ->
      placement_step pos (drop_piece pc s pos)
  | step_undrop pc s pos :
      0 <= s -> type_of pc <> ALL_PIECES -> board pos s = pc ->
      placement_step pos (undrop_piece pc s pos)
  | step_remove_clear pc s pos :
      0 <= s -> type_of pc <> ALL_PIECES -> board pos s = pc ->
      placement_step pos (with_board (<[s := NO_PIECE]> (board (remove_piece pc s pos)))
                            (remove_piece pc s pos))
  | step_capture captured pc from to pos :
      0 <= from -> 0 <= to -> from <> to ->
      type_of pc <> ALL_PIECES -> type_of captured <> ALL_PIECES ->
      board pos from = pc -> board pos to = captured ->
      placement_step pos (move_piece pc from to (remove_piece captured to pos))
  | step_replace old new s pos :
      0 <= s -> type_of old <> ALL_PIECES -> type_of new <> ALL_PIECES ->
      board pos s = old ->
      placement_step pos (put_piece new s (remove_piece old s pos)).

Inductive placement_reachable `{BG : BoardGeometry} (pos : Position) : Position -> Prop :=
  | reach_here : placement_reachable pos pos
  | reach_step mid pos' :
      placement_reachable pos mid -> placement_step mid pos' ->
      placement_reachable pos pos'.

(** A white pawn on a2. *)
Definition pawn_on_a2 : Position := put_piece W_PAWN 8 (empty_position no_rules WHITE).

(** White holds a knight in hand; kings on e1 and e8. *)
Definition knight_in_hand : Position :=
  add_to_hand WHITE KNIGHT
    (put_piece B_KING 60 (put_piece W_KING 4 (empty_position no_rules WHITE))).

(** ** Applying and retracting moves

    The bodies of [do_move], [undo_move], [do_castling] and [set_state] live
    in [position.cpp], which is not part of the excerpt; they are written
    here after section 4.3 and 4.6 of the specification, on top of the
    placement helpers of the header. *)

(** Modelled from the spec: the square arithmetic of [types.h] is missing;
    squares are numbered rank by rank, [FILE_NB] squares to a rank. *)
Definition file_of `{BG : BoardGeometry} (s : Square) : Z := s mod FILE_NB.
Definition rank_of `{BG : BoardGeometry} (s : Square) : Z := s / FILE_NB.
Definition make_square `{BG : BoardGeometry} (f r : Z) : Square := r * FILE_NB + f.
Definition pawn_push `{BG : BoardGeometry} (c : Color) : Z :=
  match c with WHITE => FILE_NB | BLACK => - FILE_NB end.
Definition on_board `{BG : BoardGeometry} (s : Square) : bool :=
  (0 <=? s) && (s <? SQUARE_NB).

(** The tables of pseudo-random constants of [position.cpp] (namespace
    [Zobrist]); nothing is assumed about their content. *)
Class ZobristTables := {
  Zobrist_psq : Piece -> Z -> Key;
  Zobrist_enpassant : Z -> Key;
  Zobrist_castling : Z -> Key;
  Zobrist_side : Key;
  Zobrist_inHand : Piece -> Z -> Key
}.

(** The attack oracle of [bitboard.h]: threatened squares and reachable
    squares of a piece on a square under an occupancy. *)
Class AttackOracle := {
  attacks_bb : Color -> PieceType -> Square -> Bitboard -> Bitboard;
  moves_bb : Color -> PieceType -> Square -> Bitboard -> Bitboard
}.

Definition attacks_from `{AO : AttackOracle} (pos : Position) (c : Color)
    (pt : PieceType) (s : Square) : Bitboard :=
  attacks_bb c pt s (byTypeBB pos ALL_PIECES).

Definition moves_from `{AO : AttackOracle} (pos : Position) (c : Color)
    (pt : PieceType) (s : Square) : Bitboard :=
  moves_bb c pt s (byTypeBB pos ALL_PIECES).

(** [pieces(Color, PieceType)] *)
Definition pieces_of (pos : Position) (c : Color) (pt : PieceType) : Bitboard :=
  Z.land (byColorBB pos c) (byTypeBB pos pt).

Definition ep_square (pos : Position) : Square := epSquare (st pos).

Definition with_capturedPiece (pc : Piece) (promoted : bool) (si : StateInfo) : StateInfo :=
  {| pawnKey := pawnKey si; materialKey := materialKey si;
     castlingRights := castlingRights si; rule50 := rule50 si;
     pliesFromNull := pliesFromNull si; checksGiven := checksGiven si;
     epSquare := epSquare si; key := key si; capturedPiece := pc;
     previous := previous si; capturedpromoted := promoted |}.

Definition with_keys (k pawn material : Key) (si : StateInfo) : StateInfo :=
  {| pawnKey := pawn; materialKey := material;
     castlingRights := castlingRights si; rule50 := rule50 si;
     pliesFromNull := pliesFromNull si; checksGiven := checksGiven si;
     epSquare := epSquare si; key := k; capturedPiece := capturedPiece si;
     previous := previous si; capturedpromoted := capturedpromoted si |}.

(** *** The structural effect of a move, as a list of edits

    Section 4.3 of the specification describes the structural effect of a
    move kind by kind, and its retraction as the exact structural inverse.
    A move is therefore turned into the list of the single changes it is
    made of, each carried out by a placement helper of the header; the move
    is retracted by taking these changes back, last first. *)

(** The single changes a move is made of: a piece leaves a square, a piece
    arrives on a square, a piece goes from one square to another, a piece
    enters a hand, a piece leaves a hand. *)
Inductive Edit :=
  | Lift (pc : Piece) (s : Square)
  | Land (pc : Piece) (s : Square)
  | Slide (pc : Piece) (from to : Square)
  | ToHand (c : Color) (pt : PieceType)
  | FromHand (c : Color) (pt : PieceType).

(** The change that takes an edit back. *)
Definition inverse (e : Edit) : Edit :=
  match e with
  | Lift pc s => Land pc s
  | Land pc s => Lift pc s
  | Slide pc from to => Slide pc to from
  | ToHand c pt => FromHand c pt
  | FromHand c pt => ToHand c pt
  end.

Definition piece_types : list PieceType :=
  [PAWN; KNIGHT; BISHOP; ROOK; QUEEN; FERS; ALFIL; FERS_ALFIL; SILVER;
   AIWOK; BERS; ARCHBISHOP; CHANCELLOR; AMAZON; KNIBIS; BISKNI;
   SHOGI_PAWN; LANCE; SHOGI_KNIGHT; EUROSHOGI_KNIGHT; GOLD; HORSE;
   CLOBBER; BREAKTHROUGH; IMMOBILE; CANNON; WAZIR; COMMONER; KING].

Definition Pieces : list Piece :=
  map (make_piece WHITE) piece_types ++ map (make_piece BLACK) piece_types.

(** *** Promoted and base types

    The position marks promoted pieces with one bit per square
    ([promotedPieces]), so the base type a promoted piece reverts to is a
    function of its type: the spec's demotion map. It is read off the
    descriptor's [promotedPieceType]: the type that promotes to [pt], and
    the pawn for the types only a pawn promotes to. *)

(** Is [pt] the promoted form of a piece type? *)
Definition is_promoted_form (v : Variant) (pt : PieceType) : bool :=
  negb (bool_decide (pt = NO_PIECE_TYPE))
  && existsb (fun b => bool_decide (promotedPieceType v b = pt)) piece_types.

(** Modelled from the spec: the demotion map of the descriptor. *)
Definition base_type (v : Variant) (pt : PieceType) : PieceType :=
  match find (fun b => bool_decide (promotedPieceType v b = pt)) piece_types with
  | Some b => b
  | None => PAWN
  end.

(** Modelled from the spec: the type in which a captured piece enters the
    hand. A promoted piece reverts to its base type, unless the descriptor
    keeps it as it is ([dropLoop]). *)
Definition hand_type (v : Variant) (promoted : bool) (captured : Piece) : PieceType :=
  if promoted && negb (dropLoop v) then base_type v (type_of captured)
  else type_of captured.

(** Modelled from the spec: the type a dropped piece is held as. Where
    pieces may be dropped in promoted state ([dropPromoted]), the promoted
    form of a type comes out of the hand as its base type. *)
Definition in_hand_type (v : Variant) (pt : PieceType) : PieceType :=
  if dropPromoted v && is_promoted_form v pt then base_type v pt else pt.

(** Does a move of kind [PROMOTION] to the type [target] demote? Where the
    descriptor lets pieces demote ([pieceDemotion]), a move to a type that
    has a promoted form takes the piece back from that form. *)
Definition demotes (v : Variant) (target : PieceType) : bool :=
  pieceDemotion v && negb (bool_decide (promotedPieceType v target = NO_PIECE_TYPE)).

(** The type the piece had before a move of kind [PROMOTION] to [target]:
    the promoted form of [target] for a demotion, the base type of [target]
    for a promotion. *)
Definition origin_type (v : Variant) (target : PieceType) : PieceType :=
  if demotes v target then promotedPieceType v target else base_type v target.

Definition set_square (b : Bitboard) (s : Square) : Bitboard := bb_or b s.

Definition clear_square (b : Bitboard) (s : Square) : Bitboard :=
  Z.land b (Z.lnot (SquareBB s)).

Section Moves.
Context `{BG : BoardGeometry} `{ZT : ZobristTables} `{AO : AttackOracle}.

Definition squares : list Square := map Z.of_nat (seq 0 (Z.to_nat SQUARE_NB)).

(** *** The structural effect of a move *)

(** An edit, by the placement helpers of the header. A piece that leaves
    its square leaves the square empty. *)
Definition apply_edit (e : Edit) (pos : Position) : Position :=
  match e with
  | Lift pc s =>
      let pos1 := remove_piece pc s pos in
      with_board (<[s := NO_PIECE]> (board pos1)) pos1
  | Land pc s => put_piece pc s pos
  | Slide pc from to => move_piece pc from to pos
  | ToHand c pt => add_to_hand c pt pos
  | FromHand c pt => remove_from_hand c pt pos
  end.

Fixpoint run (es : list Edit) (pos : Position) : Position :=
  match es with
  | [] => pos
  | e :: rest => run rest (apply_edit e pos)
  end.



(** The piece a move takes off the board: the pawn that just passed for an
    en-passant move; the occupant of the destination for a normal move, for
    a promotion unless it is made in place, and for a drop on an occupied
    square; nothing for castling ("king captures own rook" is an
    encoding). The occupant that a drop displaces is recorded like a
    captured piece, since the retraction has the move and the record of
    the move only to put it back. *)
Definition captured_by (pos : Position) (m : Move) : Piece :=
  match move_type m with
  | ENPASSANT => make_piece (~~sideToMove pos) PAWN
  | CASTLING => NO_PIECE
  | PROMOTION => if from_sq m =? to_sq m then NO_PIECE else piece_on pos (to_sq m)
  | NORMAL | DROP => piece_on pos (to_sq m)
  end.

(** Where it stands: for en passant the square passed over, not the
    destination. *)
Definition capture_square (us : Color) (m : Move) : Square :=
  match move_type m with
  | ENPASSANT => to_sq m - pawn_push us
  | _ => to_sq m
  end.

(** Does the move take a piece? *)
Definition taking (pos : Position) (m : Move) : bool :=
  negb (bool_decide (captured_by pos m = NO_PIECE)).

(** Was the piece it takes a promoted one? *)
Definition taking_promoted (pos : Position) (m : Move) : bool :=
  taking pos m && is_promoted pos (capture_square (sideToMove pos) m).

(** Destination squares of castling: the configured file on the castling
    rank of the side, the rook next to the king on the inner side. *)
Definition castling_king_to (v : Variant) (us : Color) (kingSide : bool) : Square :=
  make_square (if kingSide then castlingKingsideFile v else castlingQueensideFile v)
              (match us with WHITE => castlingRank v | BLACK => maxRank v - castlingRank v end).

Definition castling_rook_to (v : Variant) (us : Color) (kingSide : bool) : Square :=
  castling_king_to v us kingSide + (if kingSide then - 1 else 1).

(** Castling, the king standing on [from] and the rook on [to]: both pieces
    are taken off first, since the squares may overlap. *)
Definition castling_edits (v : Variant) (us : Color) (from to : Square) : list Edit :=
  let kingSide := from <? to in
  [Lift (make_piece us KING) from;
   Lift (make_piece us ROOK) to;
   Land (make_piece us KING) (castling_king_to v us kingSide);
   Land (make_piece us ROOK) (castling_rook_to v us kingSide)].

(** Modelled from the spec: [Position::do_castling<Do>] of [position.cpp] is
    missing. [to] is the square of the rook; [Do = false] takes the move
    back. *)
Definition do_castling (Do : bool) (us : Color) (from to : Square) (pos : Position) : Position :=
  let es := castling_edits (var pos) us from to in
  run (if Do then es else rev (map inverse es)) pos.

(** The captured piece leaves the board, for the hand of [us] when the
    descriptor says so. *)
Definition capture_edits (v : Variant) (us : Color) (captured : Piece) (capsq : Square)
    (promoted : bool) : list Edit :=
  if decide (captured = NO_PIECE) then []
  else Lift captured capsq
       :: (if capturesToHand v then [ToHand us (hand_type v promoted captured)] else []).

(** What the moved piece [pc] does, by the kind of the move: it goes to its
    destination; it goes there (unless it promotes in place) and is
    exchanged for the piece of its new type; it arrives from the hand; king
    and rook castle. *)
Definition mover_edits (v : Variant) (us : Color) (m : Move) (pc : Piece) : list Edit :=
  let from := from_sq m in
  let to := to_sq m in
  match move_type m with
  | NORMAL | ENPASSANT => [Slide pc from to]
  | PROMOTION =>
      (if from =? to then [] else [Slide pc from to])
      ++ [Lift pc to; Land (make_piece us (promotion_type m)) to]
  | DROP => [Land pc to; FromHand us (in_hand_type v (type_of pc))]
  | CASTLING => castling_edits v us from to
  end.

(** The edits of a move, from what is known when it is applied and when it
    is retracted alike: the move, the side that makes it, the moved piece,
    the captured piece and whether that one was promoted. *)
Definition edits_of (v : Variant) (us : Color) (m : Move) (pc captured : Piece)
    (promoted : bool) : list Edit :=
  capture_edits v us captured (capture_square us m) promoted ++ mover_edits v us m pc.

(** The marks of the promoted pieces after the move: that of a captured
    piece goes, that of the moved piece travels with it, a promotion sets
    the mark and a demotion clears it, and a piece dropped in promoted state
    is marked. *)
Definition next_promoted (pos : Position) (m : Move) : Bitboard :=
  let us := sideToMove pos in
  let from := from_sq m in
  let to := to_sq m in
  let marks := promotedPieces pos in
  let marks := if taking pos m then clear_square marks (capture_square us m) else marks in
  match move_type m with
  | NORMAL | ENPASSANT =>
      if is_promoted pos from then set_square (clear_square marks from) to else marks
  | PROMOTION =>
      if demotes (var pos) (promotion_type m)
      then clear_square (clear_square marks from) to
      else set_square (clear_square marks from) to
  | DROP =>
      if dropPromoted (var pos) && is_promoted_form (var pos) (dropped_piece_type m)
      then set_square marks to else marks
  | CASTLING => marks
  end.

(** The marks before the move, from the position after it and the record of
    the move. *)
Definition previous_promoted (pos : Position) (m : Move) : Bitboard :=
  let us := sideToMove pos in
  let from := from_sq m in
  let to := to_sq m in
  let marks := promotedPieces pos in
  let marks :=
    match move_type m with
    | NORMAL | ENPASSANT =>
        if is_promoted pos to then set_square (clear_square marks to) from else marks
    | PROMOTION =>
        if demotes (var pos) (promotion_type m)
        then set_square (clear_square marks to) from
        else clear_square marks to
    | DROP => clear_square marks to
    | CASTLING => marks
    end in
  if capturedpromoted (st pos) then set_square marks (capture_square us m) else marks.

(** Modelled from the spec: the structural effect of a move, by kind.
    Normal: the piece goes to its destination, the occupant, if any, is
    taken off first. En passant: the pawn taken stands on the square passed
    over. Castling: king and rook go to their configured squares.
    Promotion and demotion: the piece, of any type, goes to its destination
    (or stays, when it promotes in place) and is exchanged for the piece of
    its new type. Drop: the piece arrives from the hand, on an empty square
    or, where the descriptor permits it, on an occupied one, and in
    promoted state where the descriptor permits that. *)
Definition do_structure (m : Move) (pos : Position) : Position :=
  let us := sideToMove pos in
  let es := edits_of (var pos) us m (moved_piece pos m) (captured_by pos m)
              (taking_promoted pos m) in
  with_promotedPieces (next_promoted pos m) (run es pos).

(** The piece that made the move, when the move is retracted: on its
    destination for a move that relocates it; of the type the move's
    promotion started from; of the type the move dropped. *)
Definition mover_back (pos : Position) (m : Move) : Piece :=
  let us := sideToMove pos in
  match move_type m with
  | DROP => make_piece us (dropped_piece_type m)
  | PROMOTION => make_piece us (origin_type (var pos) (promotion_type m))
  | _ => piece_on pos (to_sq m)
  end.

(** Modelled from the spec: the structural inverse, for the side [us] that
    made the move. The edits of the move are taken back one by one, last
    first; the captured piece and its promoted flag are read from the
    record of the move, and the type a promoted or demoted piece had before
    from the move and the descriptor. *)
Definition undo_structure (m : Move) (pos : Position) : Position :=
  let us := sideToMove pos in
  let es := edits_of (var pos) us m (mover_back pos m) (capturedPiece (st pos))
              (capturedpromoted (st pos)) in
  with_promotedPieces (previous_promoted pos m) (run (rev (map inverse es)) pos).

(** *** Keys computed from scratch *)

Definition xor_when (b : bool) (k : Key) : Key := if b then k else 0.

(** Coefficients of the Boolean ring of keys under [xor] and [and]. *)
Definition bool_to_mask (b : bool) : Z := if b then -1 else 0.

Definition xor_all (keys : list Key) : Key := fold_right Z.lxor 0 keys.

(** The constant of a square holding [pc]. *)
Definition square_key (pc : Piece) (s : Square) : Key :=
  if decide (pc = NO_PIECE) then 0 else Zobrist_psq pc s.

Definition pawn_square_key (pc : Piece) (s : Square) : Key :=
  if decide (type_of pc = PAWN) then Zobrist_psq pc s else 0.

Definition board_key (bd : Square -> Piece) : Key :=
  xor_all (map (fun s => square_key (bd s) s) squares).

Definition board_pawn_key (bd : Square -> Piece) : Key :=
  xor_all (map (fun s => pawn_square_key (bd s) s) squares).

(** The constants of the pieces of one identity: one per piece, by rank in
    the count. *)
Definition material_key_of (pc : Piece) (n : Z) : Key :=
  xor_all (map (fun i => Zobrist_psq pc (Z.of_nat i)) (seq 0 (Z.to_nat n))).

Definition material_key_from (counts : Piece -> Z) : Key :=
  xor_all (map (fun pc => material_key_of pc (counts pc)) Pieces).

Definition hand_key (hand : Color -> PieceType -> Z) : Key :=
  xor_all (map (fun pc => Zobrist_inHand pc (hand (color_of pc) (type_of pc))) Pieces).

Definition ep_key (ep : Square) : Key :=
  xor_when (negb (bool_decide (ep = SQ_NONE))) (Zobrist_enpassant (file_of ep)).

Definition side_key (c : Color) : Key :=
  match c with BLACK => Zobrist_side | WHITE => 0 end.

Definition scratch_key (pos : Position) : Key :=
  Z.lxor (Z.lxor (Z.lxor (Z.lxor
    (board_key (board pos))
    (ep_key (epSquare (st pos))))
    (side_key (sideToMove pos)))
    (Zobrist_castling (castlingRights (st pos))))
    (hand_key (pieceCountInHand pos)).

Definition scratch_pawn_key (pos : Position) : Key := board_pawn_key (board pos).

Definition scratch_material_key (pos : Position) : Key :=
  material_key_from (pieceCount pos).

(** Modelled from the spec: [Position::set_state] of [position.cpp] is
    missing. The keys of the record are computed from the position alone. *)
Definition set_state (si : StateInfo) (pos : Position) : StateInfo :=
  with_keys (scratch_key (with_st si pos)) (scratch_pawn_key pos)
    (scratch_material_key pos) si.

(** *** Keys by toggling *)

(** The constants an edit toggles in the primary key: that of the piece on
    the square it leaves and on the square it arrives on; that of the hand
    count before and after. *)
Definition key_toggle (e : Edit) (pos : Position) : Key :=
  match e with
  | Lift pc s | Land pc s => Zobrist_psq pc s
  | Slide pc from to => Z.lxor (Zobrist_psq pc from) (Zobrist_psq pc to)
  | ToHand c pt =>
      let n := pieceCountInHand pos c pt in
      Z.lxor (Zobrist_inHand (make_piece c pt) n) (Zobrist_inHand (make_piece c pt) (n + 1))
  | FromHand c pt =>
      let n := pieceCountInHand pos c pt in
      Z.lxor (Zobrist_inHand (make_piece c pt) n) (Zobrist_inHand (make_piece c pt) (n - 1))
  end.

(** In the pawn key: the same squares, pawns only. *)
Definition pawn_key_toggle (e : Edit) (pos : Position) : Key :=
  match e with
  | Lift pc s | Land pc s => pawn_square_key pc s
  | Slide pc from to => Z.lxor (pawn_square_key pc from) (pawn_square_key pc to)
  | ToHand _ _ | FromHand _ _ => 0
  end.

(** In the material key: the constant of the last piece of the identity
    that leaves the board, of the next one for a piece that arrives. *)
Definition material_key_toggle (e : Edit) (pos : Position) : Key :=
  match e with
  | Lift pc s => Zobrist_psq pc (pieceCount pos pc - 1)
  | Land pc s => Zobrist_psq pc (pieceCount pos pc)
  | Slide _ _ _ | ToHand _ _ | FromHand _ _ => 0
  end.

(** The constants toggled along a list of edits, each where it is made. *)
Fixpoint toggled (toggle : Edit -> Position -> Key) (es : list Edit) (pos : Position) : Key :=
  match es with
  | [] => 0
  | e :: rest => Z.lxor (toggle e pos) (toggled toggle rest (apply_edit e pos))
  end.

(** *** The record of a move *)

(** The en-passant square armed by the move: only right after a double step
    of a pawn that an enemy pawn could take in passing. *)
Definition armed_ep_square (m : Move) (pos after : Position) : Square :=
  let us := sideToMove pos in
  let from := from_sq m in
  let to := to_sq m in
  if bool_decide (move_type m = NORMAL)
     && bool_decide (type_of (moved_piece pos m) = PAWN)
     && doubleStep (var pos)
     && (Z.abs (to - from) =? 2 * FILE_NB)
     && to_bool (Z.land (attacks_from after us PAWN (to - pawn_push us))
                        (pieces_of after (~~us) PAWN))
  then to - pawn_push us
  else SQ_NONE.

(** The squares a move touches: those the moved piece leaves and arrives on
    (a drop leaves none), the square of a pawn taken in passing, and for
    castling the squares of king and rook before and after. *)
Definition touched_squares (pos : Position) (m : Move) : list Square :=
  let us := sideToMove pos in
  let from := from_sq m in
  let to := to_sq m in
  match move_type m with
  | DROP => [to]
  | ENPASSANT => [from; to; capture_square us m]
  | CASTLING =>
      [from; to; castling_king_to (var pos) us (from <? to);
       castling_rook_to (var pos) us (from <? to)]
  | NORMAL | PROMOTION => [from; to]
  end.

(** Modelled from the spec: the castling rights left by the move. A move
    touching a square that bears rights clears them; the squares are those
    of [touched_squares], so the origin field of a drop plays no part. *)
Definition next_rights (pos : Position) (m : Move) : Z :=
  Z.land (castlingRights (st pos))
    (Z.lnot (fold_right Z.lor 0 (map (castlingRightsMask pos) (touched_squares pos m)))).

(** The edits of the move as it is applied. *)
Definition move_edits (pos : Position) (m : Move) : list Edit :=
  edits_of (var pos) (sideToMove pos) m (moved_piece pos m) (captured_by pos m)
    (taking_promoted pos m).

(** The primary key after the move, by toggling: side to move, pieces and
    hands edit by edit, en-passant file off and on, castling rights off and
    on. *)
Definition next_key (m : Move) (pos after : Position) : Key :=
  Z.lxor (Z.lxor (Z.lxor (Z.lxor (Z.lxor
    (key (st pos)) Zobrist_side)
    (toggled key_toggle (move_edits pos m) pos))
    (ep_key (epSquare (st pos))))
    (Z.lxor (Zobrist_castling (castlingRights (st pos)))
            (Zobrist_castling (next_rights pos m))))
    (ep_key (armed_ep_square m pos after)).

Definition next_pawn_key (m : Move) (pos : Position) : Key :=
  Z.lxor (pawnKey (st pos)) (toggled pawn_key_toggle (move_edits pos m) pos).

Definition next_material_key (m : Move) (pos : Position) : Key :=
  Z.lxor (materialKey (st pos)) (toggled material_key_toggle (move_edits pos m) pos).

(** The new record: the carried fields copied from the current one and
    updated, the keys toggled by the constants of what changes. [after] is
    the position once the pieces have been moved. *)
Definition next_state (m : Move) (givesCheck : bool) (pos after : Position) : StateInfo :=
  let old := st pos in
  let us := sideToMove pos in
  let pawn_move := bool_decide (type_of (moved_piece pos m) = PAWN) in
  {| pawnKey := next_pawn_key m pos;
     materialKey := next_material_key m pos;
     castlingRights := next_rights pos m;
     rule50 := if taking pos m || (pawn_move && negb (bool_decide (move_type m = DROP)))
               then 0 else rule50 old + 1;
     pliesFromNull := pliesFromNull old + 1;
     checksGiven :=
       if givesCheck then <[us := checksGiven old us + 1]> (checksGiven old)
       else checksGiven old;
     epSquare := armed_ep_square m pos after;
     key := next_key m pos after;
     capturedPiece := captured_by pos m;
     previous := Some old;
     capturedpromoted := taking_promoted pos m |}.

(** Modelled from the spec: [Position::do_move(Move, StateInfo&, bool)] of
    [position.cpp] is missing. The new record is linked to the current one,
    the pieces are moved, the side to move flips and the ply counter
    advances. *)
Definition do_move (m : Move) (givesCheck : bool) (pos : Position) : Position :=
  let after := do_structure m pos in
  with_sideToMove (~~sideToMove pos)
    (with_gamePly (gamePly pos + 1)
       (with_st (next_state m givesCheck pos after) after)).

(** Modelled from the spec: [Position::undo_move(Move)] of [position.cpp] is
    missing. The side to move flips back, the pieces go back, and the
    record of the move is discarded for the one it links to. *)
Definition undo_move (m : Move) (pos : Position) : Position :=
  let pos1 := undo_structure m (with_sideToMove (~~sideToMove pos) pos) in
  let back := match previous (st pos) with Some si => si | None => st pos end in
  with_gamePly (gamePly pos - 1) (with_st back pos1).

(** *** What the caller has verified of a move

    [do_move] takes a move that is legal; [move_ok] is the part of legality
    that concerns the squares and pieces involved, which is all the
    structural effect relies on. It admits every kind of move of section
    4.3: normal moves and captures; en passant; castling; promotion and
    demotion of a piece of any type, to another square or in place; drops
    on an empty square and, where the descriptor permits it
    ([dropOnOccupied]), on an occupied one, of a piece held in the hand as
    [in_hand_type] says. Conditions on ranks, regions, paths and checks are
    left to the caller, so that [move_ok] admits more moves than are
    legal.

    A promoting piece is of the type [origin_type] gives for the target:
    the retraction has the move and the record of the move to go by, which
    name the target only. Where the descriptor lets several types promote
    to the same type, the board after the move does not tell them apart
    either, and the promotion admitted is that of the type [base_type]
    names. *)
Definition occupied_by (pos : Position) (c : Color) (s : Square) : bool :=
  negb (bool_decide (type_of (board pos s) = ALL_PIECES))
  && bool_decide (color_of (board pos s) = c).

Definition free_or_own (pos : Position) (s a b : Square) : bool :=
  empty pos s || (s =? a) || (s =? b).

(** Modelled from the spec: the moves [do_move] takes, kind by kind. The
    squares are on the board; the piece that moves is a piece of the side to
    move and stands on the origin; the piece it takes is an enemy piece; a
    promoting piece has the type the target comes from; a dropped piece is
    in the hand, and its square is empty unless the descriptor permits
    drops on occupied squares. *)
Definition move_ok (pos : Position) (m : Move) : bool :=
  let us := sideToMove pos in
  let from := from_sq m in
  let to := to_sq m in
  match move_type m with
  | NORMAL =>
      on_board from && on_board to && negb (from =? to)
      && occupied_by pos us from
      && (empty pos to || occupied_by pos (~~us) to)
  | PROMOTION =>
      on_board from && on_board to
      && occupied_by pos us from
      && bool_decide (type_of (board pos from) = origin_type (var pos) (promotion_type m))
      && negb (bool_decide (promotion_type m = ALL_PIECES))
      && ((from =? to) || empty pos to || occupied_by pos (~~us) to)
  | ENPASSANT =>
      on_board from && on_board to && on_board (to - pawn_push us)
      && negb (from =? to)
      && bool_decide (board pos from = make_piece us PAWN)
      && empty pos to
      && bool_decide (board pos (to - pawn_push us) = make_piece (~~us) PAWN)
  | CASTLING =>
      let kto := castling_king_to (var pos) us (from <? to) in
      let rto := castling_rook_to (var pos) us (from <? to) in
      on_board from && on_board to && on_board kto && on_board rto
      && negb (from =? to)
      && bool_decide (board pos from = make_piece us KING)
      && bool_decide (board pos to = make_piece us ROOK)
      && free_or_own pos kto from to && free_or_own pos rto from to
  | DROP =>
      on_board to
      && (empty pos to || dropOnOccupied (var pos))
      && negb (bool_decide (dropped_piece_type m = ALL_PIECES))
      && (1 <=? pieceCountInHand pos us
                  (in_hand_type (var pos) (dropped_piece_type m)))
  end.


(** *** Invariants of a position in play *)

Definition indicator (P : Prop) `{Decision P} : Z := if decide P then 1 else 0.









End Moves.

(** ** Setting up a position *)

(** Put the pieces of a list on the cleared board, by [put_piece]. *)
Definition setup (v : Variant) (us : Color) (placements : list (Piece * Square)) : Position :=
  fold_right (fun '(pc, s) pos => put_piece pc s pos) (empty_position v us) placements.


(** The position with its record computed from scratch, as construction
    leaves it. *)
Definition with_scratch_state `{BG : BoardGeometry} `{ZT : ZobristTables}
    (si : StateInfo) (pos : Position) : Position :=
  with_st (set_state si pos) pos.

(** Position of a value in a list. *)
Fixpoint position_in {A} `{EqDecision A} (x : A) (l : list A) : nat :=
  match l with
  | [] => 0
  | y :: rest => if decide (x = y) then 0 else S (position_in x rest)
  end.

(** Some filling of the tables; the engine draws them from a pseudo-random
    generator. *)
Definition sample_zobrist : ZobristTables :=
  {| Zobrist_psq := fun pc s =>
       (Z.of_nat (position_in pc Pieces) + 1) * 1000003 + (s + 1) * 7919;
     Zobrist_enpassant := fun f => 15485863 * (f + 1);
     Zobrist_castling := fun r => 32452843 * (r + 1);
     Zobrist_side := 49979687;
     Zobrist_inHand := fun pc n =>
       (Z.of_nat (position_in pc Pieces) + 1) * 67867967 + (n + 1) * 104729 |}.

(** An oracle that knows the attacks of pawns on the 8x8 board only. *)
Definition pawn_oracle : AttackOracle :=
  let pawn_attacks (c : Color) (s : Square) : Bitboard :=
    let f := s mod 8 in
    let ahead := match c with WHITE => s + 8 | BLACK => s - 8 end in
    Z.lor (if 0 <? f then SquareBB (ahead - 1) else 0)
          (if f <? 7 then SquareBB (ahead + 1) else 0) in
  {| attacks_bb := fun c pt s _ => match pt with PAWN => pawn_attacks c s | _ => 0 end;
     moves_bb := fun _ _ _ _ => 0 |}.

(** The initial position of chess. *)
Definition chess_placements : list (Piece * Square) :=
  let back := [ROOK; KNIGHT; BISHOP; QUEEN; KING; BISHOP; KNIGHT; ROOK] in
  let files := [0; 1; 2; 3; 4; 5; 6; 7] in
  map (fun '(pt, f) => (make_piece WHITE pt, f)) (combine back files)
  ++ map (fun f => (make_piece WHITE PAWN, 8 + f)) files
  ++ map (fun f => (make_piece BLACK PAWN, 48 + f)) files
  ++ map (fun '(pt, f) => (make_piece BLACK pt, 56 + f)) (combine back files).

Definition chess_start_state : StateInfo :=
  {| pawnKey := 0; materialKey := 0; castlingRights := 15; rule50 := 0;
     pliesFromNull := 0; checksGiven := fun _ => 0; epSquare := 64; key := 0;
     capturedPiece := NO_PIECE; previous := None; capturedpromoted := false |}.

Definition chess_start : Position :=
  with_scratch_state (BG := chess_geometry) (ZT := sample_zobrist)
    chess_start_state (setup no_rules WHITE chess_placements).

Definition quiet (from to : Square) : Move := make_move from to NORMAL ALL_PIECES ALL_PIECES.


(** Kings on e1 and e4, rooks on a1 and a8, captured pieces go to the hand. *)
Definition rook_takes_rook : Move := quiet 0 56.


(** [same_content], decided by running over the squares and the hands. *)
Definition same_contentb `{BG : BoardGeometry} (p q : Position) : bool :=
  forallb (fun s => bool_decide (board p s = board q s)) squares
  && bool_decide (sideToMove p = sideToMove q)
  && (castlingRights (st p) =? castlingRights (st q))
  && (epSquare (st p) =? epSquare (st q))
  && forallb (fun c =>
        forallb (fun pt => pieceCountInHand p c pt =? pieceCountInHand q c pt)
                (ALL_PIECES :: piece_types))
       [WHITE; BLACK].


(** The pair [is_variant_end] returns for the verdict of the chain. *)
Definition adjudicated (result : Value) (r : option Value) : bool * Value :=
  match r with Some v => (true, v) | None => (false, result) end.


(** The knights have gone out and come back: the board is that of the
    initial position, with four more plies on the clocks. *)
Definition knights_back_home : Position :=
  do_move (BG := chess_geometry) (ZT := sample_zobrist) (AO := pawn_oracle) (quiet 45 62) false
    (do_move (BG := chess_geometry) (ZT := sample_zobrist) (AO := pawn_oracle) (quiet 21 6) false
      (do_move (BG := chess_geometry) (ZT := sample_zobrist) (AO := pawn_oracle) (quiet 62 45) false
        (do_move (BG := chess_geometry) (ZT := sample_zobrist) (AO := pawn_oracle) (quiet 6 21)
           false chess_start))).


(** *** Sample descriptors and positions for promotions, drops and castling *)

(** The descriptor [v] with its promotion and drop parameters replaced. *)
Definition with_promotions (promoted : PieceType -> PieceType)
    (demotion dropsPromoted dropsOccupied : bool) (v : Variant) : Variant :=
  {| maxRank := maxRank v; maxFile := maxFile v; pieceToChar := pieceToChar v;
     doubleStep := doubleStep v; castling := castling v;
     castlingKingsideFile := castlingKingsideFile v;
     castlingQueensideFile := castlingQueensideFile v;
     castlingRank := castlingRank v;
     pieceDrops := pieceDrops v; dropLoop := dropLoop v;
     capturesToHand := capturesToHand v;
     stalemateValue := stalemateValue v; checkmateValue := checkmateValue v;
     bareKingValue := bareKingValue v; bareKingMove := bareKingMove v;
     whiteFlag := whiteFlag v; blackFlag := blackFlag v; flagMove := flagMove v;
     maxCheckCount := maxCheckCount v;
     promotedPieceType := promoted; pieceDemotion := demotion;
     dropPromoted := dropsPromoted; dropOnOccupied := dropsOccupied |}.

(** [promotedPieceType = s:g b:h] *)
Definition silver_to_gold (pt : PieceType) : PieceType :=
  match pt with SILVER => GOLD | BISHOP => HORSE | _ => NO_PIECE_TYPE end.

(** Captured pieces go to the hand; silver promotes to gold and bishop to
    horse. *)
Definition shogi_like : Variant := with_promotions silver_to_gold false false false crazyhouse.

(** The same, with demotion, drops in promoted state and drops on occupied
    squares. *)
Definition kyoto_like : Variant := with_promotions silver_to_gold true true true crazyhouse.

Definition W_SILVER := make_piece WHITE SILVER.
Definition W_GOLD := make_piece WHITE GOLD.
Definition B_BISHOP := make_piece BLACK BISHOP.
Definition B_GOLD := make_piece BLACK GOLD.

(** [promotedPieceType = p:g s:g]: shogi pawn and silver promote to gold
    alike. *)
Definition pawn_and_silver_to_gold (pt : PieceType) : PieceType :=
  match pt with SHOGI_PAWN | SILVER => GOLD | _ => NO_PIECE_TYPE end.

Definition two_ways_to_gold : Variant :=
  with_promotions pawn_and_silver_to_gold false false false crazyhouse.

(** Kings on e1 and e8, the white piece [pc] on e5, a black bishop on f6;
    White holds a silver and is to move. *)
Definition promoter_on_e5 (v : Variant) (pc : Piece) : Position :=
  add_to_hand WHITE SILVER
    (put_piece B_BISHOP 45
      (put_piece pc 36
        (put_piece B_KING 60 (put_piece W_KING 4 (empty_position v WHITE))))).

Definition silver_on_e5 (v : Variant) : Position := promoter_on_e5 v W_SILVER.

(** Kings on e1 and e8, a white gold on e5 that is a promoted silver, a
    black gold on f6 that is a promoted silver too, a white rook on f1. *)
Definition golds_promoted (v : Variant) : Position :=
  with_promotedPieces (Z.lor (SquareBB 36) (SquareBB 45))
    (put_piece W_ROOK 5
      (put_piece B_GOLD 45
        (put_piece W_GOLD 36
          (put_piece B_KING 60 (put_piece W_KING 4 (empty_position v WHITE)))))).

Definition promotion (from to : Square) (pt : PieceType) : Move :=
  make_move from to PROMOTION pt ALL_PIECES.

(** A drop; what the origin field of its encoding holds does not matter. *)
Definition drop_move (origin to : Square) (pt : PieceType) : Move :=
  make_move origin to DROP ALL_PIECES pt.

Definition with_castlingRightsMask (f : Square -> Z) (pos : Position) : Position :=
  {| board := board pos; byTypeBB := byTypeBB pos; byColorBB := byColorBB pos;
     pieceCount := pieceCount pos; pieceList := pieceList pos;
     index := index pos; castlingRightsMask := f;
     gamePly := gamePly pos; sideToMove := sideToMove pos; st := st pos;
     var := var pos; chess960 := chess960 pos;
     pieceCountInHand := pieceCountInHand pos; promotedPieces := promotedPieces pos |}.

(** The masks of the initial position of chess: the rights lost when the
    piece of a1, e1, h1, a8, e8 or h8 moves or is captured. *)
Definition chess_rights_mask (s : Square) : Z :=
  if s =? 0 then 2 else if s =? 4 then 3 else if s =? 7 then 1
  else if s =? 56 then 8 else if s =? 60 then 12 else if s =? 63 then 4
  else 0.

(** Kings and rooks on their initial squares, all rights left; White holds
    a knight and is to move. *)
Definition castle_ready : Position :=
  with_castlingRightsMask chess_rights_mask
    (with_scratch_state (BG := chess_geometry) (ZT := sample_zobrist) chess_start_state
       (add_to_hand WHITE KNIGHT
          (setup crazyhouse WHITE
             [(W_KING, 4); (W_ROOK, 0); (W_ROOK, 7);
              (B_KING, 60); (make_piece BLACK ROOK, 56); (make_piece BLACK ROOK, 63)]))).

(** White castles king side: the king "takes" the rook on h1. *)
Definition castles_short : Move := make_move 4 7 CASTLING ALL_PIECES ALL_PIECES.


(** ** Further inline members of [Position] *)

(** [pieces(PieceType)] *)
Definition pieces_pt (pos : Position) (pt : PieceType) : Bitboard := byTypeBB pos pt.

(** [pieces(PieceType, PieceType)] *)
Definition pieces_pt2 (pos : Position) (pt1 pt2 : PieceType) : Bitboard :=
  Z.lor (byTypeBB pos pt1) (byTypeBB pos pt2).

(** [pieces(Color)] *)
Definition pieces_c (pos : Position) (c : Color) : Bitboard := byColorBB pos c.

(** [pieces(Color, PieceType, PieceType)] *)
Definition pieces_of2 (pos : Position) (c : Color) (pt1 pt2 : PieceType) : Bitboard :=
  Z.land (byColorBB pos c) (Z.lor (byTypeBB pos pt1) (byTypeBB pos pt2)).

(** [count<Pt>()] *)
Definition count_both (pos : Position) (pt : PieceType) : Z :=
  pieceCount pos (make_piece WHITE pt) + pieceCount pos (make_piece BLACK pt).

Section ValueAccessors.
Context `{VC : ValueConstants}.

(** [is_variant_end()]: the local [result] is not initialised; its content
    is the argument [junk]. *)
Definition is_variant_end_flag (pos : Position) (junk : Value) : bool :=
  fst (is_variant_end pos junk 0).
End ValueAccessors.

(** ** The piece lists

    [pieceList[pc]] is a row of 16 slots ([Square pieceList[PIECE_NB][16]]).
    It holds the squares of the pieces [pc] in its first [pieceCount[pc]]
    slots and [SQ_NONE] in the slots that follow, up to the end of the row;
    [index[s]] is the slot of an occupied square [s]. Membership is read off
    the bitboards, which [remove_piece] updates while it leaves [board[s]]
    behind.

    The placement helpers do not check the capacity of a row: with 16
    pieces of an identity on the board, one more [put_piece] writes slot 16,
    which the row does not have. The lists are therefore described for
    positions within capacity, and slot by slot for the 16 slots of a row
    only. *)

(** [s] is in [pieces(color_of(pc), type_of(pc))]. *)
Definition listed (pos : Position) (pc : Piece) (s : Square) : bool :=
  Z.testbit (pieces_of pos (color_of pc) (type_of pc)) s.

Definition piece_list_ok `{BG : BoardGeometry} (pos : Position) (pc : Piece) : Prop :=
  0 <= pieceCount pos pc
  /\ (forall s, 0 <= s -> listed pos pc s = true ->
        0 <= index pos s < pieceCount pos pc /\ pieceList pos pc (index pos s) = s)
  /\ (forall i, 0 <= i < pieceCount pos pc ->
        0 <= pieceList pos pc i
        /\ listed pos pc (pieceList pos pc i) = true
        /\ index pos (pieceList pos pc i) = i)
  /\ (forall i, pieceCount pos pc <= i < 16 -> pieceList pos pc i = SQ_NONE).

Definition piece_lists_ok `{BG : BoardGeometry} (pos : Position) : Prop :=
  forall pc, type_of pc <> ALL_PIECES -> piece_list_ok pos pc.

(** The same, read off the square map. *)
Definition piece_lists_agree `{BG : BoardGeometry} (pos : Position) : Prop :=
  forall pc, type_of pc <> ALL_PIECES ->
    0 <= pieceCount pos pc
    /\ (forall s, 0 <= s -> board pos s = pc ->
          0 <= index pos s < pieceCount pos pc /\ pieceList pos pc (index pos s) = s)
    /\ (forall i, 0 <= i < pieceCount pos pc ->
          0 <= pieceList pos pc i
          /\ board pos (pieceList pos pc i) = pc
          /\ index pos (pieceList pos pc i) = i)
    /\ (forall i, pieceCount pos pc <= i < 16 -> pieceList pos pc i = SQ_NONE).

(** No piece identity has more pieces on the board than its row has
    slots. *)
Definition within_capacity (pos : Position) : Prop :=
  forall pc, type_of pc <> ALL_PIECES -> pieceCount pos pc <= 16.

(** Positions reached by the placement operations without leaving the
    capacity of the rows. *)
Inductive placement_reachable_within `{BG : BoardGeometry} (pos : Position) :
    Position -> Prop :=
  | within_here : placement_reachable_within pos pos
  | within_step mid pos' :
      placement_reachable_within pos mid -> placement_step mid pos' ->
      within_capacity pos' ->
      placement_reachable_within pos pos'.

(** Distinct pieces are not listed on the same square. *)
Definition listings_apart (pos : Position) : Prop :=
  forall t pc1 pc2, 0 <= t ->
    type_of pc1 <> ALL_PIECES -> type_of pc2 <> ALL_PIECES ->
    listed pos pc1 t = true -> listed pos pc2 t = true -> pc1 = pc2.

(** White pawns on a2 and b2, put there in this order. *)
Definition two_pawns : Position :=
  put_piece W_PAWN 9 (put_piece W_PAWN 8 (empty_position no_rules WHITE)).


(** The counts agree with the bitboards: [count<Pt>(c)] is the number of
    squares in [pieces(c, Pt)], and [count<ALL_PIECES>(c)] the number of
    squares in [pieces(c)]. *)
Definition counts_match (pos : Position) : Prop :=
  (forall c pt, pt <> ALL_PIECES ->
     pieceCount pos (make_piece c pt) = popcount (pieces_of pos c pt))
  /\ (forall c, pieceCount pos (make_piece c ALL_PIECES) = popcount (pieces_c pos c)).


(** The hand of a colour, summed over the piece types. *)
Definition hand_total (pos : Position) (c : Color) : Z :=
  fold_right Z.add 0 (map (pieceCountInHand pos c) piece_types).

(** The aggregated entry [pieceCountInHand[c][ALL_PIECES]] is the size of
    the hand. *)
Definition hand_totals_ok (pos : Position) : Prop :=
  forall c, count_in_hand pos c ALL_PIECES = hand_total pos c.


(** A bare king draws, after one more move of the opponent. *)
Definition bare_king_draws_late : Variant := rules 0 true 0 false 0 false.


(** ** Castling rights

    Enumerators of [types.h] that the excerpt uses but does not define:
    White's two castling rights and the integral values of the colours.
    Nothing is assumed about them. *)
Class CastlingConstants := {
  WHITE_OO : Z;
  WHITE_OOO : Z;
  color_value : Color -> Z
}.

(** [can_castle(CastlingRight)] *)
Definition can_castle_right (pos : Position) (cr : Z) : Z :=
  Z.land (castlingRights (st pos)) cr.

(** [can_castle(Color)] *)
Definition can_castle `{CC : CastlingConstants} (pos : Position) (c : Color) : Z :=
  Z.land (castlingRights (st pos))
         (Z.shiftl (Z.lor WHITE_OO WHITE_OOO) (2 * color_value c)).

(** The customary values: [WHITE_OO = 1], [WHITE_OOO = 2], [WHITE = 0],
    [BLACK = 1]. *)
Definition chess_castling : CastlingConstants :=
  {| WHITE_OO := 1; WHITE_OOO := 2;
     color_value := fun c => match c with WHITE => 0 | BLACK => 1 end |}.


(** ** Piece specific members

    [opposite_colors] of [types.h] and [passed_pawn_mask] of [bitboard.h]
    are not part of the excerpt; they are arguments here. *)

(** [opposite_bishops()]; [&&] does not evaluate [square<BISHOP>] unless
    both counts are one. *)
Definition opposite_bishops (opposite_colors : Square -> Square -> bool)
    (pos : Position) : bool :=
  (pieceCount pos (make_piece WHITE BISHOP) =? 1)
  && (pieceCount pos (make_piece BLACK BISHOP) =? 1)
  && opposite_colors (square pos BISHOP WHITE) (square pos BISHOP BLACK).

(** [pawn_passed(c, s)] *)
Definition pawn_passed (passed_pawn_mask : Color -> Square -> Bitboard)
    (pos : Position) (c : Color) (s : Square) : bool :=
  negb (to_bool (Z.land (pieces_of pos (~~c) PAWN) (passed_pawn_mask c s))).

(** Kings on e1 and e8, a white bishop on c1 and a black one on c8. *)
Definition bishops_ending : Position :=
  put_piece (make_piece BLACK BISHOP) 58
    (put_piece (make_piece WHITE BISHOP) 2
       (put_piece B_KING 60 (put_piece W_KING 4 (empty_position no_rules WHITE)))).

(** Squares of different colour on the 8x8 board. *)
Definition chess_opposite_colors (s1 s2 : Square) : bool :=
  Z.odd (s1 / 8 + s1 mod 8 + s2 / 8 + s2 mod 8).

(** The squares in front of a pawn on its file and the adjacent files, on
    the 8x8 board. *)
Definition chess_passed_pawn_mask (c : Color) (s : Square) : Bitboard :=
  fold_right Z.lor 0
    (map (fun t =>
            if (Z.abs (t mod 8 - s mod 8) <=? 1)
               && (match c with WHITE => s / 8 <? t / 8 | BLACK => t / 8 <? s / 8 end)
            then SquareBB t else 0)
         (map Z.of_nat (seq 0 64))).

(** * Theorems *)

(** ** Terminal conditions *)

Section VariantEnd.
Context `{VC : ValueConstants}.

(** The code of [is_variant_end] is the chain of the three families, each
    consulted only when the families before it adjudicate nothing. *)
Lemma is_variant_end_chain pos result ply :
  is_variant_end pos result ply =
  match bare_king_rule pos ply with
  | Some v => (true, v)
  | None =>
      match capture_the_flag_rule pos ply with
      | Some v => (true, v)
      | None => adjudicated result (check_count_rule pos ply)
      end
  end.
Proof.
  unfold is_variant_end, bare_king_rule, capture_the_flag_rule,
    check_count_rule, king_on_flag, adjudicated, checks_given, to_bool, bb_and.
  rewrite !negb_involutive.
  repeat (match goal with
          | |- context [if ?b then _ else _] => destruct b eqn:?
          end; try reflexivity; try discriminate).
Qed.

Lemma is_variant_end_none pos result ply :
  bare_king_rule pos ply = None ->
  capture_the_flag_rule pos ply = None ->
  check_count_rule pos ply = None ->
  is_variant_end pos result ply = (false, result).
Proof.
  intros Hb Hf Hc. rewrite is_variant_end_chain, Hb, Hf, Hc. reflexivity.
Qed.

(** C2: the families are consulted in the order bare king, capture the
    flag, check count, and the result is that of the first family that
    adjudicates: when the family at position [i] of the chain yields [v]
    and no family before it yields anything, [is_variant_end] returns
    [true] with [v], whatever the families after it would yield. *)
Theorem is_variant_end_first_satisfied pos result ply (i : nat) v :
  rule_chain pos ply !! i = Some (Some v) ->
  (forall j, (j < i)%nat -> rule_chain pos ply !! j = Some None) ->
  is_variant_end pos result ply = (true, v).
Proof.
  intros Hi Hbefore. rewrite is_variant_end_chain.
  unfold rule_chain in *.
  destruct i as [|[|[|i]]]; simpl in Hi.
  - injection Hi as ->. reflexivity.
  - injection Hi as Hi.
    specialize (Hbefore 0%nat ltac:(lia)). simpl in Hbefore.
    injection Hbefore as ->. rewrite Hi. reflexivity.
  - injection Hi as Hi.
    pose proof (Hbefore 0%nat ltac:(lia)) as H0.
    pose proof (Hbefore 1%nat ltac:(lia)) as H1.
    simpl in H0, H1. injection H0 as ->. injection H1 as ->.
    rewrite Hi. reflexivity.
  - discriminate.
Qed.

(** C6: bare-king result configured as a loss, no extra move, and the side
    to move has no piece but kings: an immediate loss. *)
Theorem bare_king_loss_is_immediate pos result ply :
  bareKingValue (var pos) = - VALUE_MATE ->
  bareKingMove (var pos) = false ->
  count pos ALL_PIECES (sideToMove pos) - count pos KING (sideToMove pos) = 0 ->
  is_variant_end pos result ply = (true, mated_in ply).
Proof.
  intros Hv Hm Hc.
  assert (Hval : forall p, bare_king_value pos p = mated_in p).
  { intros p. unfold bare_king_value. rewrite Hv.
    destruct (Z.eqb_spec (- VALUE_MATE) VALUE_MATE) as [E|_].
    - exfalso. apply VALUE_MATE_not_self_opposite. congruence.
    - rewrite Z.eqb_refl. reflexivity. }
  unfold is_variant_end, bare_king_move, to_bool.
  rewrite !Hval, Hm, Hc.
  destruct (Z.eqb_spec (mated_in 0) VALUE_NONE) as [E|_].
  - exfalso. exact (mated_in_0_not_NONE E).
  - reflexivity.
Qed.

(** C4, as amended: with a nonzero check threshold, and when neither the
    bare-king family nor the capture-the-flag family adjudicates,
    [is_variant_end] returns [true] with the mated-in value exactly when
    the checks given by the opponent of the side to move equal the
    threshold. *)
Theorem check_count_adjudication pos result ply :
  max_check_count pos <> 0 ->
  bare_king_rule pos ply = None ->
  capture_the_flag_rule pos ply = None ->
  (is_variant_end pos result ply = (true, mated_in ply)
   <-> checks_given pos (~~sideToMove pos) = max_check_count pos).
Proof.
  intros Hmax Hb Hf. rewrite is_variant_end_chain, Hb, Hf.
  unfold check_count_rule, adjudicated.
  destruct (Z.eqb_spec (max_check_count pos) 0) as [E|_]; [contradiction|].
  simpl.
  destruct (Z.eqb_spec (checks_given pos (~~sideToMove pos)) (max_check_count pos))
    as [E|NE].
  - split; [intros _; exact E | reflexivity].
  - split; [discriminate | contradiction].
Qed.

(** C5, as amended: when the bare-king family adjudicates nothing, a king
    of the side not to move on its target region ends the game as a loss of
    the side to move if the extra move is disabled, and a king of the side
    to move on its target region ends it as a win of the side to move if
    the extra move is enabled. *)
Theorem capture_the_flag_adjudication pos result ply :
  bare_king_rule pos ply = None ->
  (flag_move pos = false ->
   Z.land (capture_the_flag pos (~~sideToMove pos))
          (SquareBB (square pos KING (~~sideToMove pos))) <> 0 ->
   is_variant_end pos result ply = (true, mated_in ply))
  /\
  (flag_move pos = true ->
   Z.land (capture_the_flag pos (sideToMove pos))
          (SquareBB (square pos KING (sideToMove pos))) <> 0 ->
   is_variant_end pos result ply = (true, mate_in ply)).
Proof.
  intros Hb. rewrite is_variant_end_chain, Hb.
  unfold capture_the_flag_rule, king_on_flag.
  split; intros Hm Hk; rewrite Hm; simpl;
    apply Z.eqb_neq in Hk; rewrite Hk; reflexivity.
Qed.
End VariantEnd.

(** ** Captures *)

(** C10: a move is a capture exactly when its destination is occupied and it
    is not a castling move, or it is an en-passant move; castling is never a
    capture and en passant always is. *)
Theorem capture_classification pos m :
  (capture pos m = true <->
     (empty pos (to_sq m) = false /\ move_type m <> CASTLING)
     \/ move_type m = ENPASSANT)
  /\ (move_type m = CASTLING -> capture pos m = false)
  /\ (move_type m = ENPASSANT -> capture pos m = true).
Proof.
  unfold capture. repeat split.
  - rewrite orb_true_iff, andb_true_iff, !negb_true_iff, !bool_decide_eq_true,
      bool_decide_eq_false. tauto.
  - rewrite orb_true_iff, andb_true_iff, !negb_true_iff, !bool_decide_eq_true,
      bool_decide_eq_false. tauto.
  - intros ->. simpl. rewrite andb_false_r. reflexivity.
  - intros ->. simpl. apply orb_true_r.
Qed.

(** *** The terminal conditions on sample positions *)

Lemma is_variant_end_first_satisfied_witness :
  capture_the_flag_rule (VC := chess_values) (crowded_ending all_rules) 5 = Some (- 31995)
  /\ is_variant_end (VC := chess_values) (crowded_ending all_rules) 7 5 = (true, 0).
Proof.
  split; [reflexivity|].
  apply (is_variant_end_first_satisfied (VC := chess_values)
           (crowded_ending all_rules) 7 5 0%nat 0).
  - reflexivity.
  - intros j Hj. lia.
Defined.

Lemma bare_king_loss_is_immediate_witness :
  is_variant_end (VC := chess_values) (lone_white_king bare_king_loses WHITE) 0 3
  = (true, - 31997).
Proof.
  apply (bare_king_loss_is_immediate (VC := chess_values)
           (lone_white_king bare_king_loses WHITE) 0 3); reflexivity.
Defined.

(** The claim of C4 read on its own: a nonzero threshold reached by the
    opponent of the side to move does not make [is_variant_end] report the
    loss when the bare-king family, which comes first, adjudicates a draw. *)
Lemma check_count_shadowed_by_bare_king :
  let pos := crowded_ending all_rules in
  ~ (max_check_count pos <> 0 ->
     (is_variant_end (VC := chess_values) pos 0 5 = (true, mated_in (ValueConstants := chess_values) 5)
      <-> checks_given pos (~~sideToMove pos) = max_check_count pos)).
Proof.
  intros pos Hclaim.
  assert (Hmax : max_check_count pos <> 0) by (vm_compute; discriminate).
  destruct (Hclaim Hmax) as [_ Hback].
  specialize (Hback eq_refl). vm_compute in Hback. discriminate Hback.
Qed.

Lemma check_count_adjudication_witness :
  is_variant_end (VC := chess_values) (crowded_ending three_check) 0 5 = (true, - 31995)
  <-> checks_given (crowded_ending three_check) BLACK = 3.
Proof.
  apply (check_count_adjudication (VC := chess_values) (crowded_ending three_check) 0 5).
  - vm_compute. discriminate.
  - reflexivity.
  - reflexivity.
Defined.

(** The claim of C5 read on its own: the king of the side not to move stands
    on its target region and the extra move is disabled, yet the side to move
    is not declared lost, because the bare-king family adjudicates first. *)
Lemma capture_the_flag_shadowed_by_bare_king :
  let pos := crowded_ending all_rules in
  ~ (flag_move pos = false ->
     Z.land (capture_the_flag pos (~~sideToMove pos))
            (SquareBB (square pos KING (~~sideToMove pos))) <> 0 ->
     is_variant_end (VC := chess_values) pos 0 5 = (true, mated_in (ValueConstants := chess_values) 5)).
Proof.
  intros pos Hclaim.
  assert (Hk : Z.land (capture_the_flag pos (~~sideToMove pos))
                 (SquareBB (square pos KING (~~sideToMove pos))) <> 0)
    by (vm_compute; discriminate).
  specialize (Hclaim eq_refl Hk). vm_compute in Hclaim. discriminate Hclaim.
Qed.

Lemma capture_the_flag_adjudication_witness :
  is_variant_end (VC := chess_values) (hill_reached (king_of_the_hill false) WHITE) 0 5
    = (true, - 31995)
  /\ is_variant_end (VC := chess_values) (hill_reached (king_of_the_hill true) BLACK) 0 5
    = (true, 31995).
Proof.
  split.
  - apply (capture_the_flag_adjudication (VC := chess_values)
             (hill_reached (king_of_the_hill false) WHITE) 0 5).
    + reflexivity.
    + reflexivity.
    + vm_compute. discriminate.
  - apply (capture_the_flag_adjudication (VC := chess_values)
             (hill_reached (king_of_the_hill true) BLACK) 0 5).
    + reflexivity.
    + reflexivity.
    + vm_compute. discriminate.
Defined.

(** ** Bitboards and the square map *)

Lemma SquareBB_bit s n : 0 <= s -> Z.testbit (SquareBB s) n = (s =? n).
Proof.
  intros Hs. unfold SquareBB. rewrite Z.shiftl_1_l. apply Z.pow2_bits_eqb. exact Hs.
Qed.

Lemma SquareBB_nonneg s : 0 <= SquareBB s.
Proof. unfold SquareBB. apply Z.shiftl_nonneg. lia. Qed.

Ltac bit_cases :=
  repeat match goal with
         | |- context [decide (?a = ?b)] => destruct (decide (a = b)); subst
         | |- context [bool_decide (?a = ?b)] =>
             destruct (bool_decide_reflect (a = b)); subst
         end;
  try congruence;
  repeat match goal with
         | e : ALL_PIECES = type_of _ |- _ => rewrite <- e in *; clear e
         end.

Ltac bits :=
  rewrite ?Z.lor_spec, ?Z.lxor_spec, ?Z.land_spec, ?SquareBB_bit by assumption.

Ltac bool_cases :=
  simpl;
  repeat match goal with
         | |- context [Z.testbit ?a ?b] => destruct (Z.testbit a b)
         | |- context [?a =? ?b] => destruct (a =? b)
         end;
  reflexivity.

Section BitsOfPlacement.
Context `{BG : BoardGeometry}.
Variables (pc : Piece) (s : Square) (pos : Position).
Hypothesis s_nonneg : 0 <= s.

Lemma board_put_piece t :
  board (put_piece pc s pos) t = if decide (s = t) then pc else board pos t.
Proof. reflexivity. Qed.

Lemma color_bit_put_piece c n :
  Z.testbit (byColorBB (put_piece pc s pos) c) n
  = Z.testbit (byColorBB pos c) n || (bool_decide (color_of pc = c) && (s =? n)).
Proof.
  unfold put_piece; simpl; unfold insert, fn_insert, bb_or.
  bit_cases; bits; rewrite ?andb_false_l, ?orb_false_r; reflexivity.
Qed.

Lemma type_bit_put_piece pt n :
  Z.testbit (byTypeBB (put_piece pc s pos) pt) n
  = Z.testbit (byTypeBB pos pt) n
    || ((bool_decide (ALL_PIECES = pt) || bool_decide (type_of pc = pt)) && (s =? n)).
Proof.
  unfold put_piece; simpl; unfold insert, fn_insert, bb_or.
  bit_cases; bits; bool_cases.
Qed.

Lemma board_remove_piece t : board (remove_piece pc s pos) t = board pos t.
Proof. reflexivity. Qed.

Lemma color_bit_remove_piece c n :
  Z.testbit (byColorBB (remove_piece pc s pos) c) n
  = xorb (Z.testbit (byColorBB pos c) n) (bool_decide (color_of pc = c) && (s =? n)).
Proof.
  unfold remove_piece; simpl; unfold insert, fn_insert, bb_xor.
  bit_cases; bits; rewrite ?andb_false_l, ?xorb_false_r; reflexivity.
Qed.

Lemma type_bit_remove_piece pt n :
  pt <> ALL_PIECES -> type_of pc <> ALL_PIECES ->
  Z.testbit (byTypeBB (remove_piece pc s pos) pt) n
  = xorb (Z.testbit (byTypeBB pos pt) n) (bool_decide (type_of pc = pt) && (s =? n)).
Proof.
  intros Hpt Hpc.
  unfold remove_piece; simpl; unfold insert, fn_insert, bb_xor.
  bit_cases; bits; simpl; rewrite ?xorb_false_r; reflexivity.
Qed.

Lemma all_bit_remove_piece n :
  type_of pc <> ALL_PIECES ->
  Z.testbit (byTypeBB (remove_piece pc s pos) ALL_PIECES) n
  = xorb (Z.testbit (byTypeBB pos ALL_PIECES) n) (s =? n).
Proof.
  intros Hpc.
  unfold remove_piece; simpl; unfold insert, fn_insert, bb_xor.
  bit_cases; bits; reflexivity.
Qed.
End BitsOfPlacement.

Section BitsOfMove.
Variables (pc : Piece) (from to : Square) (pos : Position).
Hypothesis from_nonneg : 0 <= from.
Hypothesis to_nonneg : 0 <= to.

Lemma board_move_piece t :
  board (move_piece pc from to pos) t
  = if decide (to = t) then pc else if decide (from = t) then NO_PIECE else board pos t.
Proof. reflexivity. Qed.

Lemma color_bit_move_piece c n :
  Z.testbit (byColorBB (move_piece pc from to pos) c) n
  = xorb (Z.testbit (byColorBB pos c) n)
         (bool_decide (color_of pc = c) && xorb (from =? n) (to =? n)).
Proof.
  unfold move_piece; simpl; unfold insert, fn_insert.
  bit_cases; bits; rewrite ?andb_false_l, ?xorb_false_r; reflexivity.
Qed.

Lemma type_bit_move_piece pt n :
  pt <> ALL_PIECES -> type_of pc <> ALL_PIECES ->
  Z.testbit (byTypeBB (move_piece pc from to pos) pt) n
  = xorb (Z.testbit (byTypeBB pos pt) n)
         (bool_decide (type_of pc = pt) && xorb (from =? n) (to =? n)).
Proof.
  intros Hpt Hpc.
  unfold move_piece; simpl; unfold insert, fn_insert.
  bit_cases; bits; simpl; rewrite ?xorb_false_r; reflexivity.
Qed.

Lemma all_bit_move_piece n :
  type_of pc <> ALL_PIECES ->
  Z.testbit (byTypeBB (move_piece pc from to pos) ALL_PIECES) n
  = xorb (Z.testbit (byTypeBB pos ALL_PIECES) n) (xorb (from =? n) (to =? n)).
Proof.
  intros Hpc.
  unfold move_piece; simpl; unfold insert, fn_insert.
  bit_cases; bits; reflexivity.
Qed.
End BitsOfMove.

(** ** Consistency under the placement helpers *)

Lemma real_piece_not_NO_PIECE pc : type_of pc <> ALL_PIECES -> pc <> NO_PIECE.
Proof. intros Hpc ->. apply Hpc. reflexivity. Qed.

Lemma piece_eq pc pc' :
  color_of pc = color_of pc' -> type_of pc = type_of pc' -> pc = pc'.
Proof. destruct pc, pc'; simpl; congruence. Qed.

(** The bits of a consistent square, as booleans. *)
Lemma consistent_color_bit pos s c :
  square_consistent pos s ->
  Z.testbit (byColorBB pos c) s
  = bool_decide (board pos s <> NO_PIECE) && bool_decide (color_of (board pos s) = c).
Proof.
  intros (Hc & _ & _). specialize (Hc c).
  destruct (Z.testbit (byColorBB pos c) s); symmetry.
  - destruct Hc as [Hc _]. destruct (Hc eq_refl) as [H1 H2].
    rewrite andb_true_iff, !bool_decide_eq_true. auto.
  - rewrite andb_false_iff, !bool_decide_eq_false.
    destruct (decide (board pos s = NO_PIECE)) as [E|E]; [left; tauto|].
    right. intros Hcol. destruct Hc as [_ Hc]. discriminate Hc. tauto.
Qed.

Lemma consistent_type_bit pos s pt :
  square_consistent pos s -> pt <> ALL_PIECES ->
  Z.testbit (byTypeBB pos pt) s = bool_decide (type_of (board pos s) = pt).
Proof.
  intros (_ & Ht & _) Hpt. specialize (Ht pt Hpt).
  destruct (Z.testbit (byTypeBB pos pt) s); symmetry.
  - apply bool_decide_eq_true. tauto.
  - apply bool_decide_eq_false. intros E. destruct Ht as [_ Ht]. discriminate Ht. exact E.
Qed.

Lemma square_consistent_intro pos s :
  (forall c, Z.testbit (byColorBB pos c) s
             = bool_decide (board pos s <> NO_PIECE)
               && bool_decide (color_of (board pos s) = c)) ->
  (forall pt, pt <> ALL_PIECES ->
     Z.testbit (byTypeBB pos pt) s = bool_decide (type_of (board pos s) = pt)) ->
  (board pos s <> NO_PIECE -> type_of (board pos s) <> ALL_PIECES) ->
  square_consistent pos s.
Proof.
  intros Hc Ht Hr. split; [|split; [|exact Hr]].
  - intros c. rewrite Hc, andb_true_iff, !bool_decide_eq_true. tauto.
  - intros pt Hpt. rewrite Ht, bool_decide_eq_true by assumption. tauto.
Qed.

Lemma all_bit_sound pos n :
  bitboards_sound pos ->
  Z.testbit (byTypeBB pos ALL_PIECES) n
  = Z.testbit (byColorBB pos WHITE) n || Z.testbit (byColorBB pos BLACK) n.
Proof. intros [-> _]. apply Z.lor_spec. Qed.

Lemma consistent_is_consistent_but pos s :
  consistent pos -> 0 <= s -> board pos s = NO_PIECE -> consistent_but s pos.
Proof.
  intros [Hsound Hsq] Hs Hempty. split; [exact Hsound|]. split.
  - split.
    + intros c. rewrite (consistent_color_bit pos s c (Hsq s Hs)), Hempty. reflexivity.
    + intros pt Hpt. rewrite (consistent_type_bit pos s pt (Hsq s Hs) Hpt), Hempty.
      apply bool_decide_eq_false. simpl. congruence.
  - intros t Ht _. apply Hsq, Ht.
Qed.

Lemma consistent_agrees pos : consistent pos -> square_map_agrees pos.
Proof.
  intros [[Hall _] Hsq]. split; [|exact Hall].
  intros s pc Hs Hpc. specialize (Hsq s Hs).
  rewrite (consistent_color_bit _ _ _ Hsq), (consistent_type_bit _ _ _ Hsq Hpc).
  rewrite andb_true_iff, !bool_decide_eq_true. split.
  - intros <-. repeat split; auto. apply real_piece_not_NO_PIECE, Hpc.
  - intros [[_ Hc] Ht]. apply piece_eq; assumption.
Qed.

(** Positions that differ in the hand counts only have the same square map
    and bitboards. *)
Ltac same_fields :=
  cbv beta zeta iota delta
    [board byTypeBB byColorBB with_pieceCountInHand
     drop_piece undrop_piece add_to_hand remove_from_hand];
  reflexivity.

(** Consistency reads the square map and the bitboards only. *)
Lemma consistent_ext pos pos' :
  board pos = board pos' -> byTypeBB pos = byTypeBB pos' ->
  byColorBB pos = byColorBB pos' ->
  consistent pos -> consistent pos'.
Proof.
  unfold consistent, bitboards_sound, square_consistent.
  intros <- <- <-. exact (fun h => h).
Qed.

Section Preservation.
Context `{BG : BoardGeometry}.

Lemma put_piece_fills pc s pos :
  0 <= s -> type_of pc <> ALL_PIECES ->
  consistent_but s pos -> consistent (put_piece pc s pos).
Proof.
  intros Hs Hpc (Hsound & [Hvc Hvt] & Hsq). split.
  - split.
    + apply Z.bits_inj'. intros n Hn.
      rewrite Z.lor_spec, !color_bit_put_piece, type_bit_put_piece by assumption.
      rewrite (all_bit_sound _ _ Hsound).
      destruct (color_of pc); bit_cases; bool_cases.
    + intros c. unfold put_piece; simpl; unfold insert, fn_insert, bb_or.
      destruct Hsound as [_ Hnn].
      bit_cases; try (apply Z.lor_nonneg; split); auto using SquareBB_nonneg.
  - intros t Ht. apply square_consistent_intro.
    + intros c. rewrite color_bit_put_piece, board_put_piece by assumption.
      destruct (decide (s = t)) as [<-|Hne].
      * rewrite Hvc, Z.eqb_refl, andb_true_r. simpl.
        rewrite (bool_decide_eq_true_2 (pc <> NO_PIECE)); [reflexivity|].
        apply real_piece_not_NO_PIECE, Hpc.
      * rewrite (proj2 (Z.eqb_neq s t) Hne), andb_false_r, orb_false_r.
        apply consistent_color_bit, Hsq; auto.
    + intros pt Hpt. rewrite type_bit_put_piece, board_put_piece by assumption.
      rewrite (bool_decide_eq_false_2 (ALL_PIECES = pt)) by congruence. simpl.
      destruct (decide (s = t)) as [<-|Hne].
      * rewrite (Hvt pt Hpt), Z.eqb_refl, andb_true_r. reflexivity.
      * rewrite (proj2 (Z.eqb_neq s t) Hne), andb_false_r, orb_false_r.
        apply consistent_type_bit; auto.
    + rewrite board_put_piece. destruct (decide (s = t)) as [<-|Hne]; [auto|].
      apply (Hsq t Ht); auto.
Qed.

Lemma remove_piece_vacates pc s pos :
  0 <= s -> type_of pc <> ALL_PIECES -> board pos s = pc ->
  consistent pos -> consistent_but s (remove_piece pc s pos).
Proof.
  intros Hs Hpc Hon [Hsound Hsq].
  pose proof (real_piece_not_NO_PIECE pc Hpc) as Hreal.
  assert (Hcol : forall c, Z.testbit (byColorBB pos c) s = bool_decide (color_of pc = c)).
  { intros c. rewrite (consistent_color_bit pos s c (Hsq s Hs)), Hon.
    rewrite (bool_decide_eq_true_2 _ Hreal). reflexivity. }
  split; [|split].
  - split.
    + apply Z.bits_inj'. intros n Hn.
      rewrite Z.lor_spec, !color_bit_remove_piece, all_bit_remove_piece by assumption.
      rewrite (all_bit_sound _ _ Hsound).
      destruct (Z.eqb_spec s n) as [<-|Hne].
      * rewrite !Hcol. destruct (color_of pc); reflexivity.
      * rewrite !andb_false_r, !xorb_false_r. reflexivity.
    + intros c. unfold remove_piece; simpl; unfold insert, fn_insert, bb_xor.
      destruct Hsound as [_ Hnn]. pose proof (SquareBB_nonneg s).
      bit_cases; try apply Z.lxor_nonneg; auto. split; auto.
  - split.
    + intros c. rewrite color_bit_remove_piece, Hcol, Z.eqb_refl by assumption.
      destruct (bool_decide (color_of pc = c)); reflexivity.
    + intros pt Hpt. rewrite type_bit_remove_piece by assumption.
      rewrite (consistent_type_bit pos s pt (Hsq s Hs) Hpt), Hon, Z.eqb_refl.
      destruct (bool_decide (type_of pc = pt)); reflexivity.
  - intros t Ht Hne. apply square_consistent_intro.
    + intros c. rewrite color_bit_remove_piece, board_remove_piece by assumption.
      rewrite (proj2 (Z.eqb_neq s t)), andb_false_r, xorb_false_r by congruence.
      apply consistent_color_bit, Hsq, Ht.
    + intros pt Hpt. rewrite type_bit_remove_piece, board_remove_piece by assumption.
      rewrite (proj2 (Z.eqb_neq s t)), andb_false_r, xorb_false_r by congruence.
      apply consistent_type_bit; auto.
    + rewrite board_remove_piece. apply (Hsq t Ht).
Qed.

Lemma clear_square_fills s pos :
  0 <= s -> consistent_but s pos ->
  consistent (with_board (<[s := NO_PIECE]> (board pos)) pos).
Proof.
  intros Hs (Hsound & [Hvc Hvt] & Hsq). split; [exact Hsound|].
  intros t Ht. apply square_consistent_intro; simpl; unfold insert, fn_insert.
  - intros c. destruct (decide (s = t)) as [<-|Hne].
    + rewrite Hvc. reflexivity.
    + apply consistent_color_bit, Hsq; auto.
  - intros pt Hpt. destruct (decide (s = t)) as [<-|Hne].
    + rewrite (Hvt pt Hpt). symmetry. apply bool_decide_eq_false. simpl. congruence.
    + apply consistent_type_bit; auto.
  - destruct (decide (s = t)) as [<-|Hne]; [congruence|]. apply (Hsq t Ht); auto.
Qed.

Lemma move_piece_fills pc from to pos :
  0 <= from -> 0 <= to -> from <> to -> type_of pc <> ALL_PIECES ->
  board pos from = pc ->
  consistent_but to pos -> consistent (move_piece pc from to pos).
Proof.
  intros Hfrom Hto Hne Hpc Hon (Hsound & [Hvc Hvt] & Hsq).
  pose proof (real_piece_not_NO_PIECE pc Hpc) as Hreal.
  assert (Hcol : forall c, Z.testbit (byColorBB pos c) from = bool_decide (color_of pc = c)).
  { intros c. rewrite (consistent_color_bit pos from c (Hsq from Hfrom Hne)), Hon.
    rewrite (bool_decide_eq_true_2 _ Hreal). reflexivity. }
  split.
  - split.
    + apply Z.bits_inj'. intros n Hn.
      rewrite Z.lor_spec, !color_bit_move_piece, all_bit_move_piece by assumption.
      rewrite (all_bit_sound _ _ Hsound).
      destruct (Z.eqb_spec from n) as [<-|Hn1].
      * rewrite !Hcol. rewrite (proj2 (Z.eqb_neq to from)) by congruence.
        destruct (color_of pc); reflexivity.
      * destruct (Z.eqb_spec to n) as [<-|Hn2].
        -- rewrite !Hvc. destruct (color_of pc); reflexivity.
        -- rewrite !andb_false_r, !xorb_false_r. reflexivity.
    + intros c. unfold move_piece; simpl; unfold insert, fn_insert.
      destruct Hsound as [_ Hnn].
      pose proof (SquareBB_nonneg from). pose proof (SquareBB_nonneg to).
      bit_cases; auto. apply Z.lxor_nonneg. split; intros _; auto.
      apply Z.lxor_nonneg. tauto.
  - intros t Ht. apply square_consistent_intro.
    + intros c. rewrite color_bit_move_piece, board_move_piece by assumption.
      destruct (decide (to = t)) as [<-|Hn2].
      * rewrite Hvc, Z.eqb_refl, (proj2 (Z.eqb_neq from to)) by congruence.
        rewrite (bool_decide_eq_true_2 _ Hreal).
        destruct (bool_decide (color_of pc = c)); reflexivity.
      * destruct (decide (from = t)) as [<-|Hn1].
        -- rewrite Hcol, Z.eqb_refl, (proj2 (Z.eqb_neq to from)) by congruence.
           destruct (bool_decide (color_of pc = c)); reflexivity.
        -- rewrite (proj2 (Z.eqb_neq from t)), (proj2 (Z.eqb_neq to t)) by congruence.
           rewrite andb_false_r, xorb_false_r. apply consistent_color_bit, Hsq; auto.
    + intros pt Hpt. rewrite type_bit_move_piece, board_move_piece by assumption.
      destruct (decide (to = t)) as [<-|Hn2].
      * rewrite (Hvt pt Hpt), Z.eqb_refl, (proj2 (Z.eqb_neq from to)) by congruence.
        destruct (bool_decide (type_of pc = pt)); reflexivity.
      * destruct (decide (from = t)) as [<-|Hn1].
        -- rewrite (consistent_type_bit pos from pt (Hsq from Hfrom Hne) Hpt), Hon.
           rewrite Z.eqb_refl, (proj2 (Z.eqb_neq to from)) by congruence.
           rewrite (bool_decide_eq_false_2 (type_of NO_PIECE = pt)) by (simpl; congruence).
           destruct (bool_decide (type_of pc = pt)); reflexivity.
        -- rewrite (proj2 (Z.eqb_neq from t)), (proj2 (Z.eqb_neq to t)) by congruence.
           rewrite andb_false_r, xorb_false_r. apply consistent_type_bit; auto.
    + rewrite board_move_piece.
      destruct (decide (to = t)) as [<-|Hn2]; [auto|].
      destruct (decide (from = t)) as [<-|Hn1]; [congruence|].
      apply (Hsq t Ht); auto.
Qed.

Lemma placement_step_consistent pos pos' :
  placement_step pos pos' -> consistent pos -> consistent pos'.
Proof.
  intros Hstep Hcons. destruct Hstep.
  - apply put_piece_fills; auto using consistent_is_consistent_but.
  - apply move_piece_fills; auto using consistent_is_consistent_but.
  - apply (consistent_ext (put_piece pc s pos));
      [same_fields ..|].
    apply put_piece_fills; auto using consistent_is_consistent_but.
  - apply (consistent_ext (with_board (<[s := NO_PIECE]> (board (remove_piece pc s pos)))
                             (remove_piece pc s pos)));
      [same_fields ..|].
    apply clear_square_fills; auto using remove_piece_vacates.
  - apply clear_square_fills; auto using remove_piece_vacates.
  - apply move_piece_fills; auto using remove_piece_vacates.
  - apply put_piece_fills; auto using remove_piece_vacates.
Qed.

(** C3, as amended: from a consistent position, every position reached by
    [put_piece], [move_piece], [drop_piece] and [undrop_piece] under their
    contracts, and by [remove_piece] together with the write to [board[s]]
    that follows it (clearing the square, the capturing piece moving in, or
    the promoted piece being put there), has its square map in agreement
    with the colour and type bitboards, and its aggregated bitboard equal
    to the union of the colour bitboards. *)
Theorem placement_keeps_square_map pos pos' :
  consistent pos -> placement_reachable pos pos' -> square_map_agrees pos'.
Proof.
  intros Hcons Hreach. apply consistent_agrees.
  induction Hreach as [|mid pos' _ IH Hstep]; [exact Hcons|].
  exact (placement_step_consistent mid pos' Hstep IH).
Qed.
End Preservation.

Lemma empty_position_consistent v us : consistent (empty_position v us).
Proof.
  split.
  - split; [reflexivity | intros c; simpl; lia].
  - intros s Hs. apply square_consistent_intro; simpl.
    + intros c. apply Z.bits_0.
    + intros pt Hpt. rewrite Z.bits_0. symmetry. apply bool_decide_eq_false. congruence.
    + congruence.
Qed.

(** The claim of C3 read on its own: [remove_piece], applied under its
    contract to a consistent position, leaves [board[s]] as it was, so the
    square map still shows the pawn that the bitboards no longer have. *)
Lemma remove_piece_leaves_square_map_stale :
  consistent pawn_on_a2
  /\ board pawn_on_a2 8 = W_PAWN
  /\ ~ square_map_agrees (remove_piece (BG := chess_geometry) W_PAWN 8 pawn_on_a2).
Proof.
  split; [|split; [reflexivity|]].
  - apply (put_piece_fills); [lia | discriminate |].
    apply consistent_is_consistent_but;
      [apply empty_position_consistent | lia | reflexivity].
  - intros [Hmap _].
    destruct (Hmap 8 W_PAWN ltac:(lia) ltac:(discriminate)) as [Hbits _].
    destruct (Hbits eq_refl) as [Hcolor _].
    vm_compute in Hcolor. discriminate Hcolor.
Qed.

Lemma placement_keeps_square_map_witness :
  square_map_agrees
    (move_piece W_KING 4 57
       (remove_piece (BG := chess_geometry) B_KNIGHT 57 (lone_white_king no_rules WHITE))).
Proof.
  apply (placement_keeps_square_map (BG := chess_geometry) (empty_position no_rules WHITE)).
  - apply empty_position_consistent.
  - eapply reach_step; [eapply reach_step; [eapply reach_step; [eapply reach_step|]|]|].
    + apply reach_here.
    + apply (step_put W_KING 4); [lia | discriminate | reflexivity].
    + apply (step_put B_KING 60); [lia | discriminate | reflexivity].
    + apply (step_put B_KNIGHT 57); [lia | discriminate | reflexivity].
    + apply (step_capture B_KNIGHT W_KING 4 57);
        solve [lia | discriminate | reflexivity].
Defined.

(** ** Population count *)

Lemma popcount_div2 b :
  0 <= b -> popcount b = popcount (Z.div2 b) + Z.b2z (Z.odd b).
Proof.
  intros Hb. destruct b as [|p|p]; [reflexivity | | lia].
  destruct p; simpl; lia.
Qed.

Lemma popcount_set_bit s :
  0 <= s -> forall b, 0 <= b -> Z.testbit b s = false ->
  popcount (Z.lor b (SquareBB s)) = popcount b + 1.
Proof.
  unfold SquareBB. intros Hs. pattern s. apply natlike_ind; [| |exact Hs]; clear s Hs.
  - intros b Hb Hbit. rewrite Z.bit0_odd in Hbit.
    rewrite (popcount_div2 (Z.lor b _))
      by (apply Z.lor_nonneg; split; [exact Hb | apply Z.shiftl_nonneg; lia]).
    rewrite (popcount_div2 b Hb).
    rewrite !Z.div2_spec, Z.shiftr_lor, <- !Z.bit0_odd, Z.lor_spec, !Z.bit0_odd.
    rewrite Hbit. simpl. rewrite Z.lor_0_r. lia.
  - intros s Hs IH b Hb Hbit.
    assert (H2 : 0 <= Z.shiftl 1 (Z.succ s)) by (apply Z.shiftl_nonneg; lia).
    rewrite (popcount_div2 (Z.lor b _)) by (apply Z.lor_nonneg; split; assumption).
    rewrite (popcount_div2 b Hb).
    rewrite !Z.div2_spec, Z.shiftr_lor, <- !Z.bit0_odd, Z.lor_spec.
    rewrite Z.shiftr_shiftl_l by lia.
    replace (Z.succ s - 1) with s by lia.
    rewrite (Z.shiftl_spec 1 (Z.succ s) 0) by lia.
    rewrite (Z.testbit_neg_r 1 (0 - Z.succ s)) by lia.
    rewrite orb_false_r.
    rewrite IH.
    + lia.
    + apply Z.shiftr_nonneg. exact Hb.
    + rewrite Z.shiftr_spec by lia. replace (s + 1) with (Z.succ s) by lia. exact Hbit.
Qed.

(** ** Drops *)

Section Drops.

(** C7: dropping a piece of type [pt] and colour [c] on the empty square
    [s] takes exactly one [pt] from [c]'s hand, leaves the hand counts of
    every other colour and piece type as they were, adds exactly one
    occupied square, and the piece stands on [s] afterwards. (The
    aggregated entry [pieceCountInHand[c][ALL_PIECES]] goes down by one
    with it.) *)
Theorem drop_piece_accounting pos c pt s :
  consistent pos -> 0 <= s -> empty pos s = true -> pt <> ALL_PIECES ->
  1 <= count_in_hand pos c pt ->
  let pos' := drop_piece (make_piece c pt) s pos in
  count_in_hand pos' c pt = count_in_hand pos c pt - 1
  /\ (forall c' pt', pt' <> ALL_PIECES -> c' <> c \/ pt' <> pt ->
        count_in_hand pos' c' pt' = count_in_hand pos c' pt')
  /\ count_in_hand pos' c ALL_PIECES = count_in_hand pos c ALL_PIECES - 1
  /\ popcount (pieces pos') = popcount (pieces pos) + 1
  /\ piece_on pos' s = make_piece c pt.
Proof.
  intros [Hsound Hsq] Hs Hempty Hpt Hhand pos'.
  apply bool_decide_eq_true in Hempty.
  repeat split.
  - unfold pos', count_in_hand, drop_piece, remove_from_hand; simpl.
    unfold insert, fn_insert. bit_cases.
  - intros c' pt' Hpt' Hother.
    unfold pos', count_in_hand, drop_piece, remove_from_hand; simpl.
    unfold insert, fn_insert. bit_cases. tauto.
  - unfold pos', count_in_hand, drop_piece, remove_from_hand; simpl.
    unfold insert, fn_insert. bit_cases.
  - assert (Hpieces : pieces pos' = Z.lor (pieces pos) (SquareBB s)).
    { unfold pos', pieces, drop_piece, put_piece; simpl.
      unfold insert, fn_insert, bb_or. bit_cases. }
    rewrite Hpieces. apply popcount_set_bit; [exact Hs | |].
    + unfold pieces. destruct Hsound as [-> Hnn]. apply Z.lor_nonneg. auto.
    + unfold pieces. rewrite (all_bit_sound _ _ Hsound).
      rewrite !(consistent_color_bit pos s _ (Hsq s Hs)), Hempty. reflexivity.
  - unfold pos', piece_on, drop_piece, put_piece; simpl.
    unfold insert, fn_insert. bit_cases.
Qed.
End Drops.

Lemma knight_in_hand_consistent : consistent knight_in_hand.
Proof.
  apply (consistent_ext
           (put_piece B_KING 60 (put_piece W_KING 4 (empty_position no_rules WHITE))));
    [unfold knight_in_hand; same_fields ..|].
  apply (put_piece_fills B_KING 60); [lia | discriminate |].
  apply consistent_is_consistent_but; [| lia | reflexivity].
  apply (put_piece_fills W_KING 4); [lia | discriminate |].
  apply consistent_is_consistent_but;
    [apply empty_position_consistent | lia | reflexivity].
Qed.

Lemma drop_piece_accounting_witness :
  let pos' := drop_piece (make_piece WHITE KNIGHT) 18 knight_in_hand in
  count_in_hand pos' WHITE KNIGHT = 0
  /\ popcount (pieces pos') = 3
  /\ piece_on pos' 18 = make_piece WHITE KNIGHT.
Proof.
  intros pos'. subst pos'.
  destruct (drop_piece_accounting knight_in_hand WHITE KNIGHT 18
              knight_in_hand_consistent
              ltac:(lia) eq_refl ltac:(discriminate) ltac:(vm_compute; discriminate))
    as (H1 & _ & _ & H4 & H5).
  split; [|split].
  - rewrite H1. reflexivity.
  - rewrite H4. reflexivity.
  - exact H5.
Defined.

(** ** Fields of a position after the helpers *)

Section Fields.
Context `{BG : BoardGeometry}.
Variables (pc : Piece) (s from to : Square) (c : Color) (pt : PieceType) (pos : Position).

Lemma put_piece_board : board (put_piece pc s pos) = <[s := pc]> (board pos).
Proof. reflexivity. Qed.
Lemma put_piece_hand : pieceCountInHand (put_piece pc s pos) = pieceCountInHand pos.
Proof. reflexivity. Qed.
Lemma put_piece_st : st (put_piece pc s pos) = st pos.
Proof. reflexivity. Qed.
Lemma put_piece_var : var (put_piece pc s pos) = var pos.
Proof. reflexivity. Qed.
Lemma put_piece_side : sideToMove (put_piece pc s pos) = sideToMove pos.
Proof. reflexivity. Qed.
Lemma put_piece_promoted : promotedPieces (put_piece pc s pos) = promotedPieces pos.
Proof. reflexivity. Qed.

Lemma remove_piece_board : board (remove_piece pc s pos) = board pos.
Proof. reflexivity. Qed.
Lemma remove_piece_hand : pieceCountInHand (remove_piece pc s pos) = pieceCountInHand pos.
Proof. reflexivity. Qed.
Lemma remove_piece_st : st (remove_piece pc s pos) = st pos.
Proof. reflexivity. Qed.
Lemma remove_piece_var : var (remove_piece pc s pos) = var pos.
Proof. reflexivity. Qed.
Lemma remove_piece_side : sideToMove (remove_piece pc s pos) = sideToMove pos.
Proof. reflexivity. Qed.
Lemma remove_piece_promoted : promotedPieces (remove_piece pc s pos) = promotedPieces pos.
Proof. reflexivity. Qed.

Lemma move_piece_board :
  board (move_piece pc from to pos) = <[to := pc]> (<[from := NO_PIECE]> (board pos)).
Proof. reflexivity. Qed.
Lemma move_piece_hand : pieceCountInHand (move_piece pc from to pos) = pieceCountInHand pos.
Proof. reflexivity. Qed.
Lemma move_piece_st : st (move_piece pc from to pos) = st pos.
Proof. reflexivity. Qed.
Lemma move_piece_var : var (move_piece pc from to pos) = var pos.
Proof. reflexivity. Qed.
Lemma move_piece_side : sideToMove (move_piece pc from to pos) = sideToMove pos.
Proof. reflexivity. Qed.
Lemma move_piece_promoted : promotedPieces (move_piece pc from to pos) = promotedPieces pos.
Proof. reflexivity. Qed.

Lemma add_to_hand_board : board (add_to_hand c pt pos) = board pos.
Proof. reflexivity. Qed.
Lemma add_to_hand_st : st (add_to_hand c pt pos) = st pos.
Proof. reflexivity. Qed.
Lemma add_to_hand_var : var (add_to_hand c pt pos) = var pos.
Proof. reflexivity. Qed.
Lemma add_to_hand_side : sideToMove (add_to_hand c pt pos) = sideToMove pos.
Proof. reflexivity. Qed.
Lemma add_to_hand_promoted : promotedPieces (add_to_hand c pt pos) = promotedPieces pos.
Proof. reflexivity. Qed.

Lemma remove_from_hand_board : board (remove_from_hand c pt pos) = board pos.
Proof. reflexivity. Qed.
Lemma remove_from_hand_st : st (remove_from_hand c pt pos) = st pos.
Proof. reflexivity. Qed.
Lemma remove_from_hand_var : var (remove_from_hand c pt pos) = var pos.
Proof. reflexivity. Qed.
Lemma remove_from_hand_side : sideToMove (remove_from_hand c pt pos) = sideToMove pos.
Proof. reflexivity. Qed.
Lemma remove_from_hand_promoted :
  promotedPieces (remove_from_hand c pt pos) = promotedPieces pos.
Proof. reflexivity. Qed.

(** The hand counts after [add_to_hand] and [remove_from_hand], for a piece
    type that is not the aggregated entry. *)
Lemma add_to_hand_hand c' pt' :
  pt <> ALL_PIECES ->
  pieceCountInHand (add_to_hand c pt pos) c' pt'
  = pieceCountInHand pos c' pt'
    + (if decide (c' = c /\ (pt' = pt \/ pt' = ALL_PIECES)) then 1 else 0).
Proof.
  intros Hpt. unfold add_to_hand; simpl; unfold insert, fn_insert.
  repeat (case_decide; subst; simpl); try lia; try tauto; try congruence.
  all: exfalso; intuition congruence.
Qed.

Lemma remove_from_hand_hand c' pt' :
  pt <> ALL_PIECES ->
  pieceCountInHand (remove_from_hand c pt pos) c' pt'
  = pieceCountInHand pos c' pt'
    - (if decide (c' = c /\ (pt' = pt \/ pt' = ALL_PIECES)) then 1 else 0).
Proof.
  intros Hpt. unfold remove_from_hand; simpl; unfold insert, fn_insert.
  repeat (case_decide; subst; simpl); try lia; try tauto; try congruence.
  all: exfalso; intuition congruence.
Qed.
End Fields.

Create Rewrite HintDb fields.
Hint Rewrite @put_piece_board @put_piece_hand @put_piece_st @put_piece_var
  @put_piece_side @put_piece_promoted
  @remove_piece_board @remove_piece_hand @remove_piece_st @remove_piece_var
  @remove_piece_side @remove_piece_promoted
  @move_piece_board @move_piece_hand @move_piece_st @move_piece_var
  @move_piece_side @move_piece_promoted
  @add_to_hand_board @add_to_hand_st @add_to_hand_var @add_to_hand_side
  @add_to_hand_promoted
  @remove_from_hand_board @remove_from_hand_st @remove_from_hand_var
  @remove_from_hand_side @remove_from_hand_promoted : fields.
(** ** Moves: squares, drops and the bitboards of a consistent position *)

Lemma consistent_but_ext hole pos pos' :
  board pos = board pos' -> byTypeBB pos = byTypeBB pos' ->
  byColorBB pos = byColorBB pos' ->
  consistent_but hole pos -> consistent_but hole pos'.
Proof.
  unfold consistent_but, bitboards_sound, square_vacated, square_consistent.
  intros <- <- <-. exact (fun h => h).
Qed.





Section DropFields.
Context `{BG : BoardGeometry}.

Lemma drop_piece_board pc s pos :
  board (drop_piece pc s pos) = <[s := pc]> (board pos).
Proof. reflexivity. Qed.

Lemma undrop_piece_board pc s pos :
  board (undrop_piece pc s pos) = <[s := NO_PIECE]> (board pos).
Proof. reflexivity. Qed.

Lemma drop_piece_hand pc s pos c pt :
  type_of pc <> ALL_PIECES ->
  pieceCountInHand (drop_piece pc s pos) c pt
  = pieceCountInHand pos c pt
    - (if decide (c = color_of pc /\ (pt = type_of pc \/ pt = ALL_PIECES)) then 1 else 0).
Proof.
  intros Hpc. unfold drop_piece. rewrite remove_from_hand_hand by assumption.
  rewrite put_piece_hand. reflexivity.
Qed.

Lemma undrop_piece_hand pc s pos c pt :
  type_of pc <> ALL_PIECES ->
  pieceCountInHand (undrop_piece pc s pos) c pt
  = pieceCountInHand pos c pt
    + (if decide (c = color_of pc /\ (pt = type_of pc \/ pt = ALL_PIECES)) then 1 else 0).
Proof.
  intros Hpc. unfold undrop_piece. rewrite add_to_hand_hand by assumption.
  reflexivity.
Qed.

End DropFields.



(** The bitboards of a consistent position are determined by its square
    map. *)
Lemma consistent_bitboards_determined p q :
  consistent p -> consistent q ->
  (forall s, 0 <= s -> board p s = board q s) ->
  (forall c, byColorBB p c = byColorBB q c)
  /\ (forall pt, byTypeBB p pt = byTypeBB q pt).
Proof.
  intros [[Hallp _] Hp] [[Hallq _] Hq] Hboard.
  assert (Hcolor : forall c, byColorBB p c = byColorBB q c).
  { intros c. apply Z.bits_inj'. intros n Hn.
    rewrite (consistent_color_bit p n c (Hp n Hn)), (consistent_color_bit q n c (Hq n Hn)).
    rewrite (Hboard n Hn). reflexivity. }
  split; [exact Hcolor|].
  intros pt. destruct (decide (pt = ALL_PIECES)) as [->|Hpt].
  - rewrite Hallp, Hallq, !Hcolor. reflexivity.
  - apply Z.bits_inj'. intros n Hn.
    rewrite (consistent_type_bit p n pt (Hp n Hn) Hpt),
      (consistent_type_bit q n pt (Hq n Hn) Hpt), (Hboard n Hn).
    reflexivity.
Qed.

(** ** Keys: the algebra of [xor] *)

Lemma Zxor_ring_theory : ring_theory 0 (-1) Z.lxor Z.land Z.lxor (fun x : Z => x) eq.
Proof.
  constructor; intros.
  - apply Z.lxor_0_l.
  - apply Z.lxor_comm.
  - symmetry. apply Z.lxor_assoc.
  - apply Z.land_m1_l.
  - apply Z.land_comm.
  - apply Z.land_assoc.
  - apply Z.bits_inj'. intros n Hn.
    rewrite ?Z.lxor_spec, ?Z.land_spec, ?Z.lxor_spec.
    destruct (Z.testbit x n), (Z.testbit y n), (Z.testbit z n); reflexivity.
  - reflexivity.
  - apply Z.lxor_nilpotent.
Qed.

Lemma Zxor_ring_morph :
  ring_morph 0 (-1) Z.lxor Z.land Z.lxor (fun x : Z => x) eq
             false true xorb andb xorb (fun b : bool => b) Bool.eqb bool_to_mask.
Proof.
  constructor; intros; try reflexivity.
  - destruct x, y; reflexivity.
  - destruct x, y; reflexivity.
  - destruct x, y; reflexivity.
  - destruct x, y; simpl in *; congruence.
Qed.

Add Ring Zxor : Zxor_ring_theory (morphism Zxor_ring_morph).

Section XorAll.
Context `{ZT : ZobristTables}.
Context {A : Type}.



Lemma sum_update (l : list A) (f g : A -> Z) (x : A) :
  List.NoDup l -> In x l -> (forall y, In y l -> y <> x -> g y = f y) ->
  fold_right Z.add 0 (map g l) = fold_right Z.add 0 (map f l) - f x + g x.
Proof.
  induction l as [|a l IH]; intros Hnodup Hin Hsame; [destruct Hin|].
  inversion Hnodup as [|? ? Hnotin Hrest]; subst.
  simpl. destruct Hin as [->|Hin].
  - assert (Hrest' : map g l = map f l).
    { apply map_ext_in. intros y Hy. apply Hsame; [right; exact Hy|].
      intros ->. contradiction. }
    rewrite Hrest'. lia.
  - rewrite (IH Hrest Hin), (Hsame a).
    + lia.
    + left. reflexivity.
    + intros ->. contradiction.
    + intros y Hy. apply Hsame. right. exact Hy.
Qed.


End XorAll.

Section Enumerations.
Context `{BG : BoardGeometry}.




End Enumerations.
(** ** Keys and counts of a board under writes to single squares *)

Section KeysOfBoards.
Context `{BG : BoardGeometry} `{ZT : ZobristTables}.













End KeysOfBoards.

(** ** Piece counts under the placement helpers *)

(** Look through the helpers that leave the board and the counts alone. *)
Ltac wrapper_fields :=
  lazy beta zeta iota delta
    [board byTypeBB byColorBB pieceCount pieceCountInHand var st sideToMove
     with_board with_pieceCountInHand with_promotedPieces with_st
     with_sideToMove with_gamePly
     add_to_hand remove_from_hand];
  reflexivity.

Section Counts.
Context `{BG : BoardGeometry}.

Lemma put_piece_pieceCount pc s pos pc' :
  type_of pc' <> ALL_PIECES ->
  pieceCount (put_piece pc s pos) pc' = pieceCount pos pc' + indicator (pc = pc').
Proof.
  intros Hreal. unfold put_piece, indicator; simpl; unfold insert, fn_insert.
  destruct (decide (make_piece (color_of pc) ALL_PIECES = pc')) as [E|_].
  - exfalso. apply Hreal. rewrite <- E. reflexivity.
  - destruct (decide (pc = pc')) as [->|Hne]; lia.
Qed.

Lemma remove_piece_pieceCount pc s pos pc' :
  type_of pc' <> ALL_PIECES ->
  pieceCount (remove_piece pc s pos) pc' = pieceCount pos pc' - indicator (pc = pc').
Proof.
  intros Hreal. unfold remove_piece, indicator; simpl; unfold insert, fn_insert.
  destruct (decide (make_piece (color_of pc) ALL_PIECES = pc')) as [E|_].
  - exfalso. apply Hreal. rewrite <- E. reflexivity.
  - destruct (decide (pc = pc')) as [->|Hne]; lia.
Qed.


Lemma drop_piece_pieceCount pc s pos :
  pieceCount (drop_piece pc s pos) = pieceCount (put_piece pc s pos).
Proof. unfold drop_piece. wrapper_fields. Qed.


End Counts.

Section KeyDeltas.
Context `{BG : BoardGeometry} `{ZT : ZobristTables}.








End KeyDeltas.

(** ** The edits of a move, one by one *)



Section Edits.
Context `{BG : BoardGeometry}.



Lemma apply_edit_side e pos : sideToMove (apply_edit e pos) = sideToMove pos.
Proof. destruct e; reflexivity. Qed.

Lemma apply_edit_st e pos : st (apply_edit e pos) = st pos.
Proof. destruct e; reflexivity. Qed.






(** *** Edits on positions alike in board and hands *)







(** *** Lists of edits *)




Lemma run_side es pos : sideToMove (run es pos) = sideToMove pos.
Proof.
  revert pos. induction es as [|e es IH]; intros pos; simpl; [reflexivity|].
  rewrite IH. apply apply_edit_side.
Qed.

Lemma run_st es pos : st (run es pos) = st pos.
Proof.
  revert pos. induction es as [|e es IH]; intros pos; simpl; [reflexivity|].
  rewrite IH. apply apply_edit_st.
Qed.



End Edits.

(** ** Keys under the edits of a move *)

Section EditKeys.
Context `{BG : BoardGeometry} `{ZT : ZobristTables}.









End EditKeys.

(** ** The edits of a legal move *)

Section MoveEdits.
Context `{BG : BoardGeometry} `{ZT : ZobristTables} `{AO : AttackOracle}.
















End MoveEdits.

(** ** A move applied and retracted *)

Section Reversibility.
Context `{BG : BoardGeometry} `{ZT : ZobristTables} `{AO : AttackOracle}.


Lemma do_move_byTypeBB m gc pos :
  byTypeBB (do_move m gc pos) = byTypeBB (run (move_edits pos m) pos).
Proof. reflexivity. Qed.

Lemma do_move_byColorBB m gc pos :
  byColorBB (do_move m gc pos) = byColorBB (run (move_edits pos m) pos).
Proof. reflexivity. Qed.









End Reversibility.

(** ** Keys of positions reached by legal moves *)

Section WellFormed.
Context `{BG : BoardGeometry} `{ZT : ZobristTables} `{AO : AttackOracle}.






End WellFormed.
(** ** Positions set up from a list of placements *)

Section Setup.
Context `{BG : BoardGeometry} `{ZT : ZobristTables}.









End Setup.
Section Witnesses.
Context `{BG : BoardGeometry} `{ZT : ZobristTables} `{AO : AttackOracle}.




End Witnesses.


(** The rook takes the rook, which goes to White's hand. *)
Example rook_takes_rook_effect :
  let pos := hill_reached crazyhouse WHITE in
  let pos' := do_move (BG := chess_geometry) (ZT := sample_zobrist) (AO := pawn_oracle)
                rook_takes_rook false pos in
  piece_on pos' 56 = W_ROOK /\ piece_on pos' 0 = NO_PIECE
  /\ count_in_hand pos' WHITE ROOK = 1 /\ count_in_hand pos WHITE ROOK = 0
  /\ key (st pos') <> key (st pos).
Proof. vm_compute. repeat split; discriminate. Qed.


Example knights_back_home_clocks :
  gamePly knights_back_home = 4 /\ gamePly chess_start = 0
  /\ rule50 (st knights_back_home) = 4 /\ rule50 (st chess_start) = 0.
Proof. vm_compute. repeat split. Qed.

(** ** Moves of every kind *)

Section MoveKinds.
Context `{BG : BoardGeometry}.

(** The promotions that [move_ok] admits: of the type that promotes to the
    target, of the pawn to a type that no piece promotes to, and, where
    pieces demote, of the promoted form back to the target. *)
Lemma origin_type_promoted v pt :
  pt <> ALL_PIECES ->
  (forall b, promotedPieceType v b = promotedPieceType v pt -> b = pt) ->
  demotes v (promotedPieceType v pt) = false ->
  origin_type v (promotedPieceType v pt) = pt.
Proof.
  intros Hpt Hinj Hno. unfold origin_type. rewrite Hno. unfold base_type.
  destruct (find (fun b => bool_decide (promotedPieceType v b = promotedPieceType v pt))
              piece_types) as [b|] eqn:E.
  - apply find_some in E. destruct E as [_ E]. apply bool_decide_eq_true in E.
    apply Hinj, E.
  - assert (Hin : In pt piece_types)
      by (destruct pt; try contradiction; simpl; tauto).
    pose proof (find_none _ _ E pt Hin) as Hnot. simpl in Hnot.
    rewrite bool_decide_eq_true_2 in Hnot by reflexivity. discriminate Hnot.
Qed.

Lemma origin_type_pawn v target :
  (forall b, promotedPieceType v b <> target) ->
  demotes v target = false ->
  origin_type v target = PAWN.
Proof.
  intros Hnone Hno. unfold origin_type. rewrite Hno. unfold base_type.
  destruct (find (fun b => bool_decide (promotedPieceType v b = target)) piece_types)
    as [b|] eqn:E; [|reflexivity].
  apply find_some in E. destruct E as [_ E]. apply bool_decide_eq_true in E.
  exfalso. exact (Hnone b E).
Qed.

Lemma origin_type_demoted v target :
  pieceDemotion v = true -> promotedPieceType v target <> NO_PIECE_TYPE ->
  origin_type v target = promotedPieceType v target.
Proof.
  intros Hdem Hto. unfold origin_type, demotes. rewrite Hdem.
  rewrite (bool_decide_eq_false_2 _ Hto). reflexivity.
Qed.

(** The edits of a drop are [drop_piece] and, taken back, [undrop_piece] of
    the header, for a piece held in the hand in its own type; those of
    castling are [do_castling]. *)
Lemma drop_edits_drop_piece v m pc pos :
  move_type m = DROP -> in_hand_type v (type_of pc) = type_of pc ->
  run (mover_edits v (color_of pc) m pc) pos = drop_piece pc (to_sq m) pos.
Proof.
  intros Hmt Hheld. unfold mover_edits. rewrite Hmt, Hheld. reflexivity.
Qed.

Lemma drop_edits_undrop_piece v m pc pos :
  move_type m = DROP -> in_hand_type v (type_of pc) = type_of pc ->
  run (rev (map inverse (mover_edits v (color_of pc) m pc))) pos
  = undrop_piece pc (to_sq m) pos.
Proof.
  intros Hmt Hheld. unfold mover_edits. rewrite Hmt, Hheld. reflexivity.
Qed.

Lemma castling_edits_do_castling us m pc pos :
  move_type m = CASTLING ->
  run (mover_edits (var pos) us m pc) pos
  = do_castling true us (from_sq m) (to_sq m) pos
  /\ run (rev (map inverse (mover_edits (var pos) us m pc))) pos
     = do_castling false us (from_sq m) (to_sq m) pos.
Proof.
  intros Hmt. unfold mover_edits. rewrite Hmt. split; reflexivity.
Qed.

(** A drop touches its destination only: the rights it leaves do not depend
    on what the origin field of the move holds. *)
Lemma rights_after_drop pos m :
  move_type m = DROP ->
  next_rights pos m
  = Z.land (castlingRights (st pos)) (Z.lnot (castlingRightsMask pos (to_sq m))).
Proof.
  intros Hmt. unfold next_rights, touched_squares. rewrite Hmt. simpl.
  rewrite Z.lor_0_r. reflexivity.
Qed.

(** A move that relocates a piece clears the rights of both squares. *)
Lemma rights_after_normal pos m :
  move_type m = NORMAL ->
  next_rights pos m
  = Z.land (castlingRights (st pos))
      (Z.lnot (Z.lor (castlingRightsMask pos (from_sq m))
                     (castlingRightsMask pos (to_sq m)))).
Proof.
  intros Hmt. unfold next_rights, touched_squares. rewrite Hmt. simpl.
  rewrite Z.lor_0_r. reflexivity.
Qed.
End MoveKinds.

(** *** On sample positions *)

(** A silver promotes to gold: quietly, taking a piece, and in place. The
    gold is marked as promoted; retracted, the move leaves the silver where
    it stood, and board, hands and marks as they were. *)
Example silver_promotes_and_returns : forall to, In to [44; 45; 36] ->
  let pos := silver_on_e5 shogi_like in
  let m := promotion 36 to GOLD in
  let moved :=
    do_move (BG := chess_geometry) (ZT := sample_zobrist) (AO := pawn_oracle) m false pos in
  let back := undo_move (BG := chess_geometry) m moved in
  move_ok (BG := chess_geometry) pos m = true
  /\ piece_on moved to = W_GOLD /\ is_promoted moved to = true
  /\ piece_on back 36 = W_SILVER /\ is_promoted back 36 = false
  /\ same_contentb (BG := chess_geometry) back pos = true
  /\ promotedPieces back = promotedPieces pos.
Proof. intros to [<-|[<-|[<-|[]]]]; vm_compute; repeat split. Qed.

(** Where a shogi pawn and a silver promote to gold alike, the promotion
    of the one and of the other lead to positions that agree in all the
    retraction has to go by: board, hands, marks and the record of the
    captured piece. The retraction restores the silver, which is the
    promotion that [move_ok] admits. *)
Example two_promotions_one_result :
  let m := promotion 36 44 GOLD in
  let after pc :=
    do_move (BG := chess_geometry) (ZT := sample_zobrist) (AO := pawn_oracle) m false
      (promoter_on_e5 two_ways_to_gold pc) in
  let silver := after W_SILVER in
  let pawn := after (make_piece WHITE SHOGI_PAWN) in
  same_contentb (BG := chess_geometry) silver pawn = true
  /\ promotedPieces silver = promotedPieces pawn
  /\ capturedPiece (st silver) = capturedPiece (st pawn)
  /\ capturedpromoted (st silver) = capturedpromoted (st pawn)
  /\ move_ok (BG := chess_geometry) (promoter_on_e5 two_ways_to_gold W_SILVER) m = true
  /\ move_ok (BG := chess_geometry)
       (promoter_on_e5 two_ways_to_gold (make_piece WHITE SHOGI_PAWN)) m = false
  /\ piece_on (undo_move (BG := chess_geometry) m silver) 36 = W_SILVER.
Proof. vm_compute; repeat split. Qed.

(** Where pieces demote, a promoted gold goes back to silver, and the
    retraction makes it a promoted gold again. *)
Example gold_demotes_and_returns :
  let pos := golds_promoted kyoto_like in
  let m := promotion 36 44 SILVER in
  let moved :=
    do_move (BG := chess_geometry) (ZT := sample_zobrist) (AO := pawn_oracle) m false pos in
  let back := undo_move (BG := chess_geometry) m moved in
  move_ok (BG := chess_geometry) pos m = true
  /\ piece_on moved 44 = W_SILVER /\ is_promoted moved 44 = false
  /\ piece_on back 36 = W_GOLD /\ is_promoted back 36 = true
  /\ same_contentb (BG := chess_geometry) back pos = true
  /\ promotedPieces back = promotedPieces pos.
Proof. vm_compute; repeat split. Qed.

(** A promoted gold that is captured enters the hand as the silver it was;
    the record keeps the gold and its promoted flag for the retraction. *)
Example captured_gold_reverts_to_silver :
  let pos := golds_promoted shogi_like in
  let m := quiet 5 45 in
  let moved :=
    do_move (BG := chess_geometry) (ZT := sample_zobrist) (AO := pawn_oracle) m false pos in
  let back := undo_move (BG := chess_geometry) m moved in
  move_ok (BG := chess_geometry) pos m = true
  /\ capturedPiece (st moved) = B_GOLD /\ capturedpromoted (st moved) = true
  /\ count_in_hand moved WHITE SILVER = 1 /\ count_in_hand moved WHITE GOLD = 0
  /\ piece_on back 45 = B_GOLD /\ is_promoted back 45 = true
  /\ same_contentb (BG := chess_geometry) back pos = true
  /\ promotedPieces back = promotedPieces pos.
Proof. vm_compute; repeat split. Qed.

(** A drop in promoted state on an occupied square, where the descriptor
    permits both: the gold comes out of the hand as a silver, the occupant
    is displaced like a captured piece, and the retraction puts it back.
    Where the descriptor does not permit it, the caller has no such move. *)
Example gold_dropped_on_bishop :
  let pos := silver_on_e5 kyoto_like in
  let m := drop_move 0 45 GOLD in
  let moved :=
    do_move (BG := chess_geometry) (ZT := sample_zobrist) (AO := pawn_oracle) m false pos in
  let back := undo_move (BG := chess_geometry) m moved in
  move_ok (BG := chess_geometry) pos m = true
  /\ piece_on moved 45 = W_GOLD /\ is_promoted moved 45 = true
  /\ capturedPiece (st moved) = B_BISHOP
  /\ count_in_hand pos WHITE SILVER = 1 /\ count_in_hand moved WHITE SILVER = 0
  /\ count_in_hand moved WHITE BISHOP = 1
  /\ piece_on back 45 = B_BISHOP
  /\ same_contentb (BG := chess_geometry) back pos = true
  /\ promotedPieces back = promotedPieces pos
  /\ move_ok (BG := chess_geometry) (silver_on_e5 shogi_like) (drop_move 0 45 SILVER) = false.
Proof. vm_compute; repeat split. Qed.

(** Castling: king and rook change places in one move, White's rights go,
    and the retraction restores squares and rights. *)
Example white_castles_short :
  let moved :=
    do_move (BG := chess_geometry) (ZT := sample_zobrist) (AO := pawn_oracle)
      castles_short false castle_ready in
  let back := undo_move (BG := chess_geometry) castles_short moved in
  move_ok (BG := chess_geometry) castle_ready castles_short = true
  /\ piece_on moved 6 = W_KING /\ piece_on moved 5 = W_ROOK
  /\ empty moved 4 = true /\ empty moved 7 = true
  /\ castlingRights (st castle_ready) = 15 /\ castlingRights (st moved) = 12
  /\ same_contentb (BG := chess_geometry) back castle_ready = true.
Proof. vm_compute; repeat split. Qed.

(** The rook's move from h1 costs the right of that rook; a drop costs
    none, whatever square the origin field of its encoding names. *)
Example rights_lost_by_touched_squares : forall origin, In origin [0; 4; 7] ->
  let after m :=
    castlingRights
      (st (do_move (BG := chess_geometry) (ZT := sample_zobrist) (AO := pawn_oracle)
             m false castle_ready)) in
  after (quiet 7 6) = 14 /\ after (drop_move origin 28 KNIGHT) = 15.
Proof. intros origin [<-|[<-|[<-|[]]]]; vm_compute; repeat split. Qed.

(** ** The piece lists under the placement helpers *)

Section PieceLists.
Context `{BG : BoardGeometry}.

Lemma listed_consistent pos pc t :
  square_consistent pos t -> type_of pc <> ALL_PIECES ->
  listed pos pc t = bool_decide (board pos t = pc).
Proof.
  intros Hsq Hpc. unfold listed, pieces_of. rewrite Z.land_spec.
  rewrite (consistent_color_bit _ _ _ Hsq), (consistent_type_bit _ _ _ Hsq Hpc).
  destruct (decide (board pos t = pc)) as [E|E].
  - rewrite (bool_decide_eq_true_2 _ E). subst pc.
    rewrite !andb_true_iff, !bool_decide_eq_true. repeat split.
    intros E. apply Hpc. rewrite E. reflexivity.
  - rewrite (bool_decide_eq_false_2 _ E).
    apply not_true_is_false. rewrite !andb_true_iff, !bool_decide_eq_true.
    intros [[_ Hc] Ht]. apply E, piece_eq; assumption.
Qed.

Lemma listed_vacated pos pc s :
  square_vacated pos s -> listed pos pc s = false.
Proof.
  intros [Hvc _]. unfold listed, pieces_of. rewrite Z.land_spec, Hvc. reflexivity.
Qed.

Lemma listed_put_piece pc s pos pc' t :
  0 <= s -> type_of pc <> ALL_PIECES -> type_of pc' <> ALL_PIECES ->
  square_vacated pos s ->
  listed (put_piece pc s pos) pc' t
  = if decide (s = t) then bool_decide (pc = pc') else listed pos pc' t.
Proof.
  intros Hs Hpc Hpc' [Hvc Hvt]. unfold listed, pieces_of.
  rewrite Z.land_spec, color_bit_put_piece, type_bit_put_piece by exact Hs.
  destruct (decide (s = t)) as [<-|Hne].
  - rewrite Hvc, (Hvt _ Hpc'), Z.eqb_refl. simpl. rewrite !andb_true_r.
    rewrite (bool_decide_eq_false_2 (ALL_PIECES = type_of pc')) by congruence. simpl.
    destruct (decide (pc = pc')) as [<-|E].
    + rewrite !bool_decide_eq_true_2; reflexivity.
    + rewrite (bool_decide_eq_false_2 _ E).
      apply not_true_is_false. rewrite andb_true_iff, !bool_decide_eq_true.
      intros [Hc Ht]. apply E, piece_eq; assumption.
  - replace (s =? t) with false by (symmetry; apply Z.eqb_neq, Hne).
    rewrite !andb_false_r, !orb_false_r. rewrite Z.land_spec. reflexivity.
Qed.

Lemma listed_remove_piece pc s pos pc' t :
  0 <= s -> type_of pc <> ALL_PIECES -> type_of pc' <> ALL_PIECES ->
  square_consistent pos s -> board pos s = pc ->
  listed (remove_piece pc s pos) pc' t
  = if decide (s = t) then false else listed pos pc' t.
Proof.
  intros Hs Hpc Hpc' Hsq Hon. unfold listed, pieces_of.
  rewrite Z.land_spec, color_bit_remove_piece, type_bit_remove_piece by assumption.
  destruct (decide (s = t)) as [<-|Hne].
  - rewrite (consistent_color_bit _ _ _ Hsq), (consistent_type_bit _ _ _ Hsq Hpc'), Hon.
    rewrite Z.eqb_refl, !andb_true_r.
    rewrite (bool_decide_eq_true_2 (pc <> NO_PIECE))
      by (apply real_piece_not_NO_PIECE, Hpc).
    simpl. destruct (bool_decide (color_of pc = color_of pc')); reflexivity.
  - replace (s =? t) with false by (symmetry; apply Z.eqb_neq, Hne).
    rewrite !andb_false_r, !xorb_false_r. rewrite Z.land_spec. reflexivity.
Qed.

Lemma listed_move_piece pc from to pos pc' t :
  0 <= from -> 0 <= to -> from <> to ->
  type_of pc <> ALL_PIECES -> type_of pc' <> ALL_PIECES ->
  square_consistent pos from -> board pos from = pc -> square_vacated pos to ->
  listed (move_piece pc from to pos) pc' t
  = if decide (to = t) then bool_decide (pc = pc')
    else if decide (from = t) then false else listed pos pc' t.
Proof.
  intros Hfrom Hto Hne Hpc Hpc' Hsq Hon [Hvc Hvt]. unfold listed, pieces_of.
  rewrite Z.land_spec, color_bit_move_piece, type_bit_move_piece by assumption.
  destruct (decide (to = t)) as [<-|Hnt].
  - rewrite Hvc, (Hvt _ Hpc'), Z.eqb_refl.
    replace (from =? to) with false by (symmetry; apply Z.eqb_neq, Hne).
    simpl. rewrite !andb_true_r.
    destruct (decide (pc = pc')) as [<-|E].
    + rewrite !bool_decide_eq_true_2; reflexivity.
    + rewrite (bool_decide_eq_false_2 _ E).
      apply not_true_is_false. rewrite andb_true_iff, !bool_decide_eq_true.
      intros [Hc Ht]. apply E, piece_eq; assumption.
  - replace (to =? t) with false by (symmetry; apply Z.eqb_neq, Hnt).
    rewrite !xorb_false_r.
    destruct (decide (from = t)) as [<-|Hnf].
    + rewrite (consistent_color_bit _ _ _ Hsq), (consistent_type_bit _ _ _ Hsq Hpc'), Hon.
      rewrite Z.eqb_refl, !andb_true_r.
      rewrite (bool_decide_eq_true_2 (pc <> NO_PIECE))
        by (apply real_piece_not_NO_PIECE, Hpc).
      simpl. destruct (bool_decide (color_of pc = color_of pc')); reflexivity.
    + replace (from =? t) with false by (symmetry; apply Z.eqb_neq, Hnf).
      rewrite !andb_false_r, !xorb_false_r. rewrite Z.land_spec. reflexivity.
Qed.

(** *** The slots after each helper *)

Lemma index_put_piece pc s pos t :
  index (put_piece pc s pos) t = if decide (s = t) then pieceCount pos pc else index pos t.
Proof. unfold put_piece; simpl; unfold insert, fn_insert. reflexivity. Qed.

Lemma pieceList_put_piece pc s pos pc' i :
  pieceList (put_piece pc s pos) pc' i
  = if decide (pc = pc')
    then if decide (pieceCount pos pc = i) then s else pieceList pos pc i
    else pieceList pos pc' i.
Proof.
  unfold put_piece; simpl; unfold insert, fn_insert.
  destruct (decide (s = s)) as [_|E]; [|congruence].
  destruct (decide (pc = pc')) as [<-|_]; reflexivity.
Qed.

Lemma index_remove_piece pc s pos t :
  index (remove_piece pc s pos) t
  = if decide (pieceList pos pc (pieceCount pos pc - 1) = t) then index pos s
    else index pos t.
Proof.
  unfold remove_piece; simpl; unfold insert, fn_insert.
  destruct (decide (pc = pc)) as [_|E]; [|congruence]. reflexivity.
Qed.

Lemma pieceList_remove_piece pc s pos pc' i :
  pieceList (remove_piece pc s pos) pc' i
  = if decide (pc = pc')
    then if decide (pieceCount pos pc - 1 = i) then SQ_NONE
         else if decide (index pos s = i) then pieceList pos pc (pieceCount pos pc - 1)
         else pieceList pos pc i
    else pieceList pos pc' i.
Proof.
  unfold remove_piece; simpl; unfold insert, fn_insert.
  destruct (decide (pc = pc)) as [_|E]; [|congruence].
  destruct (decide (pieceList pos pc (pieceCount pos pc - 1)
                    = pieceList pos pc (pieceCount pos pc - 1))) as [_|E]; [|congruence].
  destruct (decide (pc = pc')) as [<-|_]; reflexivity.
Qed.

Lemma index_move_piece pc from to pos t :
  index (move_piece pc from to pos) t
  = if decide (to = t) then index pos from else index pos t.
Proof. unfold move_piece; simpl; unfold insert, fn_insert. reflexivity. Qed.

Lemma pieceList_move_piece pc from to pos pc' i :
  pieceList (move_piece pc from to pos) pc' i
  = if decide (pc = pc')
    then if decide (index pos from = i) then to else pieceList pos pc i
    else pieceList pos pc' i.
Proof.
  unfold move_piece; simpl; unfold insert, fn_insert.
  destruct (decide (to = to)) as [_|E]; [|congruence].
  destruct (decide (pc = pc')) as [<-|_]; reflexivity.
Qed.

Lemma pieceCount_move_piece pc from to pos : 
  pieceCount (move_piece pc from to pos) = pieceCount pos.
Proof. reflexivity. Qed.

End PieceLists.
Section PieceListsKept.
Context `{BG : BoardGeometry}.

Ltac split_ok := split; [|split; [|split]].

Lemma put_piece_lists pc s pos :
  0 <= s -> type_of pc <> ALL_PIECES -> square_vacated pos s ->
  piece_lists_ok pos -> piece_lists_ok (put_piece pc s pos).
Proof.
  intros Hs Hpc Hvac Hok pc' Hpc'.
  destruct (Hok pc' Hpc') as (Hn & Hsl & Hls & Hterm).
  unfold piece_list_ok. rewrite put_piece_pieceCount by exact Hpc'. unfold indicator.
  destruct (decide (pc = pc')) as [<-|Hother].
  - split_ok.
    + lia.
    + intros t Ht. rewrite listed_put_piece, index_put_piece, pieceList_put_piece by assumption.
      destruct (decide (pc = pc)) as [_|E]; [|congruence].
      destruct (decide (s = t)) as [<-|Hne]; intros Hl.
      * split; [lia|]. destruct (decide (pieceCount pos pc = pieceCount pos pc)); congruence.
      * destruct (Hsl t Ht Hl) as [Hi Hsame]. split; [lia|].
        destruct (decide (pieceCount pos pc = index pos t)); [lia | exact Hsame].
    + intros i Hi. rewrite pieceList_put_piece.
      destruct (decide (pc = pc)) as [_|E]; [|congruence].
      destruct (decide (pieceCount pos pc = i)) as [<-|Hne].
      * rewrite listed_put_piece, index_put_piece by assumption.
        destruct (decide (s = s)) as [_|E]; [|congruence].
        split; [exact Hs|]. split; [apply bool_decide_eq_true_2; reflexivity | reflexivity].
      * destruct (Hls i ltac:(lia)) as (Ht & Hl & Hidx).
        rewrite listed_put_piece, index_put_piece by assumption.
        destruct (decide (s = pieceList pos pc i)) as [E|_].
        -- rewrite <- E, (listed_vacated _ _ _ Hvac) in Hl. discriminate Hl.
        -- auto.
    + intros i Hi. rewrite pieceList_put_piece.
      destruct (decide (pc = pc)) as [_|E]; [|congruence].
      destruct (decide (pieceCount pos pc = i)); [lia|]. apply Hterm. lia.
  - rewrite Z.add_0_r. split_ok.
    + exact Hn.
    + intros t Ht. rewrite listed_put_piece, index_put_piece, pieceList_put_piece by assumption.
      destruct (decide (pc = pc')) as [E|_]; [congruence|].
      destruct (decide (s = t)) as [<-|Hne]; intros Hl.
      * rewrite (bool_decide_eq_false_2 _ Hother) in Hl. discriminate Hl.
      * apply Hsl; assumption.
    + intros i Hi. rewrite pieceList_put_piece.
      destruct (decide (pc = pc')) as [E|_]; [congruence|].
      destruct (Hls i Hi) as (Ht & Hl & Hidx).
      rewrite listed_put_piece, index_put_piece by assumption.
      destruct (decide (s = pieceList pos pc' i)) as [E|_].
      * rewrite <- E, (listed_vacated _ _ _ Hvac) in Hl. discriminate Hl.
      * auto.
    + intros i Hi. rewrite pieceList_put_piece.
      destruct (decide (pc = pc')) as [E|_]; [congruence|]. apply Hterm, Hi.
Qed.

Lemma consistent_but_listings_apart hole pos :
  consistent_but hole pos -> listings_apart pos.
Proof.
  intros (_ & Hvac & Hsq) t pc1 pc2 Ht H1 H2 L1 L2.
  destruct (decide (t = hole)) as [->|Hne].
  - rewrite (listed_vacated _ _ _ Hvac) in L1. discriminate L1.
  - rewrite (listed_consistent _ _ _ (Hsq t Ht Hne)) in L1 by assumption.
    rewrite (listed_consistent _ _ _ (Hsq t Ht Hne)) in L2 by assumption.
    apply bool_decide_eq_true in L1, L2. congruence.
Qed.

Lemma consistent_listings_apart pos : consistent pos -> listings_apart pos.
Proof.
  intros [_ Hsq] t pc1 pc2 Ht H1 H2 L1 L2.
  rewrite (listed_consistent _ _ _ (Hsq t Ht)) in L1 by assumption.
  rewrite (listed_consistent _ _ _ (Hsq t Ht)) in L2 by assumption.
  apply bool_decide_eq_true in L1, L2. congruence.
Qed.

Lemma remove_piece_lists pc s pos :
  0 <= s -> type_of pc <> ALL_PIECES -> board pos s = pc -> consistent pos ->
  piece_lists_ok pos -> piece_lists_ok (remove_piece pc s pos).
Proof.
  intros Hs Hpc Hon Hcons Hok pc' Hpc'.
  pose proof (consistent_listings_apart _ Hcons) as Hapart.
  destruct Hcons as [_ Hsq].
  assert (Hls0 : listed pos pc s = true).
  { rewrite (listed_consistent _ _ _ (Hsq s Hs) Hpc). apply bool_decide_eq_true_2, Hon. }
  destruct (Hok pc Hpc) as (Hn0 & Hsl0 & Hlist0 & Hterm0).
  destruct (Hsl0 s Hs Hls0) as [Hk Hks].
  set (n := pieceCount pos pc) in *. set (k := index pos s) in *.
  destruct (Hlist0 (n - 1) ltac:(lia)) as (Hlast & Hlastl & Hlasti).
  set (last := pieceList pos pc (n - 1)) in *.
  assert (Hlast_s : last = s <-> k = n - 1).
  { split; [intros E; rewrite E in Hlasti; exact Hlasti | intros E; unfold last; rewrite <- E; exact Hks]. }
  destruct (Hok pc' Hpc') as (Hn & Hsl & Hls & Hterm).
  unfold piece_list_ok. rewrite remove_piece_pieceCount by exact Hpc'. unfold indicator.
  destruct (decide (pc = pc')) as [<-|Hother].
  - fold n. split_ok.
    + lia.
    + intros t Ht.
      rewrite (listed_remove_piece pc s pos pc t Hs Hpc Hpc (Hsq s Hs) Hon).
      rewrite index_remove_piece, pieceList_remove_piece. fold n k last.
      destruct (decide (pc = pc)) as [_|E]; [|congruence].
      destruct (decide (s = t)) as [<-|Hne]; [discriminate|]. intros Hl.
      destruct (Hsl0 t Ht Hl) as [Hj Hjs].
      destruct (decide (last = t)) as [Elast|Hnl].
      * assert (k <> n - 1) by (intros E; apply Hlast_s in E; congruence).
        split; [lia|].
        destruct (decide (n - 1 = k)); [lia|].
        destruct (decide (k = k)); congruence.
      * assert (index pos t <> n - 1).
        { intros E. apply Hnl. unfold last. rewrite <- E. exact Hjs. }
        assert (index pos t <> k).
        { intros E. apply Hne. rewrite <- Hks, <- Hjs. unfold k. rewrite E. reflexivity. }
        split; [lia|].
        destruct (decide (n - 1 = index pos t)); [congruence|].
        destruct (decide (k = index pos t)); [congruence|]. exact Hjs.
    + intros i Hi. rewrite pieceList_remove_piece. fold n k last.
      destruct (decide (pc = pc)) as [_|E]; [|congruence].
      destruct (decide (n - 1 = i)); [lia|].
      destruct (decide (k = i)) as [Eki|Hki].
      * assert (last <> s) by (intros E; apply Hlast_s in E; lia).
        rewrite (listed_remove_piece pc s pos pc last Hs Hpc Hpc (Hsq s Hs) Hon).
        rewrite index_remove_piece. fold n k last.
        destruct (decide (s = last)); [congruence|].
        destruct (decide (last = last)); [|congruence].
        split; [exact Hlast|]. split; [exact Hlastl | exact Eki].
      * destruct (Hlist0 i ltac:(lia)) as (Ht & Hl & Hidx).
        rewrite (listed_remove_piece pc s pos pc _ Hs Hpc Hpc (Hsq s Hs) Hon).
        rewrite index_remove_piece. fold n k last.
        destruct (decide (s = pieceList pos pc i)) as [E|_].
        { exfalso. apply Hki. unfold k. rewrite E. exact Hidx. }
        destruct (decide (last = pieceList pos pc i)) as [E|_].
        { exfalso. rewrite <- E in Hidx. lia. }
        auto.
    + intros i Hi. rewrite pieceList_remove_piece. fold n k last.
      destruct (decide (pc = pc)) as [_|E]; [|congruence].
      destruct (decide (n - 1 = i)); [reflexivity|].
      destruct (decide (k = i)); [lia|]. apply Hterm0. lia.
  - rewrite Z.sub_0_r.
    assert (Hkeep : forall t, 0 <= t -> listed pos pc' t = true ->
                    listed (remove_piece pc s pos) pc' t = true
                    /\ index (remove_piece pc s pos) t = index pos t).
    { intros t Ht Hl.
      rewrite (listed_remove_piece pc s pos pc' t Hs Hpc Hpc' (Hsq s Hs) Hon).
      rewrite index_remove_piece. fold n last.
      destruct (decide (s = t)) as [<-|_].
      { exfalso. apply Hother. exact (Hapart s pc pc' Hs Hpc Hpc' Hls0 Hl). }
      destruct (decide (last = t)) as [<-|_].
      { exfalso. apply Hother. exact (Hapart last pc pc' Hlast Hpc Hpc' Hlastl Hl). }
      auto. }
    split_ok.
    + exact Hn.
    + intros t Ht.
      rewrite (listed_remove_piece pc s pos pc' t Hs Hpc Hpc' (Hsq s Hs) Hon).
      destruct (decide (s = t)) as [<-|Hne]; [discriminate|]. intros Hl.
      destruct (Hkeep t Ht Hl) as [_ ->]. rewrite pieceList_remove_piece.
      destruct (decide (pc = pc')) as [E|_]; [congruence|]. apply Hsl; assumption.
    + intros i Hi. rewrite pieceList_remove_piece.
      destruct (decide (pc = pc')) as [E|_]; [congruence|].
      destruct (Hls i Hi) as (Ht & Hl & Hidx).
      destruct (Hkeep _ Ht Hl) as [-> ->]. auto.
    + intros i Hi. rewrite pieceList_remove_piece.
      destruct (decide (pc = pc')) as [E|_]; [congruence|]. apply Hterm, Hi.
Qed.

End PieceListsKept.
Section PieceListsMoved.
Context `{BG : BoardGeometry}.

Ltac split_ok := split; [|split; [|split]].

Ltac list_fields :=
  lazy beta zeta iota delta
    [byTypeBB byColorBB pieceCount pieceList index
     with_board with_pieceCountInHand add_to_hand remove_from_hand
     drop_piece undrop_piece];
  reflexivity.

Lemma move_piece_lists pc from to pos :
  0 <= from -> 0 <= to -> from <> to -> type_of pc <> ALL_PIECES ->
  board pos from = pc -> consistent_but to pos ->
  piece_lists_ok pos -> piece_lists_ok (move_piece pc from to pos).
Proof.
  intros Hfrom Hto Hne Hpc Hon Hcons Hok pc' Hpc'.
  pose proof (consistent_but_listings_apart _ _ Hcons) as Hapart.
  destruct Hcons as (_ & Hvac & Hsq).
  pose proof (Hsq from Hfrom Hne) as Hsqf.
  assert (Hlf : listed pos pc from = true).
  { rewrite (listed_consistent _ _ _ Hsqf Hpc). apply bool_decide_eq_true_2, Hon. }
  destruct (Hok pc Hpc) as (Hn0 & Hsl0 & Hlist0 & Hterm0).
  destruct (Hsl0 from Hfrom Hlf) as [Hk Hks].
  set (k := index pos from) in *.
  destruct (Hok pc' Hpc') as (Hn & Hsl & Hls & Hterm).
  assert (Hlisted : forall t,
            listed (move_piece pc from to pos) pc' t
            = if decide (to = t) then bool_decide (pc = pc')
              else if decide (from = t) then false else listed pos pc' t).
  { intros t. apply listed_move_piece; assumption. }
  unfold piece_list_ok. rewrite pieceCount_move_piece.
  destruct (decide (pc = pc')) as [<-|Hother].
  - split_ok.
    + exact Hn0.
    + intros t Ht. rewrite Hlisted, index_move_piece, pieceList_move_piece. fold k.
      destruct (decide (pc = pc)) as [_|E]; [|congruence].
      destruct (decide (to = t)) as [<-|Hnt].
      * intros _. split; [exact Hk|]. destruct (decide (k = k)); congruence.
      * destruct (decide (from = t)) as [<-|Hnf]; [discriminate|]. intros Hl.
        destruct (Hsl0 t Ht Hl) as [Hj Hjs]. split; [exact Hj|].
        destruct (decide (k = index pos t)) as [E|_]; [|exact Hjs].
        exfalso. apply Hnf. rewrite <- Hks, <- Hjs, E. reflexivity.
    + intros i Hi. rewrite pieceList_move_piece. fold k.
      destruct (decide (pc = pc)) as [_|E]; [|congruence].
      destruct (decide (k = i)) as [Eki|Hki].
      * rewrite Hlisted, index_move_piece. fold k.
        destruct (decide (to = to)) as [_|E]; [|congruence].
        split; [exact Hto|]. split; [apply bool_decide_eq_true_2; reflexivity | exact Eki].
      * destruct (Hlist0 i Hi) as (Ht & Hl & Hidx).
        rewrite Hlisted, index_move_piece.
        destruct (decide (to = pieceList pos pc i)) as [E|_].
        { rewrite <- E, (listed_vacated _ _ _ Hvac) in Hl. discriminate Hl. }
        destruct (decide (from = pieceList pos pc i)) as [E|_].
        { exfalso. apply Hki. unfold k. rewrite E. exact Hidx. }
        auto.
    + intros i Hi. rewrite pieceList_move_piece. fold k.
      destruct (decide (pc = pc)) as [_|E]; [|congruence].
      destruct (decide (k = i)); [lia|]. apply Hterm0, Hi.
  - assert (Hkeep : forall t, 0 <= t -> listed pos pc' t = true ->
                    listed (move_piece pc from to pos) pc' t = true
                    /\ index (move_piece pc from to pos) t = index pos t).
    { intros t Ht Hl. rewrite Hlisted, index_move_piece.
      destruct (decide (to = t)) as [<-|_].
      { rewrite (listed_vacated _ _ _ Hvac) in Hl. discriminate Hl. }
      destruct (decide (from = t)) as [<-|_].
      { exfalso. apply Hother. exact (Hapart from pc pc' Hfrom Hpc Hpc' Hlf Hl). }
      auto. }
    split_ok.
    + exact Hn.
    + intros t Ht. rewrite Hlisted.
      destruct (decide (to = t)) as [<-|Hnt].
      { rewrite (bool_decide_eq_false_2 _ Hother). discriminate. }
      destruct (decide (from = t)) as [<-|Hnf]; [discriminate|]. intros Hl.
      destruct (Hkeep t Ht Hl) as [_ ->]. rewrite pieceList_move_piece.
      destruct (decide (pc = pc')) as [E|_]; [congruence|]. apply Hsl; assumption.
    + intros i Hi. rewrite pieceList_move_piece.
      destruct (decide (pc = pc')) as [E|_]; [congruence|].
      destruct (Hls i Hi) as (Ht & Hl & Hidx).
      destruct (Hkeep _ Ht Hl) as [-> ->]. auto.
    + intros i Hi. rewrite pieceList_move_piece.
      destruct (decide (pc = pc')) as [E|_]; [congruence|]. apply Hterm, Hi.
Qed.

(** The piece lists do not look at the square map or at the hands. *)
Lemma piece_lists_ok_ext pos pos' :
  byTypeBB pos = byTypeBB pos' -> byColorBB pos = byColorBB pos' ->
  pieceCount pos = pieceCount pos' -> pieceList pos = pieceList pos' ->
  index pos = index pos' ->
  piece_lists_ok pos -> piece_lists_ok pos'.
Proof.
  unfold piece_lists_ok, piece_list_ok, listed, pieces_of.
  intros <- <- <- <- <-. exact (fun h => h).
Qed.

Lemma placement_step_lists pos pos' :
  placement_step pos pos' -> consistent pos ->
  piece_lists_ok pos -> piece_lists_ok pos'.
Proof.
  intros Hstep Hcons Hok. destruct Hstep.
  - apply put_piece_lists; auto.
    apply (consistent_is_consistent_but pos s); assumption.
  - apply move_piece_lists; auto using consistent_is_consistent_but.
  - apply (piece_lists_ok_ext (put_piece pc s pos)); [unfold drop_piece; list_fields ..|].
    apply put_piece_lists; auto.
    apply (consistent_is_consistent_but pos s); assumption.
  - apply (piece_lists_ok_ext (remove_piece pc s pos));
      [unfold undrop_piece; list_fields ..|].
    apply remove_piece_lists; auto.
  - apply (piece_lists_ok_ext (remove_piece pc s pos)); [list_fields ..|].
    apply remove_piece_lists; auto.
  - apply move_piece_lists; auto.
    + apply remove_piece_vacates; auto.
    + apply remove_piece_lists; auto.
  - apply put_piece_lists; auto.
    + apply (remove_piece_vacates old s pos); auto.
    + apply remove_piece_lists; auto.
Qed.

End PieceListsMoved.
Section PieceListsRead.
Context `{BG : BoardGeometry}.

Lemma piece_lists_ok_agree pos :
  consistent pos -> (piece_lists_ok pos <-> piece_lists_agree pos).
Proof.
  intros [_ Hsq].
  assert (Hl : forall pc t, 0 <= t -> type_of pc <> ALL_PIECES ->
                 (listed pos pc t = true <-> board pos t = pc)).
  { intros pc t Ht Hpc. rewrite (listed_consistent _ _ _ (Hsq t Ht) Hpc).
    apply bool_decide_eq_true. }
  split; intros Hok pc Hpc; destruct (Hok pc Hpc) as (Hn & Hsl & Hls & Hterm);
    (split; [exact Hn|]; split; [|split; [|exact Hterm]]).
  - intros s Hs Hon. apply Hsl; [exact Hs|]. apply Hl; assumption.
  - intros i Hi. destruct (Hls i Hi) as (Ht & Hlisted & Hidx).
    split; [exact Ht|]. split; [|exact Hidx]. apply Hl; assumption.
  - intros s Hs Hlisted. apply Hsl; [exact Hs|]. apply Hl; assumption.
  - intros i Hi. destruct (Hls i Hi) as (Ht & Hon & Hidx).
    split; [exact Ht|]. split; [|exact Hidx]. apply Hl; assumption.
Qed.

Lemma placement_reachable_consistent pos pos' :
  consistent pos -> placement_reachable pos pos' -> consistent pos'.
Proof.
  intros Hcons Hreach. induction Hreach as [|mid pos' _ IH Hstep]; [exact Hcons|].
  exact (placement_step_consistent mid pos' Hstep IH).
Qed.

Lemma placement_reachable_lists pos pos' :
  consistent pos -> piece_lists_ok pos -> placement_reachable pos pos' ->
  piece_lists_ok pos'.
Proof.
  intros Hcons Hok Hreach. induction Hreach as [|mid pos' Hmid IH Hstep]; [exact Hok|].
  apply (placement_step_lists mid pos' Hstep); [|exact IH].
  exact (placement_reachable_consistent pos mid Hcons Hmid).
Qed.

(** X1: the piece lists follow the board through the placement helpers,
    within the capacity of the rows. From a consistent position whose lists
    agree with the square map and where no piece identity has more than 16
    pieces, every position reached by [put_piece], [move_piece],
    [drop_piece], [undrop_piece] and [remove_piece] (with the board write
    that follows it), no step leaving a piece identity with more than 16
    pieces, has, for every piece [pc]: each square holding [pc] at the slot
    [index[s]] of [pieceList[pc]], below [pieceCount[pc]]; each slot below
    [pieceCount[pc]] holding a square of a [pc], with [index] pointing back;
    [SQ_NONE] in every slot of the row from [pieceCount[pc]] on; and at most
    16 pieces [pc]. *)
Theorem piece_lists_follow_board pos pos' :
  consistent pos -> piece_lists_agree pos -> within_capacity pos ->
  placement_reachable_within pos pos' ->
  piece_lists_agree pos' /\ within_capacity pos'.
Proof.
  intros Hcons Hagree Hcap Hreach.
  assert (Hplain : placement_reachable pos pos').
  { induction Hreach as [|mid pos' _ IH Hstep _]; [apply reach_here|].
    exact (reach_step pos mid pos' IH Hstep). }
  split.
  - apply piece_lists_ok_agree.
    + exact (placement_reachable_consistent pos pos' Hcons Hplain).
    + apply (placement_reachable_lists pos pos' Hcons); [|exact Hplain].
      apply piece_lists_ok_agree; assumption.
  - destruct Hreach; assumption.
Qed.

(** X2: [square<Pt>(c)] under its assertion. When the lists agree with the
    square map and there is exactly one piece [(c, Pt)], [square<Pt>(c)] is
    the square it stands on, and no other square holds such a piece. *)
Theorem square_of_single_piece pos c pt :
  piece_lists_agree pos -> pt <> ALL_PIECES ->
  pieceCount pos (make_piece c pt) = 1 ->
  0 <= square pos pt c
  /\ piece_on pos (square pos pt c) = make_piece c pt
  /\ (forall s, 0 <= s -> piece_on pos s = make_piece c pt -> s = square pos pt c).
Proof.
  intros Hagree Hpt Hone.
  destruct (Hagree (make_piece c pt) Hpt) as (_ & Hsl & Hls & _).
  rewrite Hone in Hsl, Hls. unfold square, piece_on.
  destruct (Hls 0 ltac:(lia)) as (H0 & Hon & _).
  split; [exact H0|]. split; [exact Hon|].
  intros s Hs Hs_on. destruct (Hsl s Hs Hs_on) as [Hi Hslot].
  replace (index pos s) with 0 in Hslot by lia. congruence.
Qed.

(** X3: the warning in [remove_piece]. Taking a piece off its square and
    putting it back restores the count and all bitboards, but the square
    comes back in the last slot of its list: the list is as before exactly
    when the square was in the last slot already. *)
Theorem remove_then_put_reorders pos pc s :
  consistent pos -> piece_lists_agree pos ->
  0 <= s -> type_of pc <> ALL_PIECES -> piece_on pos s = pc ->
  let pos' := put_piece pc s (remove_piece pc s pos) in
  pieceCount pos' pc = pieceCount pos pc
  /\ (forall pt, byTypeBB pos' pt = byTypeBB pos pt)
  /\ (forall c, byColorBB pos' c = byColorBB pos c)
  /\ index pos' s = pieceCount pos pc - 1
  /\ pieceList pos' pc (pieceCount pos pc - 1) = s
  /\ ((forall i, pieceList pos' pc i = pieceList pos pc i)
      <-> index pos s = pieceCount pos pc - 1).
Proof.
  intros Hcons Hagree Hs Hpc Hon pos'. unfold piece_on in Hon.
  destruct (Hagree pc Hpc) as (Hn & Hsl & Hls & _).
  destruct (Hsl s Hs Hon) as [Hk Hks].
  destruct (Hls (pieceCount pos pc - 1) ltac:(lia)) as (_ & _ & Hlasti).
  assert (Hcons' : consistent pos').
  { apply put_piece_fills; [exact Hs | exact Hpc |].
    apply remove_piece_vacates; assumption. }
  assert (Hboard : forall t, 0 <= t -> board pos' t = board pos t).
  { intros t _. unfold pos'. rewrite board_put_piece, board_remove_piece.
    destruct (decide (s = t)) as [<-|_]; congruence. }
  destruct (consistent_bitboards_determined pos' pos Hcons' Hcons Hboard) as [Hc Ht].
  assert (Hcount : pieceCount (remove_piece pc s pos) pc = pieceCount pos pc - 1).
  { rewrite remove_piece_pieceCount by exact Hpc. unfold indicator.
    destruct (decide (pc = pc)); [reflexivity | congruence]. }
  assert (Hlist : forall i, pieceList pos' pc i
            = if decide (pieceCount pos pc - 1 = i) then s
              else if decide (index pos s = i)
                   then pieceList pos pc (pieceCount pos pc - 1)
                   else pieceList pos pc i).
  { intros i. unfold pos'. rewrite pieceList_put_piece, Hcount, pieceList_remove_piece.
    destruct (decide (pc = pc)) as [_|E]; [|congruence].
    destruct (decide (pieceCount pos pc - 1 = i)); reflexivity. }
  split.
  { unfold pos'. rewrite put_piece_pieceCount, Hcount by exact Hpc. unfold indicator.
    destruct (decide (pc = pc)); [lia | congruence]. }
  split; [exact Ht|]. split; [exact Hc|]. split.
  { unfold pos'. rewrite index_put_piece, Hcount.
    destruct (decide (s = s)); [reflexivity | congruence]. }
  split.
  { rewrite Hlist. destruct (decide (pieceCount pos pc - 1 = pieceCount pos pc - 1));
      [reflexivity | congruence]. }
  split.
  - intros Hsame. specialize (Hsame (pieceCount pos pc - 1)). rewrite Hlist in Hsame.
    destruct (decide (pieceCount pos pc - 1 = pieceCount pos pc - 1)); [|congruence].
    rewrite <- Hsame in Hlasti. exact Hlasti.
  - intros Hlast i. rewrite Hlist.
    destruct (decide (pieceCount pos pc - 1 = i)) as [<-|Hne].
    + rewrite <- Hlast. exact (eq_sym Hks).
    + destruct (decide (index pos s = i)); [lia | reflexivity].
Qed.

End PieceListsRead.
(** *** The piece lists of sample positions *)

Lemma empty_position_lists v us :
  piece_lists_agree (BG := chess_geometry) (empty_position v us).
Proof.
  intros pc Hpc. simpl. split; [lia|]. split; [|split].
  - intros s _ Hon. exfalso. apply Hpc. rewrite <- Hon. reflexivity.
  - intros i Hi. lia.
  - intros i _. reflexivity.
Qed.

Lemma built_from_empty v us pos :
  placement_reachable (BG := chess_geometry) (empty_position v us) pos ->
  consistent pos /\ piece_lists_agree (BG := chess_geometry) pos.
Proof.
  intros Hreach.
  pose proof (placement_reachable_consistent _ _ (empty_position_consistent v us) Hreach)
    as Hcons.
  split; [exact Hcons|].
  apply (piece_lists_ok_agree (BG := chess_geometry) pos Hcons).
  apply (placement_reachable_lists (BG := chess_geometry) (empty_position v us));
    [apply empty_position_consistent | | exact Hreach].
  apply piece_lists_ok_agree;
    [apply empty_position_consistent | apply empty_position_lists].
Qed.

Lemma lone_white_king_built v us :
  placement_reachable (BG := chess_geometry) (empty_position v us) (lone_white_king v us).
Proof.
  eapply reach_step; [eapply reach_step; [eapply reach_step|]|].
  - apply reach_here.
  - apply (step_put W_KING 4); [lia | discriminate | reflexivity].
  - apply (step_put B_KING 60); [lia | discriminate | reflexivity].
  - apply (step_put B_KNIGHT 57); [lia | discriminate | reflexivity].
Qed.

Lemma two_pawns_built :
  placement_reachable (BG := chess_geometry) (empty_position no_rules WHITE) two_pawns.
Proof.
  eapply reach_step; [eapply reach_step|].
  - apply reach_here.
  - apply (step_put W_PAWN 8); [lia | discriminate | reflexivity].
  - apply (step_put W_PAWN 9); [lia | discriminate | reflexivity].
Qed.

(** The counts of a sample position are within capacity. *)
Ltac capacity := intros [[] []] _; vm_compute; discriminate.

Lemma lone_white_king_built_within v us :
  placement_reachable_within (BG := chess_geometry) (empty_position v us)
    (lone_white_king v us).
Proof.
  eapply within_step; [eapply within_step; [eapply within_step|..]|..].
  - apply within_here.
  - apply (step_put W_KING 4); [lia | discriminate | reflexivity].
  - capacity.
  - apply (step_put B_KING 60); [lia | discriminate | reflexivity].
  - capacity.
  - apply (step_put B_KNIGHT 57); [lia | discriminate | reflexivity].
  - capacity.
Qed.

Lemma piece_lists_follow_board_witness :
  let pos' :=
    move_piece W_KING 4 57
      (remove_piece (BG := chess_geometry) B_KNIGHT 57 (lone_white_king no_rules WHITE)) in
  piece_lists_agree (BG := chess_geometry) pos' /\ within_capacity pos'.
Proof.
  apply (piece_lists_follow_board (BG := chess_geometry) (empty_position no_rules WHITE)).
  - apply empty_position_consistent.
  - apply empty_position_lists.
  - capacity.
  - eapply within_step; [apply lone_white_king_built_within | |].
    + apply (step_capture B_KNIGHT W_KING 4 57); solve [lia | discriminate | reflexivity].
    + capacity.
Defined.

Lemma square_of_single_piece_witness :
  0 <= square (lone_white_king no_rules WHITE) KING BLACK
  /\ piece_on (lone_white_king no_rules WHITE)
       (square (lone_white_king no_rules WHITE) KING BLACK) = B_KING
  /\ (forall s, 0 <= s -> piece_on (lone_white_king no_rules WHITE) s = B_KING ->
        s = square (lone_white_king no_rules WHITE) KING BLACK).
Proof.
  apply (square_of_single_piece (BG := chess_geometry) (lone_white_king no_rules WHITE)
           BLACK KING).
  - apply (built_from_empty no_rules WHITE), lone_white_king_built.
  - discriminate.
  - reflexivity.
Defined.

(** The pawns of [two_pawns] swap their slots when the one on a2 is taken
    off and put back. *)
Example two_pawns_swap_slots :
  let pos' := put_piece W_PAWN 8 (remove_piece (BG := chess_geometry) W_PAWN 8 two_pawns) in
  (pieceList two_pawns W_PAWN 0, pieceList two_pawns W_PAWN 1) = (8, 9)
  /\ (pieceList pos' W_PAWN 0, pieceList pos' W_PAWN 1) = (9, 8).
Proof. split; reflexivity. Qed.

Lemma remove_then_put_reorders_witness :
  let pos' := put_piece W_PAWN 8 (remove_piece (BG := chess_geometry) W_PAWN 8 two_pawns) in
  pieceCount pos' W_PAWN = pieceCount two_pawns W_PAWN
  /\ (forall pt, byTypeBB pos' pt = byTypeBB two_pawns pt)
  /\ (forall c, byColorBB pos' c = byColorBB two_pawns c)
  /\ index pos' 8 = pieceCount two_pawns W_PAWN - 1
  /\ pieceList pos' W_PAWN (pieceCount two_pawns W_PAWN - 1) = 8
  /\ ((forall i, pieceList pos' W_PAWN i = pieceList two_pawns W_PAWN i)
      <-> index two_pawns 8 = pieceCount two_pawns W_PAWN - 1).
Proof.
  apply (remove_then_put_reorders (BG := chess_geometry) two_pawns W_PAWN 8).
  - apply (built_from_empty no_rules WHITE), two_pawns_built.
  - apply (built_from_empty no_rules WHITE), two_pawns_built.
  - lia.
  - discriminate.
  - reflexivity.
Defined.
(** ** Counts and population counts *)

Lemma popcount_pos_positive p : 0 < popcount_pos p.
Proof. induction p; simpl; lia. Qed.

Lemma popcount_nonneg b : 0 <= popcount b.
Proof. destruct b; simpl; try lia. pose proof (popcount_pos_positive p). lia. Qed.

Lemma popcount_zero b : 0 <= b -> popcount b = 0 -> b = 0.
Proof.
  intros Hb Hz. destruct b as [|p|p]; [reflexivity | | lia].
  simpl in Hz. pose proof (popcount_pos_positive p). lia.
Qed.

Lemma popcount_clear_bit s b :
  0 <= s -> 0 <= b -> Z.testbit b s = true ->
  popcount (Z.lxor b (SquareBB s)) = popcount b - 1.
Proof.
  intros Hs Hb Hbit.
  assert (Hnn : 0 <= Z.lxor b (SquareBB s)).
  { apply Z.lxor_nonneg. pose proof (SquareBB_nonneg s). tauto. }
  assert (Hb' : b = Z.lor (Z.lxor b (SquareBB s)) (SquareBB s)).
  { apply Z.bits_inj'. intros n Hn. bits.
    destruct (Z.eqb_spec s n) as [<-|_]; [rewrite Hbit; reflexivity|].
    rewrite xorb_false_r, orb_false_r. reflexivity. }
  rewrite Hb' at 2. rewrite popcount_set_bit; [lia | exact Hs | exact Hnn |].
  bits. rewrite Hbit, Z.eqb_refl. reflexivity.
Qed.

Lemma popcount_move_bit from to b :
  0 <= from -> 0 <= to -> 0 <= b ->
  Z.testbit b from = true -> Z.testbit b to = false ->
  popcount (Z.lxor b (Z.lxor (SquareBB from) (SquareBB to))) = popcount b.
Proof.
  intros Hfrom Hto Hb Hf Ht.
  assert (Hne : from <> to) by congruence.
  assert (Hnn : 0 <= Z.lxor b (SquareBB from)).
  { apply Z.lxor_nonneg. pose proof (SquareBB_nonneg from). tauto. }
  assert (E : Z.lxor b (Z.lxor (SquareBB from) (SquareBB to))
              = Z.lor (Z.lxor b (SquareBB from)) (SquareBB to)).
  { apply Z.bits_inj'. intros n Hn. bits.
    destruct (Z.eqb_spec to n) as [<-|_].
    - rewrite Ht. replace (from =? to) with false by (symmetry; apply Z.eqb_neq, Hne).
      reflexivity.
    - rewrite !xorb_false_r, orb_false_r. reflexivity. }
  rewrite E, popcount_set_bit; [| exact Hto | exact Hnn |].
  - rewrite popcount_clear_bit by assumption. lia.
  - bits. rewrite Ht. replace (from =? to) with false by (symmetry; apply Z.eqb_neq, Hne).
    reflexivity.
Qed.

(** The set bits of [a] are those it shares with [b] and those it does not. *)
Lemma popcount_split a :
  0 <= a -> forall b, popcount a = popcount (Z.land a b) + popcount (Z.ldiff a b).
Proof.
  revert a.
  apply (Zlt_0_ind
           (fun a => forall b, popcount a = popcount (Z.land a b) + popcount (Z.ldiff a b))).
  intros a IH Hlow b. destruct (Z.eq_dec a 0) as [->|Hnz].
  - rewrite Z.land_0_l, Z.ldiff_0_l. reflexivity.
  - assert (Ha : 0 < a) by lia.
    assert (Hl : 0 <= Z.land a b) by (apply Z.land_nonneg; lia).
    assert (Hd : 0 <= Z.ldiff a b) by (apply Z.ldiff_nonneg; lia).
    rewrite (popcount_div2 a), (popcount_div2 (Z.land a b)), (popcount_div2 (Z.ldiff a b))
      by lia.
    rewrite !Z.div2_spec, Z.shiftr_land, Z.shiftr_ldiff.
    assert (Hhalf : 0 <= Z.shiftr a 1 < a).
    { rewrite <- Z.div2_spec, Z.div2_div. split; [apply Z.div_pos; lia|].
      apply Z.div_lt; lia. }
    rewrite (IH (Z.shiftr a 1) Hhalf (Z.shiftr b 1)).
    rewrite <- !Z.bit0_odd, Z.land_spec, Z.ldiff_spec.
    destruct (Z.testbit a 0), (Z.testbit b 0); simpl; lia.
Qed.

Section CountsMatch.
Context `{BG : BoardGeometry}.

Ltac insert_cases :=
  unfold insert, fn_insert;
  repeat match goal with
         | |- context [decide (?a = ?b)] => destruct (decide (a = b)); subst
         end;
  try congruence; try reflexivity.

Lemma put_piece_count_all pc s pos c :
  type_of pc <> ALL_PIECES ->
  pieceCount (put_piece pc s pos) (make_piece c ALL_PIECES)
  = pieceCount pos (make_piece c ALL_PIECES) + (if decide (color_of pc = c) then 1 else 0).
Proof.
  intros Hpc. unfold put_piece; simpl. unfold insert, fn_insert.
  destruct (decide (make_piece (color_of pc) ALL_PIECES = make_piece c ALL_PIECES)) as [E|E].
  - injection E as ->. destruct (decide (c = c)); [|congruence].
    destruct (decide (pc = make_piece c ALL_PIECES)) as [->|_]; [simpl in Hpc; congruence|].
    reflexivity.
  - destruct (decide (color_of pc = c)) as [<-|_]; [congruence|].
    destruct (decide (pc = make_piece c ALL_PIECES)) as [->|_]; [simpl in Hpc; congruence|].
    lia.
Qed.

Lemma remove_piece_count_all pc s pos c :
  type_of pc <> ALL_PIECES ->
  pieceCount (remove_piece pc s pos) (make_piece c ALL_PIECES)
  = pieceCount pos (make_piece c ALL_PIECES) - (if decide (color_of pc = c) then 1 else 0).
Proof.
  intros Hpc. unfold remove_piece; simpl. unfold insert, fn_insert.
  destruct (decide (make_piece (color_of pc) ALL_PIECES = make_piece c ALL_PIECES)) as [E|E].
  - injection E as ->. destruct (decide (c = c)); [|congruence].
    destruct (decide (pc = make_piece c ALL_PIECES)) as [->|_]; [simpl in Hpc; congruence|].
    reflexivity.
  - destruct (decide (color_of pc = c)) as [<-|_]; [congruence|].
    destruct (decide (pc = make_piece c ALL_PIECES)) as [->|_]; [simpl in Hpc; congruence|].
    lia.
Qed.

Lemma byColorBB_put_piece pc s pos c :
  byColorBB (put_piece pc s pos) c
  = if decide (color_of pc = c) then bb_or (byColorBB pos c) s else byColorBB pos c.
Proof. unfold put_piece; simpl. insert_cases. Qed.

Lemma byColorBB_remove_piece pc s pos c :
  byColorBB (remove_piece pc s pos) c
  = if decide (color_of pc = c) then bb_xor (byColorBB pos c) s else byColorBB pos c.
Proof. unfold remove_piece; simpl. insert_cases. Qed.

Lemma byColorBB_move_piece pc from to pos c :
  byColorBB (move_piece pc from to pos) c
  = if decide (color_of pc = c)
    then Z.lxor (byColorBB pos c) (Z.lxor (SquareBB from) (SquareBB to))
    else byColorBB pos c.
Proof. unfold move_piece; simpl. insert_cases. Qed.

Lemma make_piece_eta pc : make_piece (color_of pc) (type_of pc) = pc.
Proof. destruct pc; reflexivity. Qed.

Lemma pieces_of_listed pos c pt t :
  Z.testbit (pieces_of pos c pt) t = listed pos (make_piece c pt) t.
Proof. reflexivity. Qed.

Lemma pieces_of_put_piece pc s pos c pt :
  0 <= s -> type_of pc <> ALL_PIECES -> pt <> ALL_PIECES -> square_vacated pos s ->
  pieces_of (put_piece pc s pos) c pt
  = if decide (pc = make_piece c pt) then bb_or (pieces_of pos c pt) s
    else pieces_of pos c pt.
Proof.
  intros Hs Hpc Hpt Hvac. apply Z.bits_inj'. intros n Hn.
  rewrite pieces_of_listed, listed_put_piece by assumption.
  destruct (decide (pc = make_piece c pt)) as [E|E].
  - unfold bb_or. bits. rewrite pieces_of_listed, (bool_decide_eq_true_2 _ E).
    destruct (decide (s = n)) as [<-|Hne].
    + rewrite Z.eqb_refl, orb_true_r. reflexivity.
    + replace (s =? n) with false by (symmetry; apply Z.eqb_neq, Hne).
      rewrite orb_false_r. reflexivity.
  - rewrite (bool_decide_eq_false_2 _ E), pieces_of_listed.
    destruct (decide (s = n)) as [<-|Hne]; [|reflexivity].
    symmetry. apply listed_vacated, Hvac.
Qed.

Lemma pieces_of_remove_piece pc s pos c pt :
  0 <= s -> type_of pc <> ALL_PIECES -> pt <> ALL_PIECES ->
  square_consistent pos s -> board pos s = pc ->
  pieces_of (remove_piece pc s pos) c pt
  = if decide (pc = make_piece c pt) then bb_xor (pieces_of pos c pt) s
    else pieces_of pos c pt.
Proof.
  intros Hs Hpc Hpt Hsq Hon. apply Z.bits_inj'. intros n Hn.
  rewrite pieces_of_listed, (listed_remove_piece pc s pos (make_piece c pt) n Hs Hpc Hpt Hsq Hon).
  assert (Hl : listed pos (make_piece c pt) s = bool_decide (pc = make_piece c pt)).
  { rewrite (listed_consistent pos (make_piece c pt) _ Hsq Hpt), Hon. reflexivity. }
  destruct (decide (pc = make_piece c pt)) as [E|E].
  - unfold bb_xor. bits. rewrite pieces_of_listed.
    destruct (decide (s = n)) as [<-|Hne].
    + rewrite Hl, (bool_decide_eq_true_2 _ E), Z.eqb_refl. reflexivity.
    + replace (s =? n) with false by (symmetry; apply Z.eqb_neq, Hne).
      rewrite xorb_false_r. reflexivity.
  - rewrite pieces_of_listed.
    destruct (decide (s = n)) as [<-|Hne]; [|reflexivity].
    rewrite Hl. symmetry. apply bool_decide_eq_false_2, E.
Qed.

Lemma pieces_of_move_piece pc from to pos c pt :
  0 <= from -> 0 <= to -> from <> to ->
  type_of pc <> ALL_PIECES -> pt <> ALL_PIECES ->
  square_consistent pos from -> board pos from = pc -> square_vacated pos to ->
  pieces_of (move_piece pc from to pos) c pt
  = if decide (pc = make_piece c pt)
    then Z.lxor (pieces_of pos c pt) (Z.lxor (SquareBB from) (SquareBB to))
    else pieces_of pos c pt.
Proof.
  intros Hfrom Hto Hne Hpc Hpt Hsq Hon Hvac. apply Z.bits_inj'. intros n Hn.
  rewrite pieces_of_listed,
    (listed_move_piece pc from to pos (make_piece c pt) n Hfrom Hto Hne Hpc Hpt Hsq Hon Hvac).
  assert (Hl : listed pos (make_piece c pt) from = bool_decide (pc = make_piece c pt)).
  { rewrite (listed_consistent pos (make_piece c pt) _ Hsq Hpt), Hon. reflexivity. }
  pose proof (listed_vacated pos (make_piece c pt) to Hvac) as Hv.
  destruct (decide (pc = make_piece c pt)) as [E|E].
  - bits. rewrite pieces_of_listed, (bool_decide_eq_true_2 _ E).
    destruct (decide (to = n)) as [<-|Hnt].
    + rewrite Hv, Z.eqb_refl.
      replace (from =? to) with false by (symmetry; apply Z.eqb_neq, Hne). reflexivity.
    + replace (to =? n) with false by (symmetry; apply Z.eqb_neq, Hnt).
      destruct (decide (from = n)) as [<-|Hnf].
      * rewrite Hl, (bool_decide_eq_true_2 _ E), Z.eqb_refl. reflexivity.
      * replace (from =? n) with false by (symmetry; apply Z.eqb_neq, Hnf).
        rewrite !xorb_false_r. reflexivity.
  - rewrite (bool_decide_eq_false_2 _ E), pieces_of_listed.
    destruct (decide (to = n)) as [<-|Hnt]; [symmetry; exact Hv|].
    destruct (decide (from = n)) as [<-|Hnf]; [|reflexivity].
    rewrite Hl. symmetry. apply bool_decide_eq_false_2, E.
Qed.

End CountsMatch.
Section CountsMatchKept.
Context `{BG : BoardGeometry}.

Lemma pieces_of_nonneg pos c pt : bitboards_sound pos -> 0 <= pieces_of pos c pt.
Proof. intros [_ Hnn]. apply Z.land_nonneg. left. apply Hnn. Qed.

Lemma put_piece_counts pc s pos :
  0 <= s -> type_of pc <> ALL_PIECES -> consistent_but s pos ->
  counts_match pos -> counts_match (put_piece pc s pos).
Proof.
  intros Hs Hpc (Hsound & Hvac & _) [Hreal Hall]. split.
  - intros c pt Hpt.
    rewrite put_piece_pieceCount, pieces_of_put_piece, Hreal by assumption.
    unfold indicator. destruct (decide (pc = make_piece c pt)) as [E|E]; [|lia].
    unfold bb_or. rewrite popcount_set_bit; [reflexivity | exact Hs | |].
    + apply pieces_of_nonneg, Hsound.
    + apply (listed_vacated pos (make_piece c pt) s Hvac).
  - intros c. unfold pieces_c.
    rewrite put_piece_count_all, byColorBB_put_piece, Hall by assumption.
    unfold pieces_c. destruct (decide (color_of pc = c)) as [E|E]; [|lia].
    unfold bb_or. rewrite popcount_set_bit; [reflexivity | exact Hs | |].
    + apply Hsound.
    + apply Hvac.
Qed.

Lemma remove_piece_counts pc s pos :
  0 <= s -> type_of pc <> ALL_PIECES -> board pos s = pc -> consistent pos ->
  counts_match pos -> counts_match (remove_piece pc s pos).
Proof.
  intros Hs Hpc Hon [Hsound Hsq] [Hreal Hall]. split.
  - intros c pt Hpt.
    rewrite remove_piece_pieceCount,
      (pieces_of_remove_piece pc s pos c pt Hs Hpc Hpt (Hsq s Hs) Hon), Hreal by assumption.
    unfold indicator. destruct (decide (pc = make_piece c pt)) as [E|E]; [|lia].
    unfold bb_xor. rewrite popcount_clear_bit; [reflexivity | exact Hs | |].
    + apply pieces_of_nonneg, Hsound.
    + rewrite pieces_of_listed, (listed_consistent pos (make_piece c pt) s (Hsq s Hs) Hpt).
      apply bool_decide_eq_true_2. congruence.
  - intros c. unfold pieces_c.
    rewrite remove_piece_count_all, byColorBB_remove_piece, Hall by assumption.
    unfold pieces_c. destruct (decide (color_of pc = c)) as [E|E]; [|lia].
    unfold bb_xor. rewrite popcount_clear_bit; [reflexivity | exact Hs | |].
    + apply Hsound.
    + rewrite (consistent_color_bit pos s c (Hsq s Hs)), Hon.
      rewrite (bool_decide_eq_true_2 (pc <> NO_PIECE))
        by (apply real_piece_not_NO_PIECE, Hpc).
      apply bool_decide_eq_true_2, E.
Qed.

Lemma move_piece_counts pc from to pos :
  0 <= from -> 0 <= to -> from <> to -> type_of pc <> ALL_PIECES ->
  board pos from = pc -> consistent_but to pos ->
  counts_match pos -> counts_match (move_piece pc from to pos).
Proof.
  intros Hfrom Hto Hne Hpc Hon (Hsound & Hvac & Hsq) [Hreal Hall].
  pose proof (Hsq from Hfrom Hne) as Hsqf. split.
  - intros c pt Hpt. rewrite pieceCount_move_piece.
    rewrite (pieces_of_move_piece pc from to pos c pt) by assumption.
    rewrite Hreal by assumption.
    destruct (decide (pc = make_piece c pt)) as [E|E]; [|reflexivity].
    rewrite popcount_move_bit; [reflexivity | exact Hfrom | exact Hto | | |].
    + apply pieces_of_nonneg, Hsound.
    + rewrite pieces_of_listed, (listed_consistent pos (make_piece c pt) from Hsqf Hpt).
      apply bool_decide_eq_true_2. congruence.
    + apply (listed_vacated pos (make_piece c pt) to Hvac).
  - intros c. unfold pieces_c. rewrite pieceCount_move_piece, byColorBB_move_piece, Hall.
    unfold pieces_c. destruct (decide (color_of pc = c)) as [E|E]; [|reflexivity].
    rewrite popcount_move_bit; [reflexivity | exact Hfrom | exact Hto | | |].
    + apply Hsound.
    + rewrite (consistent_color_bit pos from c Hsqf), Hon.
      rewrite (bool_decide_eq_true_2 (pc <> NO_PIECE))
        by (apply real_piece_not_NO_PIECE, Hpc).
      apply bool_decide_eq_true_2, E.
    + apply Hvac.
Qed.

Lemma counts_match_ext pos pos' :
  byTypeBB pos = byTypeBB pos' -> byColorBB pos = byColorBB pos' ->
  pieceCount pos = pieceCount pos' ->
  counts_match pos -> counts_match pos'.
Proof.
  unfold counts_match, pieces_of, pieces_c.
  intros <- <- <-. exact (fun h => h).
Qed.

Ltac count_fields :=
  lazy beta zeta iota delta
    [byTypeBB byColorBB pieceCount
     with_board with_pieceCountInHand add_to_hand remove_from_hand
     drop_piece undrop_piece];
  reflexivity.

Lemma placement_step_counts pos pos' :
  placement_step pos pos' -> consistent pos ->
  counts_match pos -> counts_match pos'.
Proof.
  intros Hstep Hcons Hok. destruct Hstep.
  - apply put_piece_counts; auto using consistent_is_consistent_but.
  - apply move_piece_counts; auto using consistent_is_consistent_but.
  - apply (counts_match_ext (put_piece pc s pos)); [count_fields ..|].
    apply put_piece_counts; auto using consistent_is_consistent_but.
  - apply (counts_match_ext (remove_piece pc s pos)); [count_fields ..|].
    apply remove_piece_counts; auto.
  - apply (counts_match_ext (remove_piece pc s pos)); [count_fields ..|].
    apply remove_piece_counts; auto.
  - apply move_piece_counts; auto.
    + apply remove_piece_vacates; auto.
    + apply remove_piece_counts; auto.
  - apply put_piece_counts; auto.
    + apply (remove_piece_vacates old s pos); auto.
    + apply remove_piece_counts; auto.
Qed.

Lemma placement_reachable_counts pos pos' :
  consistent pos -> counts_match pos -> placement_reachable pos pos' ->
  counts_match pos'.
Proof.
  intros Hcons Hok Hreach. induction Hreach as [|mid pos' Hmid IH Hstep]; [exact Hok|].
  apply (placement_step_counts mid pos' Hstep); [|exact IH].
  exact (placement_reachable_consistent pos mid Hcons Hmid).
Qed.

(** X4: the counts follow the bitboards through the placement helpers. From
    a consistent position in which [count<Pt>(c)] is the number of squares
    of [pieces(c, Pt)] and [count<ALL_PIECES>(c)] the number of squares of
    [pieces(c)], the same holds in every position reached by [put_piece],
    [move_piece], [drop_piece], [undrop_piece] and [remove_piece]. *)
Theorem counts_follow_bitboards pos pos' :
  consistent pos -> counts_match pos -> placement_reachable pos pos' ->
  counts_match pos'.
Proof.
  intros Hcons Hok Hreach. induction Hreach as [|mid pos' Hmid IH Hstep]; [exact Hok|].
  apply (placement_step_counts mid pos' Hstep); [|exact IH].
  exact (placement_reachable_consistent pos mid Hcons Hmid).
Qed.

(** X5: what the bare-king test of [is_variant_end] measures. In a
    consistent position whose counts agree with the bitboards,
    [count<ALL_PIECES>(c) - count<KING>(c)] is zero exactly when every piece
    of colour [c] on the board is a king. *)
Theorem bare_king_test_counts_non_kings pos c :
  consistent pos -> counts_match pos ->
  (count pos ALL_PIECES c - count pos KING c = 0
   <-> forall s, 0 <= s -> piece_on pos s <> NO_PIECE ->
         color_of (piece_on pos s) = c -> type_of (piece_on pos s) = KING).
Proof.
  intros [Hsound Hsq] [Hreal Hall]. unfold count, piece_on.
  rewrite Hall, (Hreal c KING) by discriminate. unfold pieces_c, pieces_of.
  assert (Hnn : 0 <= byColorBB pos c) by apply Hsound.
  rewrite (popcount_split (byColorBB pos c) Hnn (byTypeBB pos KING)).
  assert (Hd : 0 <= Z.ldiff (byColorBB pos c) (byTypeBB pos KING))
    by (apply Z.ldiff_nonneg; lia).
  split.
  - intros Hzero s Hs Hocc Hcol.
    assert (Hempty : Z.ldiff (byColorBB pos c) (byTypeBB pos KING) = 0)
      by (apply popcount_zero; [exact Hd | lia]).
    assert (Hbit : Z.testbit (Z.ldiff (byColorBB pos c) (byTypeBB pos KING)) s = false)
      by (rewrite Hempty; apply Z.bits_0).
    rewrite Z.ldiff_spec in Hbit.
    rewrite (consistent_color_bit pos s c (Hsq s Hs)) in Hbit.
    rewrite (consistent_type_bit pos s KING (Hsq s Hs)) in Hbit by discriminate.
    rewrite (bool_decide_eq_true_2 _ Hocc), (bool_decide_eq_true_2 _ Hcol) in Hbit.
    simpl in Hbit. apply negb_false_iff, bool_decide_eq_true in Hbit. exact Hbit.
  - intros Hkings.
    assert (Hempty : Z.ldiff (byColorBB pos c) (byTypeBB pos KING) = 0).
    { apply Z.bits_inj'. intros s Hs. rewrite Z.bits_0, Z.ldiff_spec.
      rewrite (consistent_color_bit pos s c (Hsq s Hs)).
      rewrite (consistent_type_bit pos s KING (Hsq s Hs)) by discriminate.
      destruct (decide (board pos s <> NO_PIECE)) as [Hocc|Hfree];
        [|rewrite (bool_decide_eq_false_2 _ Hfree); reflexivity].
      destruct (decide (color_of (board pos s) = c)) as [Hcol|Hcol];
        [|rewrite (bool_decide_eq_false_2 _ Hcol); apply andb_false_iff; left;
          apply andb_false_r].
      rewrite (bool_decide_eq_true_2 _ (Hkings s Hs Hocc Hcol)).
      apply andb_false_r. }
    rewrite Hempty. simpl. lia.
Qed.

End CountsMatchKept.
Lemma empty_position_counts v us : counts_match (empty_position v us).
Proof. split; intros; reflexivity. Qed.

Lemma built_from_empty_counts v us pos :
  placement_reachable (BG := chess_geometry) (empty_position v us) pos ->
  counts_match pos.
Proof.
  apply (placement_reachable_counts (BG := chess_geometry));
    [apply empty_position_consistent | apply empty_position_counts].
Qed.

Lemma counts_follow_bitboards_witness :
  counts_match
    (move_piece W_KING 4 57
       (remove_piece (BG := chess_geometry) B_KNIGHT 57 (lone_white_king no_rules WHITE))).
Proof.
  apply (counts_follow_bitboards (BG := chess_geometry) (empty_position no_rules WHITE)).
  - apply empty_position_consistent.
  - apply empty_position_counts.
  - eapply reach_step; [apply lone_white_king_built|].
    apply (step_capture B_KNIGHT W_KING 4 57); solve [lia | discriminate | reflexivity].
Defined.

Lemma bare_king_test_counts_non_kings_witness :
  count (lone_white_king no_rules WHITE) ALL_PIECES WHITE
  - count (lone_white_king no_rules WHITE) KING WHITE = 0
  <-> forall s, 0 <= s -> piece_on (lone_white_king no_rules WHITE) s <> NO_PIECE ->
        color_of (piece_on (lone_white_king no_rules WHITE) s) = WHITE ->
        type_of (piece_on (lone_white_king no_rules WHITE) s) = KING.
Proof.
  apply (bare_king_test_counts_non_kings (lone_white_king no_rules WHITE) WHITE).
  - apply (built_from_empty no_rules WHITE), lone_white_king_built.
  - apply (built_from_empty_counts no_rules WHITE), lone_white_king_built.
Defined.
(** ** Hands *)

Lemma NoDup_piece_types : List.NoDup piece_types.
Proof.
  apply NoDup_ListNoDup.
  assert (H : bool_decide (NoDup piece_types) = true) by (vm_compute; reflexivity).
  apply bool_decide_eq_true in H. exact H.
Qed.

Lemma in_real_piece_types pt : In pt piece_types <-> pt <> ALL_PIECES.
Proof.
  split.
  - intros Hin ->. simpl in Hin. intuition discriminate.
  - intros Hpt. destruct pt; simpl; tauto.
Qed.

Section Hands.
Context `{BG : BoardGeometry}.

(** A change of the hand of [c] by [d] pieces of type [pt], aggregated
    entry included, keeps the entry equal to the size of the hand. *)
Lemma hand_totals_shift pos pos' c pt d :
  pt <> ALL_PIECES ->
  (forall c' pt', pieceCountInHand pos' c' pt'
     = pieceCountInHand pos c' pt'
       + (if decide (c' = c /\ (pt' = pt \/ pt' = ALL_PIECES)) then d else 0)) ->
  hand_totals_ok pos -> hand_totals_ok pos'.
Proof.
  intros Hpt Hshift Hok c'. unfold count_in_hand, hand_total.
  rewrite (sum_update piece_types (pieceCountInHand pos c') (pieceCountInHand pos' c') pt).
  - rewrite !Hshift. specialize (Hok c'). unfold count_in_hand, hand_total in Hok.
    destruct (decide (c' = c)) as [->|Hc].
    + destruct (decide (c = c /\ (ALL_PIECES = pt \/ ALL_PIECES = ALL_PIECES)));
        [|tauto].
      destruct (decide (c = c /\ (pt = pt \/ pt = ALL_PIECES))); [|tauto]. lia.
    + destruct (decide (c' = c /\ (ALL_PIECES = pt \/ ALL_PIECES = ALL_PIECES)));
        [tauto|].
      destruct (decide (c' = c /\ (pt = pt \/ pt = ALL_PIECES))); [tauto|]. lia.
  - apply NoDup_piece_types.
  - apply in_real_piece_types, Hpt.
  - intros pt' Hin Hne. apply in_real_piece_types in Hin. rewrite Hshift.
    destruct (decide (c' = c /\ (pt' = pt \/ pt' = ALL_PIECES))); [tauto | lia].
Qed.

(** X6: the aggregated hand entry stays the size of the hand. When
    [pieceCountInHand[c][ALL_PIECES]] is the sum of the entries of the piece
    types for both colours, it still is after [add_to_hand],
    [remove_from_hand], [drop_piece] and [undrop_piece] of a piece type
    other than [ALL_PIECES]. *)
Theorem hand_totals_kept pos c pt :
  pt <> ALL_PIECES -> hand_totals_ok pos ->
  hand_totals_ok (add_to_hand c pt pos)
  /\ hand_totals_ok (remove_from_hand c pt pos)
  /\ (forall s, hand_totals_ok (drop_piece (make_piece c pt) s pos))
  /\ (forall s, hand_totals_ok (undrop_piece (make_piece c pt) s pos)).
Proof.
  intros Hpt Hok. repeat split; try intros s.
  - apply (hand_totals_shift pos _ c pt 1 Hpt); [|exact Hok].
    intros c' pt'. apply add_to_hand_hand, Hpt.
  - apply (hand_totals_shift pos _ c pt (-1) Hpt); [|exact Hok].
    intros c' pt'. rewrite remove_from_hand_hand by exact Hpt.
    destruct (decide (c' = c /\ (pt' = pt \/ pt' = ALL_PIECES))); lia.
  - apply (hand_totals_shift pos _ c pt (-1) Hpt); [|exact Hok].
    intros c' pt'. rewrite drop_piece_hand by exact Hpt. simpl.
    destruct (decide (c' = c /\ (pt' = pt \/ pt' = ALL_PIECES))); lia.
  - apply (hand_totals_shift pos _ c pt 1 Hpt); [|exact Hok].
    intros c' pt'. rewrite undrop_piece_hand by exact Hpt. reflexivity.
Qed.

Ltac hand_cases :=
  unfold insert, fn_insert;
  repeat match goal with
         | |- context [decide (?a = ?b)] => destruct (decide (a = b)); subst
         end;
  try congruence; try lia.

(** X7: [add_to_hand] and [remove_from_hand] undo each other, in either
    order and for every piece type, the aggregated one included. *)
Theorem hand_add_remove_cancel pos c pt c' pt' :
  count_in_hand (remove_from_hand c pt (add_to_hand c pt pos)) c' pt'
  = count_in_hand pos c' pt'
  /\ count_in_hand (add_to_hand c pt (remove_from_hand c pt pos)) c' pt'
     = count_in_hand pos c' pt'.
Proof.
  unfold count_in_hand, add_to_hand, remove_from_hand; simpl. split; hand_cases.
Qed.

End Hands.
Lemma hand_totals_kept_witness :
  hand_totals_ok (add_to_hand WHITE KNIGHT (empty_position no_rules WHITE))
  /\ hand_totals_ok (remove_from_hand WHITE KNIGHT (empty_position no_rules WHITE))
  /\ (forall s, hand_totals_ok
        (drop_piece (make_piece WHITE KNIGHT) s (empty_position no_rules WHITE)))
  /\ (forall s, hand_totals_ok
        (undrop_piece (BG := chess_geometry) (make_piece WHITE KNIGHT) s
           (empty_position no_rules WHITE))).
Proof.
  apply (hand_totals_kept (BG := chess_geometry) (empty_position no_rules WHITE)
           WHITE KNIGHT).
  - discriminate.
  - intros c. reflexivity.
Defined.

(** ** Helpers applied and taken back *)

Section RoundTrips.
Context `{BG : BoardGeometry}.

Ltac trip_fields :=
  lazy beta zeta iota delta
    [byTypeBB byColorBB pieceCount pieceList index
     with_board with_pieceCountInHand add_to_hand remove_from_hand
     drop_piece undrop_piece];
  reflexivity.

Ltac insert_cases :=
  unfold insert, fn_insert;
  repeat match goal with
         | |- context [decide (?a = ?b)] => destruct (decide (a = b)); subst
         end;
  try congruence; try lia.

Lemma remove_put_pieceCount pc s pos pc' :
  type_of pc <> ALL_PIECES ->
  pieceCount (remove_piece pc s (put_piece pc s pos)) pc' = pieceCount pos pc'.
Proof.
  intros Hpc. destruct (decide (type_of pc' = ALL_PIECES)) as [Hall|Hreal].
  - rewrite <- (make_piece_eta pc'), Hall.
    rewrite remove_piece_count_all, put_piece_count_all by exact Hpc. lia.
  - rewrite remove_piece_pieceCount, put_piece_pieceCount by exact Hreal. lia.
Qed.

Lemma undrop_drop_fields pc s c pt pos :
  pieceList (undrop_piece pc s (remove_from_hand c pt pos)) = pieceList (remove_piece pc s pos)
  /\ index (undrop_piece pc s (remove_from_hand c pt pos)) = index (remove_piece pc s pos)
  /\ pieceCount (undrop_piece pc s (remove_from_hand c pt pos))
     = pieceCount (remove_piece pc s pos).
Proof. repeat split. Qed.

(** X8: [undrop_piece] takes back [drop_piece]. On an empty square of a
    consistent position whose piece lists agree with the board, when the
    side holds the piece in hand and the row of the piece has a free slot
    (fewer than 16 such pieces on the board), dropping the piece and taking
    the drop back restores the square map, every bitboard, every count,
    every hand entry and every piece list; of [index] only the entry of the
    square differs, which is left at [pieceCount[pc]]. *)
Theorem undrop_piece_takes_back_drop_piece pos pc s :
  consistent pos -> piece_lists_agree pos ->
  0 <= s -> type_of pc <> ALL_PIECES -> empty pos s = true ->
  pieceCount pos pc < 16 ->
  1 <= count_in_hand pos (color_of pc) (type_of pc) ->
  let back := undrop_piece pc s (drop_piece pc s pos) in
  (forall t, piece_on back t = piece_on pos t)
  /\ (forall pt, byTypeBB back pt = byTypeBB pos pt)
  /\ (forall c, byColorBB back c = byColorBB pos c)
  /\ (forall pc', pieceCount back pc' = pieceCount pos pc')
  /\ (forall c pt, count_in_hand back c pt = count_in_hand pos c pt)
  /\ (forall pc' i, pieceList back pc' i = pieceList pos pc' i)
  /\ (forall t, t <> s -> index back t = index pos t)
  /\ index back s = pieceCount pos pc.
Proof.
  intros Hcons Hagree Hs Hpc Hempty Hroom Hheld back.
  apply bool_decide_eq_true in Hempty.
  destruct (Hagree pc Hpc) as (Hn & _ & _ & Hterm).
  assert (Hboard : forall t, board back t = board pos t).
  { intros t. unfold back. rewrite undrop_piece_board, drop_piece_board.
    unfold insert, fn_insert. destruct (decide (s = t)) as [<-|_]; congruence. }
  assert (Hcons' : consistent back).
  { apply (placement_step_consistent (drop_piece pc s pos)).
    - apply step_undrop; [exact Hs | exact Hpc |].
      rewrite drop_piece_board. apply fn_lookup_insert.
    - apply (placement_step_consistent pos); [|exact Hcons].
      apply step_drop; assumption. }
  destruct (consistent_bitboards_determined back pos Hcons' Hcons (fun t _ => Hboard t))
    as [Hc Ht].
  assert (Hcount : pieceCount (put_piece pc s pos) pc = pieceCount pos pc + 1).
  { rewrite put_piece_pieceCount by exact Hpc. unfold indicator.
    destruct (decide (pc = pc)); [reflexivity | congruence]. }
  destruct (undrop_drop_fields pc s (color_of pc) (type_of pc) (put_piece pc s pos))
    as (Hlist & Hindex & Hcounts).
  fold (drop_piece pc s pos) in Hlist, Hindex, Hcounts. fold back in Hlist, Hindex, Hcounts.
  assert (Hlast : pieceList (put_piece pc s pos) pc (pieceCount pos pc) = s).
  { rewrite pieceList_put_piece. destruct (decide (pc = pc)); [|congruence].
    destruct (decide (pieceCount pos pc = pieceCount pos pc)); congruence. }
  split; [exact Hboard|]. split; [exact Ht|]. split; [exact Hc|]. split; [|split].
  - intros pc'.
    rewrite Hcounts. apply remove_put_pieceCount, Hpc.
  - intros c pt. unfold back, count_in_hand.
    rewrite undrop_piece_hand, drop_piece_hand by exact Hpc. lia.
  - split; [|split].
    + intros pc' i. rewrite Hlist, pieceList_remove_piece, Hcount, !pieceList_put_piece.
      destruct (decide (pc = pc')) as [<-|_]; [|reflexivity].
      destruct (decide (pc = pc)) as [_|E]; [|congruence].
      replace (pieceCount pos pc + 1 - 1) with (pieceCount pos pc) by lia.
      destruct (decide (pieceCount pos pc = i)) as [<-|Hne].
      * symmetry. apply Hterm. lia.
      * rewrite index_put_piece. destruct (decide (s = s)); [|congruence].
        destruct (decide (pieceCount pos pc = i)); [congruence | reflexivity].
    + intros t Hne. rewrite Hindex, index_remove_piece, Hcount.
      replace (pieceCount pos pc + 1 - 1) with (pieceCount pos pc) by lia.
      rewrite Hlast, !index_put_piece.
      destruct (decide (s = t)); [congruence | reflexivity].
    + rewrite Hindex, index_remove_piece, Hcount.
      replace (pieceCount pos pc + 1 - 1) with (pieceCount pos pc) by lia.
      rewrite Hlast, !index_put_piece.
      destruct (decide (s = s)); [reflexivity | congruence].
Qed.

Lemma lxor_there_and_back b x y : Z.lxor (Z.lxor b (Z.lxor x y)) (Z.lxor y x) = b.
Proof.
  rewrite (Z.lxor_comm y x), Z.lxor_assoc, Z.lxor_nilpotent, Z.lxor_0_r. reflexivity.
Qed.

Lemma byTypeBB_move_piece pc from to pos pt :
  byTypeBB (move_piece pc from to pos) pt
  = let fromTo := Z.lxor (SquareBB from) (SquareBB to) in
    let b := if decide (ALL_PIECES = pt) then Z.lxor (byTypeBB pos pt) fromTo
             else byTypeBB pos pt in
    if decide (type_of pc = pt) then Z.lxor b fromTo else b.
Proof.
  unfold move_piece; simpl. unfold insert, fn_insert.
  destruct (decide (type_of pc = pt)) as [E|E];
    destruct (decide (ALL_PIECES = pt)) as [E'|E']; subst; try reflexivity.
  - rewrite <- E'. reflexivity.
  - destruct (decide (ALL_PIECES = type_of pc)); [congruence | reflexivity].
Qed.

(** X9: [move_piece] back and forth. Moving a piece to an empty square and
    back restores the square map, every bitboard, every count and every
    piece list; of [index] only the entry of the visited square differs,
    which keeps the slot of the piece. *)
Theorem move_piece_there_and_back pos pc from to :
  piece_lists_agree pos ->
  0 <= from -> type_of pc <> ALL_PIECES ->
  piece_on pos from = pc -> empty pos to = true ->
  let back := move_piece pc to from (move_piece pc from to pos) in
  (forall t, piece_on back t = piece_on pos t)
  /\ (forall pt, byTypeBB back pt = byTypeBB pos pt)
  /\ (forall c, byColorBB back c = byColorBB pos c)
  /\ (forall pc', pieceCount back pc' = pieceCount pos pc')
  /\ (forall pc' i, pieceList back pc' i = pieceList pos pc' i)
  /\ (forall t, t <> to -> index back t = index pos t)
  /\ index back to = index pos from.
Proof.
  intros Hagree Hfrom Hpc Hon Hempty back. unfold piece_on in *.
  apply bool_decide_eq_true in Hempty.
  destruct (Hagree pc Hpc) as (_ & Hsl & _ & _).
  destruct (Hsl from Hfrom Hon) as [_ Hslot].
  assert (Hne : from <> to).
  { intros E. rewrite E, Hempty in Hon. apply Hpc. rewrite <- Hon. reflexivity. }
  split; [|split; [|split; [|split; [|split; [|split]]]]].
  - intros t. unfold back. rewrite !board_move_piece.
    destruct (decide (from = t)) as [<-|_]; [congruence|].
    destruct (decide (to = t)) as [<-|_]; congruence.
  - intros pt. unfold back. rewrite !byTypeBB_move_piece. simpl.
    destruct (decide (type_of pc = pt)), (decide (ALL_PIECES = pt));
      rewrite ?lxor_there_and_back; reflexivity.
  - intros c. unfold back. rewrite !byColorBB_move_piece.
    destruct (decide (color_of pc = c)); [apply lxor_there_and_back | reflexivity].
  - intros pc'. reflexivity.
  - intros pc' i. unfold back. rewrite !pieceList_move_piece, index_move_piece.
    destruct (decide (pc = pc')) as [<-|_]; [|reflexivity].
    destruct (decide (pc = pc)) as [_|E]; [|congruence].
    destruct (decide (to = to)); [|congruence].
    destruct (decide (index pos from = i)) as [<-|_]; [|reflexivity].
    exact (eq_sym Hslot).
  - intros t Hnt. unfold back. rewrite !index_move_piece.
    destruct (decide (to = to)); [|congruence].
    destruct (decide (from = t)) as [<-|_]; [reflexivity|].
    destruct (decide (to = t)); [congruence | reflexivity].
  - unfold back. rewrite !index_move_piece.
    destruct (decide (to = to)); [|congruence].
    destruct (decide (from = to)); [congruence | reflexivity].
Qed.

End RoundTrips.
(** The piece lists do not look at the hands. *)
Lemma add_to_hand_lists `{BG : BoardGeometry} c pt pos :
  piece_lists_agree pos -> piece_lists_agree (add_to_hand c pt pos).
Proof. exact (fun h => h). Qed.

(** White, holding a knight, drops it on e4 and takes the drop back. *)
Lemma knight_in_hand_lists : piece_lists_agree (BG := chess_geometry) knight_in_hand.
Proof.
  apply (add_to_hand_lists (BG := chess_geometry)).
  assert (Hbuilt : placement_reachable (BG := chess_geometry)
                     (empty_position no_rules WHITE)
                     (put_piece B_KING 60 (put_piece W_KING 4 (empty_position no_rules WHITE)))).
  { eapply reach_step; [eapply reach_step|].
    - apply reach_here.
    - apply (step_put W_KING 4); [lia | discriminate | reflexivity].
    - apply (step_put B_KING 60); [lia | discriminate | reflexivity]. }
  exact (proj2 (built_from_empty no_rules WHITE _ Hbuilt)).
Qed.

Lemma undrop_piece_takes_back_drop_piece_witness :
  let pos := knight_in_hand in
  let W_KNIGHT := make_piece WHITE KNIGHT in
  let back := undrop_piece (BG := chess_geometry) W_KNIGHT 28 (drop_piece W_KNIGHT 28 pos) in
  (pieceCount pos W_KNIGHT < 16 /\ 1 <= count_in_hand pos WHITE KNIGHT)
  /\ (forall t, piece_on back t = piece_on pos t)
  /\ (forall pt, byTypeBB back pt = byTypeBB pos pt)
  /\ (forall c, byColorBB back c = byColorBB pos c)
  /\ (forall pc', pieceCount back pc' = pieceCount pos pc')
  /\ (forall c pt, count_in_hand back c pt = count_in_hand pos c pt)
  /\ (forall pc' i, pieceList back pc' i = pieceList pos pc' i)
  /\ (forall t, t <> 28 -> index back t = index pos t)
  /\ index back 28 = pieceCount pos W_KNIGHT.
Proof.
  split; [split; vm_compute; congruence|].
  apply (undrop_piece_takes_back_drop_piece (BG := chess_geometry)
           knight_in_hand (make_piece WHITE KNIGHT) 28).
  - apply knight_in_hand_consistent.
  - apply knight_in_hand_lists.
  - lia.
  - discriminate.
  - reflexivity.
  - vm_compute. reflexivity.
  - vm_compute. discriminate.
Defined.

Lemma move_piece_there_and_back_witness :
  let pos := lone_white_king no_rules WHITE in
  let back := move_piece W_KING 12 4 (move_piece W_KING 4 12 pos) in
  (forall t, piece_on back t = piece_on pos t)
  /\ (forall pt, byTypeBB back pt = byTypeBB pos pt)
  /\ (forall c, byColorBB back c = byColorBB pos c)
  /\ (forall pc', pieceCount back pc' = pieceCount pos pc')
  /\ (forall pc' i, pieceList back pc' i = pieceList pos pc' i)
  /\ (forall t, t <> 12 -> index back t = index pos t)
  /\ index back 12 = index pos 4.
Proof.
  apply (move_piece_there_and_back (BG := chess_geometry)
           (lone_white_king no_rules WHITE) W_KING 4 12).
  - apply (built_from_empty no_rules WHITE), lone_white_king_built.
  - lia.
  - discriminate.
  - reflexivity.
  - reflexivity.
Defined.
(** ** The overloads of [pieces] *)

Section PiecesOverloads.

(** X10: what the overloads of [pieces] hold in a consistent position. For
    a square [s] and piece types other than [ALL_PIECES]: [s] is in
    [pieces(pt)] exactly when the piece on [s] has type [pt]; in
    [pieces(pt1, pt2)] when it has one of the two types; in [pieces(c)]
    when [s] is occupied by a piece of colour [c]; in [pieces(c, pt)] when
    it holds the piece [(c, pt)]; in [pieces(c, pt1, pt2)] when it holds
    [(c, pt1)] or [(c, pt2)]. *)
Theorem pieces_overloads_membership pos s c pt1 pt2 :
  consistent pos -> 0 <= s -> pt1 <> ALL_PIECES -> pt2 <> ALL_PIECES ->
  (Z.testbit (pieces_pt pos pt1) s = true <-> type_of (piece_on pos s) = pt1)
  /\ (Z.testbit (pieces_pt2 pos pt1 pt2) s = true
      <-> type_of (piece_on pos s) = pt1 \/ type_of (piece_on pos s) = pt2)
  /\ (Z.testbit (pieces_c pos c) s = true
      <-> piece_on pos s <> NO_PIECE /\ color_of (piece_on pos s) = c)
  /\ (Z.testbit (pieces_of pos c pt1) s = true <-> piece_on pos s = make_piece c pt1)
  /\ (Z.testbit (pieces_of2 pos c pt1 pt2) s = true
      <-> piece_on pos s = make_piece c pt1 \/ piece_on pos s = make_piece c pt2).
Proof.
  intros [_ Hsq] Hs H1 H2. specialize (Hsq s Hs).
  assert (Hof : forall pt, pt <> ALL_PIECES ->
            (Z.testbit (pieces_of pos c pt) s = true <-> board pos s = make_piece c pt)).
  { intros pt Hpt. rewrite pieces_of_listed, (listed_consistent pos (make_piece c pt) s Hsq Hpt).
    apply bool_decide_eq_true. }
  unfold pieces_pt, pieces_pt2, pieces_c, pieces_of2, piece_on.
  split; [|split; [|split; [|split]]].
  - rewrite (consistent_type_bit pos s pt1 Hsq H1). apply bool_decide_eq_true.
  - rewrite Z.lor_spec, orb_true_iff.
    rewrite (consistent_type_bit pos s pt1 Hsq H1), (consistent_type_bit pos s pt2 Hsq H2).
    rewrite !bool_decide_eq_true. reflexivity.
  - rewrite (consistent_color_bit pos s c Hsq), andb_true_iff, !bool_decide_eq_true.
    reflexivity.
  - apply Hof, H1.
  - rewrite <- (Hof pt1 H1), <- (Hof pt2 H2). unfold pieces_of.
    rewrite !Z.land_spec, Z.lor_spec.
    destruct (Z.testbit (byColorBB pos c) s), (Z.testbit (byTypeBB pos pt1) s),
      (Z.testbit (byTypeBB pos pt2) s); simpl; intuition discriminate.
Qed.

(** X11: in a consistent position the bitboards partition the occupied
    squares. The two colour bitboards share no square, the bitboards of two
    different piece types share no square, and [pieces(pt)] is the union of
    [pieces(WHITE, pt)] and [pieces(BLACK, pt)]. *)
Theorem bitboards_partition pos :
  consistent pos ->
  Z.land (pieces_c pos WHITE) (pieces_c pos BLACK) = 0
  /\ (forall pt1 pt2, pt1 <> ALL_PIECES -> pt2 <> ALL_PIECES -> pt1 <> pt2 ->
        Z.land (pieces_pt pos pt1) (pieces_pt pos pt2) = 0)
  /\ (forall pt, pt <> ALL_PIECES ->
        pieces_pt pos pt = Z.lor (pieces_of pos WHITE pt) (pieces_of pos BLACK pt)).
Proof.
  intros [_ Hsq]. unfold pieces_c, pieces_pt, pieces_of. split; [|split].
  - apply Z.bits_inj'. intros s Hs. rewrite Z.land_spec, Z.bits_0.
    rewrite !(consistent_color_bit pos s _ (Hsq s Hs)).
    destruct (color_of (board pos s)), (bool_decide (board pos s <> NO_PIECE)); reflexivity.
  - intros pt1 pt2 H1 H2 Hne. apply Z.bits_inj'. intros s Hs.
    rewrite Z.land_spec, Z.bits_0.
    rewrite (consistent_type_bit pos s pt1 (Hsq s Hs) H1),
      (consistent_type_bit pos s pt2 (Hsq s Hs) H2).
    destruct (decide (type_of (board pos s) = pt1)) as [E|E].
    + rewrite (bool_decide_eq_false_2 (type_of (board pos s) = pt2)) by congruence.
      apply andb_false_r.
    + rewrite (bool_decide_eq_false_2 _ E). reflexivity.
  - intros pt Hpt. apply Z.bits_inj'. intros s Hs.
    rewrite Z.lor_spec, !Z.land_spec.
    rewrite !(consistent_color_bit pos s _ (Hsq s Hs)),
      (consistent_type_bit pos s pt (Hsq s Hs) Hpt).
    destruct (decide (type_of (board pos s) = pt)) as [E|E].
    + rewrite (bool_decide_eq_true_2 _ E), !andb_true_r.
      rewrite (bool_decide_eq_true_2 (board pos s <> NO_PIECE)).
      * destruct (color_of (board pos s)); reflexivity.
      * intros Hno. apply Hpt. rewrite <- E, Hno. reflexivity.
    + rewrite (bool_decide_eq_false_2 _ E), !andb_false_r. reflexivity.
Qed.

(** X12: [empty(s)] and [pieces()]. In a consistent position a square is
    empty exactly when it is not in the bitboard of all pieces. *)
Theorem empty_iff_not_in_pieces pos s :
  consistent pos -> 0 <= s ->
  empty pos s = negb (Z.testbit (pieces pos) s).
Proof.
  intros [Hsound Hsq] Hs. unfold empty, pieces.
  rewrite (all_bit_sound pos s Hsound), !(consistent_color_bit pos s _ (Hsq s Hs)).
  destruct (decide (board pos s = NO_PIECE)) as [E|E].
  - rewrite (bool_decide_eq_true_2 _ E).
    rewrite (bool_decide_eq_false_2 (board pos s <> NO_PIECE)) by tauto. reflexivity.
  - rewrite (bool_decide_eq_false_2 _ E), (bool_decide_eq_true_2 _ E).
    destruct (color_of (board pos s)); reflexivity.
Qed.

End PiecesOverloads.

Lemma pieces_overloads_membership_witness :
  let pos := lone_white_king no_rules WHITE in
  (Z.testbit (pieces_pt pos KING) 60 = true <-> type_of (piece_on pos 60) = KING)
  /\ (Z.testbit (pieces_pt2 pos KING KNIGHT) 60 = true
      <-> type_of (piece_on pos 60) = KING \/ type_of (piece_on pos 60) = KNIGHT)
  /\ (Z.testbit (pieces_c pos BLACK) 60 = true
      <-> piece_on pos 60 <> NO_PIECE /\ color_of (piece_on pos 60) = BLACK)
  /\ (Z.testbit (pieces_of pos BLACK KING) 60 = true
      <-> piece_on pos 60 = make_piece BLACK KING)
  /\ (Z.testbit (pieces_of2 pos BLACK KING KNIGHT) 60 = true
      <-> piece_on pos 60 = make_piece BLACK KING
          \/ piece_on pos 60 = make_piece BLACK KNIGHT).
Proof.
  apply (pieces_overloads_membership (lone_white_king no_rules WHITE) 60 BLACK KING KNIGHT).
  - apply (built_from_empty no_rules WHITE), lone_white_king_built.
  - lia.
  - discriminate.
  - discriminate.
Defined.

Lemma bitboards_partition_witness :
  let pos := lone_white_king no_rules WHITE in
  Z.land (pieces_c pos WHITE) (pieces_c pos BLACK) = 0
  /\ (forall pt1 pt2, pt1 <> ALL_PIECES -> pt2 <> ALL_PIECES -> pt1 <> pt2 ->
        Z.land (pieces_pt pos pt1) (pieces_pt pos pt2) = 0)
  /\ (forall pt, pt <> ALL_PIECES ->
        pieces_pt pos pt = Z.lor (pieces_of pos WHITE pt) (pieces_of pos BLACK pt)).
Proof.
  apply (bitboards_partition (lone_white_king no_rules WHITE)).
  apply (built_from_empty no_rules WHITE), lone_white_king_built.
Defined.

Lemma empty_iff_not_in_pieces_witness :
  empty (lone_white_king no_rules WHITE) 57
  = negb (Z.testbit (pieces (lone_white_king no_rules WHITE)) 57).
Proof.
  apply (empty_iff_not_in_pieces (lone_white_king no_rules WHITE) 57).
  - apply (built_from_empty no_rules WHITE), lone_white_king_built.
  - lia.
Defined.

(** ** Captures and promotions *)

(** X13: [capture_or_promotion] against [capture]. For a move that, when it
    is a drop, lands on an empty square, [capture_or_promotion(m)] holds
    exactly when [capture(m)] holds or the move is a promotion. *)
Theorem capture_or_promotion_splits pos m :
  (move_type m = DROP -> empty pos (to_sq m) = true) ->
  capture_or_promotion pos m
  = capture pos m || bool_decide (move_type m = PROMOTION).
Proof.
  intros Hdrop. unfold capture_or_promotion, capture.
  destruct (move_type m) eqn:Hty; simpl;
    rewrite ?andb_true_r, ?andb_false_r, ?orb_false_r, ?orb_true_r; try reflexivity.
  rewrite (Hdrop eq_refl). reflexivity.
Qed.

(** A drop on an occupied square, which no legal move is, counts as a
    capture but not as a capture or promotion. *)
Example drop_on_occupied_square_classified :
  let m := make_move 0 4 DROP ALL_PIECES KNIGHT in
  capture (lone_white_king no_rules WHITE) m = true
  /\ capture_or_promotion (lone_white_king no_rules WHITE) m = false.
Proof. split; reflexivity. Qed.

Lemma capture_or_promotion_splits_witness :
  let m := make_move 8 16 PROMOTION QUEEN ALL_PIECES in
  capture_or_promotion (lone_white_king no_rules WHITE) m
  = capture (lone_white_king no_rules WHITE) m || bool_decide (move_type m = PROMOTION).
Proof.
  apply (capture_or_promotion_splits (lone_white_king no_rules WHITE)
           (make_move 8 16 PROMOTION QUEEN ALL_PIECES)).
  simpl. discriminate.
Defined.
(** ** More on the terminal conditions *)

Section VariantEndMore.
Context `{VC : ValueConstants}.

(** X14: the verdict of [is_variant_end] does not depend on the ply or on
    what [result] held; the overload without arguments returns the same
    verdict; and when the verdict is [false], [result] is left as it was. *)
Theorem is_variant_end_verdict pos result result' ply ply' junk :
  fst (is_variant_end pos result ply) = fst (is_variant_end pos result' ply')
  /\ is_variant_end_flag pos junk = fst (is_variant_end pos result ply)
  /\ (fst (is_variant_end pos result ply) = false ->
      snd (is_variant_end pos result ply) = result).
Proof.
  unfold is_variant_end_flag, is_variant_end.
  repeat match goal with
         | |- context [if ?b then _ else _] => destruct b
         end; simpl; repeat split; try reflexivity; discriminate.
Qed.

Lemma bare_king_value_none pos ply :
  VALUE_NONE <> VALUE_MATE -> VALUE_NONE <> - VALUE_MATE ->
  bareKingValue (var pos) = VALUE_NONE ->
  bare_king_value pos ply = VALUE_NONE.
Proof.
  intros H1 H2 Hv. unfold bare_king_value. rewrite Hv.
  destruct (Z.eqb_spec VALUE_NONE VALUE_MATE); [congruence|].
  destruct (Z.eqb_spec VALUE_NONE (- VALUE_MATE)); [congruence|]. reflexivity.
Qed.

(** X15: without variant rules the game is never adjudicated. With no
    bare-king value, empty target regions and no check threshold (the
    defaults of the rule file), [is_variant_end] returns [false] in every
    position and leaves [result] alone. ([VALUE_NONE] is neither mate
    score.) *)
Theorem no_variant_rules_no_variant_end pos result ply :
  VALUE_NONE <> VALUE_MATE -> VALUE_NONE <> - VALUE_MATE ->
  bareKingValue (var pos) = VALUE_NONE ->
  whiteFlag (var pos) = 0 -> blackFlag (var pos) = 0 ->
  maxCheckCount (var pos) = 0 ->
  is_variant_end pos result ply = (false, result).
Proof.
  intros H1 H2 Hbare Hw Hb Hchecks.
  assert (Hflag : forall c s, bb_and (capture_the_flag pos c) s = 0).
  { intros c s. unfold bb_and, capture_the_flag. destruct c; rewrite ?Hw, ?Hb; reflexivity. }
  unfold is_variant_end, max_check_count.
  rewrite (bare_king_value_none pos 0 H1 H2 Hbare), Z.eqb_refl, !Hflag, Hchecks.
  simpl. rewrite !andb_false_r. reflexivity.
Qed.

(** X16: the bare-king rule with the extra move. When a bare-king value is
    configured and the opponent is granted one more move, a position in
    which the side that has just moved has nothing but kings is adjudicated
    with the negated bare-king value, whatever the side to move has left. *)
Theorem bare_king_after_extra_move pos result ply :
  bare_king_value pos 0 <> VALUE_NONE ->
  bareKingMove (var pos) = true ->
  count pos ALL_PIECES (~~sideToMove pos) - count pos KING (~~sideToMove pos) = 0 ->
  is_variant_end pos result ply = (true, - bare_king_value pos ply).
Proof.
  intros Hv Hm Hc. unfold is_variant_end, bare_king_move, to_bool.
  rewrite Hm, Hc. apply Z.eqb_neq in Hv. rewrite Hv. reflexivity.
Qed.

(** X17: with the extra move granted, the bare king of the side to move
    alone does not end the game: when the opponent still has a piece besides
    its kings and neither the target regions nor the check threshold are
    configured, [is_variant_end] returns [false]. *)
Theorem bare_king_gets_extra_move pos result ply :
  bareKingMove (var pos) = true ->
  count pos ALL_PIECES (~~sideToMove pos) - count pos KING (~~sideToMove pos) <> 0 ->
  whiteFlag (var pos) = 0 -> blackFlag (var pos) = 0 ->
  maxCheckCount (var pos) = 0 ->
  is_variant_end pos result ply = (false, result).
Proof.
  intros Hm Hc Hw Hb Hchecks.
  assert (Hflag : forall c s, bb_and (capture_the_flag pos c) s = 0).
  { intros c s. unfold bb_and, capture_the_flag. destruct c; rewrite ?Hw, ?Hb; reflexivity. }
  unfold is_variant_end, max_check_count, bare_king_move, to_bool.
  rewrite Hm, !Hflag, Hchecks. apply Z.eqb_neq in Hc. rewrite Hc.
  simpl. rewrite !andb_false_r. reflexivity.
Qed.

End VariantEndMore.
Lemma no_variant_rules_no_variant_end_witness :
  is_variant_end (VC := chess_values) (lone_white_king no_rules WHITE) 7 3 = (false, 7).
Proof.
  apply (no_variant_rules_no_variant_end (VC := chess_values)
           (lone_white_king no_rules WHITE) 7 3);
    solve [simpl; lia | reflexivity].
Defined.

Lemma bare_king_after_extra_move_witness :
  is_variant_end (VC := chess_values) (lone_white_king bare_king_draws_late BLACK) 7 3
  = (true, - bare_king_value (VC := chess_values)
               (lone_white_king bare_king_draws_late BLACK) 3).
Proof.
  apply (bare_king_after_extra_move (VC := chess_values)
           (lone_white_king bare_king_draws_late BLACK) 7 3).
  - vm_compute. discriminate.
  - reflexivity.
  - reflexivity.
Defined.

Lemma bare_king_gets_extra_move_witness :
  is_variant_end (VC := chess_values) (lone_white_king bare_king_draws_late WHITE) 7 3
  = (false, 7).
Proof.
  apply (bare_king_gets_extra_move (VC := chess_values)
           (lone_white_king bare_king_draws_late WHITE) 7 3).
  - reflexivity.
  - vm_compute. discriminate.
  - reflexivity.
  - reflexivity.
  - reflexivity.
Defined.
(** ** Taking a drop back, and counts of both colours *)

Section Undrops.
Context `{BG : BoardGeometry}.

Lemma pieces_undrop_piece pc s pos :
  type_of pc <> ALL_PIECES ->
  pieces (undrop_piece pc s pos) = Z.lxor (pieces pos) (SquareBB s).
Proof.
  intros Hpc. unfold pieces, undrop_piece, remove_piece; simpl.
  unfold insert, fn_insert, bb_xor.
  destruct (decide (type_of pc = ALL_PIECES)); [congruence | reflexivity].
Qed.

(** X18: [undrop_piece], the counterpart of [drop_piece]. Taking the piece
    [(c, pt)] off the square [s] it stands on, in a consistent position,
    adds exactly one [pt] to [c]'s hand (and one to the aggregated entry of
    [c]), leaves every other hand entry as it was (those of the other
    colour, its aggregated entry included, and those of [c] for the other
    piece types), removes exactly one occupied square, and leaves [s] empty
    in a position that is consistent again. *)
Theorem undrop_piece_accounting pos c pt s :
  consistent pos -> 0 <= s -> pt <> ALL_PIECES ->
  piece_on pos s = make_piece c pt ->
  let pos' := undrop_piece (make_piece c pt) s pos in
  count_in_hand pos' c pt = count_in_hand pos c pt + 1
  /\ (forall c' pt', c' <> c \/ (pt' <> pt /\ pt' <> ALL_PIECES) ->
        count_in_hand pos' c' pt' = count_in_hand pos c' pt')
  /\ count_in_hand pos' c ALL_PIECES = count_in_hand pos c ALL_PIECES + 1
  /\ popcount (pieces pos') = popcount (pieces pos) - 1
  /\ empty pos' s = true
  /\ consistent pos'.
Proof.
  intros Hcons Hs Hpt Hon pos'. unfold piece_on in Hon.
  assert (Hhand : forall c' pt', count_in_hand pos' c' pt'
            = count_in_hand pos c' pt'
              + (if decide (c' = c /\ (pt' = pt \/ pt' = ALL_PIECES)) then 1 else 0)).
  { intros c' pt'. unfold pos', count_in_hand. rewrite undrop_piece_hand by exact Hpt.
    reflexivity. }
  split; [|split; [|split; [|split; [|split]]]].
  - rewrite Hhand. destruct (decide (c = c /\ (pt = pt \/ pt = ALL_PIECES))); [lia | tauto].
  - intros c' pt' Hother. rewrite Hhand.
    destruct (decide (c' = c /\ (pt' = pt \/ pt' = ALL_PIECES))); [tauto | lia].
  - rewrite Hhand.
    destruct (decide (c = c /\ (ALL_PIECES = pt \/ ALL_PIECES = ALL_PIECES)));
      [lia | tauto].
  - unfold pos'. rewrite pieces_undrop_piece by exact Hpt.
    destruct Hcons as [Hsound Hsq].
    apply popcount_clear_bit; [exact Hs | |].
    + unfold pieces. destruct Hsound as [-> Hnn]. apply Z.lor_nonneg. auto.
    + unfold pieces. rewrite (all_bit_sound _ _ Hsound).
      rewrite !(consistent_color_bit pos s _ (Hsq s Hs)), Hon.
      rewrite (bool_decide_eq_true_2 (make_piece c pt <> NO_PIECE))
        by (apply real_piece_not_NO_PIECE, Hpt).
      destruct c; reflexivity.
  - unfold pos', empty. rewrite undrop_piece_board.
    apply bool_decide_eq_true_2, fn_lookup_insert.
  - apply (placement_step_consistent pos); [|exact Hcons].
    apply step_undrop; [exact Hs | exact Hpt | exact Hon].
Qed.

Lemma popcount_disjoint a b :
  0 <= a -> 0 <= b -> Z.land a b = 0 ->
  popcount (Z.lor a b) = popcount a + popcount b.
Proof.
  intros Ha Hb Hdisj.
  assert (Hbits : forall n, Z.testbit a n && Z.testbit b n = false).
  { intros n. rewrite <- Z.land_spec, Hdisj. apply Z.bits_0. }
  rewrite (popcount_split (Z.lor a b) ltac:(apply Z.lor_nonneg; lia) a).
  f_equal; f_equal; apply Z.bits_inj'; intros n _.
  - rewrite Z.land_spec, Z.lor_spec. destruct (Z.testbit a n), (Z.testbit b n); reflexivity.
  - rewrite Z.ldiff_spec, Z.lor_spec. specialize (Hbits n).
    destruct (Z.testbit a n), (Z.testbit b n); try reflexivity; discriminate.
Qed.

End Undrops.

(** X19: [count<Pt>()] counts the squares of [pieces(Pt)]. In a consistent
    position whose counts agree with the bitboards, the count of a piece
    type over both colours is the number of squares in the bitboard of the
    type, and [count<ALL_PIECES>()] is the number of occupied squares. *)
Theorem count_both_counts_squares pos pt :
  consistent pos -> counts_match pos ->
  count_both pos pt = popcount (pieces_pt pos pt).
Proof.
  intros [[Hsum Hnn] Hsq] [Hreal Hall]. unfold count_both, pieces_pt.
  assert (Hapart : forall n, 0 <= n ->
            Z.testbit (byColorBB pos WHITE) n && Z.testbit (byColorBB pos BLACK) n = false).
  { intros n Hn. rewrite !(consistent_color_bit pos n _ (Hsq n Hn)).
    destruct (color_of (board pos n)), (bool_decide (board pos n <> NO_PIECE)); reflexivity. }
  destruct (decide (pt = ALL_PIECES)) as [->|Hpt].
  - rewrite !Hall, Hsum. unfold pieces_c. symmetry.
    apply popcount_disjoint; [apply Hnn | apply Hnn |].
    apply Z.bits_inj'. intros n Hn. rewrite Z.land_spec, Z.bits_0. apply Hapart, Hn.
  - rewrite !Hreal by exact Hpt.
    assert (Hunion : byTypeBB pos pt
                     = Z.lor (pieces_of pos WHITE pt) (pieces_of pos BLACK pt)).
    { unfold pieces_of. apply Z.bits_inj'. intros n Hn.
      rewrite Z.lor_spec, !Z.land_spec.
      rewrite !(consistent_color_bit pos n _ (Hsq n Hn)),
        (consistent_type_bit pos n pt (Hsq n Hn) Hpt).
      destruct (decide (type_of (board pos n) = pt)) as [E|E].
      - rewrite (bool_decide_eq_true_2 _ E), !andb_true_r.
        rewrite (bool_decide_eq_true_2 (board pos n <> NO_PIECE)).
        + destruct (color_of (board pos n)); reflexivity.
        + intros Hno. apply Hpt. rewrite <- E, Hno. reflexivity.
      - rewrite (bool_decide_eq_false_2 _ E), !andb_false_r. reflexivity. }
    rewrite Hunion. symmetry. apply popcount_disjoint.
    + apply Z.land_nonneg. left. apply Hnn.
    + apply Z.land_nonneg. left. apply Hnn.
    + unfold pieces_of. apply Z.bits_inj'. intros n Hn.
      rewrite !Z.land_spec, Z.bits_0. specialize (Hapart n Hn).
      destruct (Z.testbit (byColorBB pos WHITE) n), (Z.testbit (byColorBB pos BLACK) n),
        (Z.testbit (byTypeBB pos pt) n); try reflexivity; discriminate.
Qed.

Lemma undrop_piece_accounting_witness :
  let pos := lone_white_king crazyhouse WHITE in
  let pos' := undrop_piece (BG := chess_geometry) B_KNIGHT 57 pos in
  count_in_hand pos' BLACK KNIGHT = count_in_hand pos BLACK KNIGHT + 1
  /\ (forall c' pt', c' <> BLACK \/ (pt' <> KNIGHT /\ pt' <> ALL_PIECES) ->
        count_in_hand pos' c' pt' = count_in_hand pos c' pt')
  /\ count_in_hand pos' BLACK ALL_PIECES = count_in_hand pos BLACK ALL_PIECES + 1
  /\ popcount (pieces pos') = popcount (pieces pos) - 1
  /\ empty pos' 57 = true
  /\ consistent pos'.
Proof.
  apply (undrop_piece_accounting (BG := chess_geometry)
           (lone_white_king crazyhouse WHITE) BLACK KNIGHT 57).
  - apply (built_from_empty crazyhouse WHITE), lone_white_king_built.
  - lia.
  - discriminate.
  - reflexivity.
Defined.

Lemma count_both_counts_squares_witness :
  count_both (lone_white_king no_rules WHITE) KING
  = popcount (pieces_pt (lone_white_king no_rules WHITE) KING).
Proof.
  apply (count_both_counts_squares (lone_white_king no_rules WHITE) KING).
  - apply (built_from_empty no_rules WHITE), lone_white_king_built.
  - apply (built_from_empty_counts no_rules WHITE), lone_white_king_built.
Defined.
(** ** Castling rights *)

Section Castling.
Context `{CC : CastlingConstants}.

(** X20: [can_castle(Color)] against [can_castle(CastlingRight)]. The
    rights a colour holds are those of its two wings together, the wings of
    a colour being White's rights shifted by two bits per colour; so a
    colour can castle exactly when it can castle on one of its wings. *)
Theorem can_castle_either_wing pos c :
  let oo := Z.shiftl WHITE_OO (2 * color_value c) in
  let ooo := Z.shiftl WHITE_OOO (2 * color_value c) in
  can_castle pos c = Z.lor (can_castle_right pos oo) (can_castle_right pos ooo)
  /\ to_bool (can_castle pos c)
     = to_bool (can_castle_right pos oo) || to_bool (can_castle_right pos ooo).
Proof.
  intros oo ooo.
  assert (E : can_castle pos c
              = Z.lor (can_castle_right pos oo) (can_castle_right pos ooo)).
  { unfold can_castle, can_castle_right, oo, ooo.
    rewrite Z.shiftl_lor. apply Z.land_lor_distr_r. }
  split; [exact E|]. rewrite E. unfold to_bool.
  pose proof (Z.lor_eq_0_iff (can_castle_right pos oo) (can_castle_right pos ooo)) as H0.
  destruct (Z.eqb_spec (can_castle_right pos oo) 0),
    (Z.eqb_spec (can_castle_right pos ooo) 0),
    (Z.eqb_spec (Z.lor (can_castle_right pos oo) (can_castle_right pos ooo)) 0);
    simpl; try reflexivity; tauto.
Qed.

End Castling.

(** ** The placement helpers outside their contracts *)

Section OffContract.
Context `{BG : BoardGeometry}.

(** X21: [remove_piece] toggles, it does not clear. Applied to a square
    that none of the bitboards has, it puts the square into [pieces()] and
    into the bitboards of the piece's colour and type. *)
Theorem remove_piece_toggles pos pc s :
  0 <= s -> type_of pc <> ALL_PIECES -> square_vacated pos s ->
  Z.testbit (pieces pos) s = false ->
  let pos' := remove_piece pc s pos in
  Z.testbit (pieces pos') s = true
  /\ Z.testbit (pieces_c pos' (color_of pc)) s = true
  /\ Z.testbit (pieces_pt pos' (type_of pc)) s = true.
Proof.
  intros Hs Hpc [Hvc Hvt] Hall pos'. unfold pos', pieces, pieces_c, pieces_pt in *.
  rewrite all_bit_remove_piece, color_bit_remove_piece, type_bit_remove_piece
    by assumption.
  rewrite Hall, Hvc, (Hvt _ Hpc), Z.eqb_refl, !bool_decide_eq_true_2 by reflexivity.
  repeat split.
Qed.

(** X22: [put_piece] does not look at the square. Putting a piece on a
    square that holds such a piece already, in a consistent position whose
    counts agree with the bitboards, leaves every bitboard as it was and
    counts one piece more: the counts no longer agree with the bitboards. *)
Theorem put_piece_on_occupied_square pos pc s :
  consistent pos -> counts_match pos ->
  0 <= s -> type_of pc <> ALL_PIECES -> piece_on pos s = pc ->
  let pos' := put_piece pc s pos in
  (forall pt, byTypeBB pos' pt = byTypeBB pos pt)
  /\ (forall c, byColorBB pos' c = byColorBB pos c)
  /\ pieceCount pos' pc = pieceCount pos pc + 1
  /\ ~ counts_match pos'.
Proof.
  intros [Hsound Hsq] Hcounts Hs Hpc Hon pos'. unfold piece_on in Hon.
  pose proof (real_piece_not_NO_PIECE pc Hpc) as Hreal.
  assert (Hcol : forall c, byColorBB pos' c = byColorBB pos c).
  { intros c. apply Z.bits_inj'. intros n Hn. unfold pos'.
    rewrite color_bit_put_piece by exact Hs.
    destruct (Z.eqb_spec s n) as [<-|_]; [|rewrite andb_false_r, orb_false_r; reflexivity].
    rewrite (consistent_color_bit pos s c (Hsq s Hs)), Hon.
    rewrite (bool_decide_eq_true_2 _ Hreal).
    destruct (bool_decide (color_of pc = c)); reflexivity. }
  assert (Hty : forall pt, byTypeBB pos' pt = byTypeBB pos pt).
  { intros pt. apply Z.bits_inj'. intros n Hn. unfold pos'.
    rewrite type_bit_put_piece by exact Hs.
    destruct (Z.eqb_spec s n) as [<-|_]; [|rewrite andb_false_r, orb_false_r; reflexivity].
    rewrite andb_true_r.
    destruct (decide (ALL_PIECES = pt)) as [<-|Hpt].
    - rewrite (all_bit_sound pos s Hsound), !(consistent_color_bit pos s _ (Hsq s Hs)), Hon.
      rewrite (bool_decide_eq_true_2 _ Hreal).
      destruct (color_of pc); reflexivity.
    - rewrite (bool_decide_eq_false_2 _ Hpt).
      rewrite (consistent_type_bit pos s pt (Hsq s Hs)) by congruence. rewrite Hon.
      destruct (bool_decide (type_of pc = pt)); reflexivity. }
  assert (Hcount : pieceCount pos' pc = pieceCount pos pc + 1).
  { unfold pos'. rewrite put_piece_pieceCount by exact Hpc. unfold indicator.
    destruct (decide (pc = pc)); [reflexivity | congruence]. }
  split; [exact Hty|]. split; [exact Hcol|]. split; [exact Hcount|].
  intros [Hreal' _]. destruct Hcounts as [Hcounts _].
  specialize (Hreal' (color_of pc) (type_of pc) Hpc).
  specialize (Hcounts (color_of pc) (type_of pc) Hpc).
  rewrite make_piece_eta in Hreal', Hcounts.
  unfold pieces_of in Hreal', Hcounts. rewrite Hcol, Hty in Hreal'. lia.
Qed.

End OffContract.

Example can_castle_either_wing_example :
  can_castle (CC := chess_castling) chess_start BLACK = 12
  /\ can_castle_right chess_start 4 = 4 /\ can_castle_right chess_start 8 = 8.
Proof. repeat split. Qed.

Lemma remove_piece_toggles_witness :
  let pos' := remove_piece (BG := chess_geometry) W_ROOK 20 (lone_white_king no_rules WHITE) in
  Z.testbit (pieces pos') 20 = true
  /\ Z.testbit (pieces_c pos' WHITE) 20 = true
  /\ Z.testbit (pieces_pt pos' ROOK) 20 = true.
Proof.
  apply (remove_piece_toggles (BG := chess_geometry) (lone_white_king no_rules WHITE)
           W_ROOK 20).
  - lia.
  - discriminate.
  - split; [intros []; reflexivity | intros pt _; destruct pt; reflexivity].
  - reflexivity.
Defined.

Lemma put_piece_on_occupied_square_witness :
  let pos := lone_white_king no_rules WHITE in
  let pos' := put_piece W_KING 4 pos in
  (forall pt, byTypeBB pos' pt = byTypeBB pos pt)
  /\ (forall c, byColorBB pos' c = byColorBB pos c)
  /\ pieceCount pos' W_KING = pieceCount pos W_KING + 1
  /\ ~ counts_match pos'.
Proof.
  apply (put_piece_on_occupied_square (lone_white_king no_rules WHITE) W_KING 4).
  - apply (built_from_empty no_rules WHITE), lone_white_king_built.
  - apply (built_from_empty_counts no_rules WHITE), lone_white_king_built.
  - lia.
  - discriminate.
  - reflexivity.
Defined.
(** ** Piece specific members *)

Section PieceSpecific.
Context `{BG : BoardGeometry}.
Variable opposite_colors : Square -> Square -> bool.
Variable passed_pawn_mask : Color -> Square -> Bitboard.

(** X23: [opposite_bishops]. In a position whose piece lists agree with the
    board, when each side has exactly one bishop the answer is that of
    [opposite_colors] on the squares the two bishops stand on; when a side
    has another number of bishops the answer is [false]. *)
Theorem opposite_bishops_of_single_bishops pos :
  piece_lists_agree pos ->
  (forall s1 s2, 0 <= s1 -> 0 <= s2 ->
     pieceCount pos (make_piece WHITE BISHOP) = 1 ->
     pieceCount pos (make_piece BLACK BISHOP) = 1 ->
     piece_on pos s1 = make_piece WHITE BISHOP ->
     piece_on pos s2 = make_piece BLACK BISHOP ->
     opposite_bishops opposite_colors pos = opposite_colors s1 s2)
  /\ (pieceCount pos (make_piece WHITE BISHOP) <> 1
      \/ pieceCount pos (make_piece BLACK BISHOP) <> 1 ->
      opposite_bishops opposite_colors pos = false).
Proof.
  intros Hagree. split.
  - intros s1 s2 H1 H2 Hw Hb Hon1 Hon2. unfold opposite_bishops, square, piece_on in *.
    rewrite Hw, Hb. simpl.
    destruct (Hagree (make_piece WHITE BISHOP) ltac:(discriminate)) as (_ & Hslw & _ & _).
    destruct (Hagree (make_piece BLACK BISHOP) ltac:(discriminate)) as (_ & Hslb & _ & _).
    destruct (Hslw s1 H1 Hon1) as [Hi1 E1]. destruct (Hslb s2 H2 Hon2) as [Hi2 E2].
    replace (index pos s1) with 0 in E1 by lia.
    replace (index pos s2) with 0 in E2 by lia.
    rewrite E1, E2. reflexivity.
  - intros Hnot. unfold opposite_bishops.
    destruct (Z.eqb_spec (pieceCount pos (make_piece WHITE BISHOP)) 1);
      destruct (Z.eqb_spec (pieceCount pos (make_piece BLACK BISHOP)) 1);
      simpl; try reflexivity; tauto.
Qed.

(** X24: [pawn_passed]. In a consistent position the pawn of [c] on [s]
    counts as passed exactly when no square of [passed_pawn_mask(c, s)]
    holds a pawn of the other colour. *)
Theorem pawn_passed_no_enemy_pawn_ahead pos c s :
  consistent pos ->
  (pawn_passed passed_pawn_mask pos c s = true
   <-> forall t, 0 <= t -> Z.testbit (passed_pawn_mask c s) t = true ->
         piece_on pos t <> make_piece (~~c) PAWN).
Proof.
  intros [_ Hsq]. unfold pawn_passed, to_bool, piece_on.
  rewrite negb_involutive, Z.eqb_eq.
  assert (Hbit : forall t, 0 <= t ->
            Z.testbit (pieces_of pos (~~c) PAWN) t
            = bool_decide (board pos t = make_piece (~~c) PAWN)).
  { intros t Ht. rewrite pieces_of_listed.
    apply (listed_consistent pos (make_piece (~~c) PAWN) t (Hsq t Ht)). discriminate. }
  split.
  - intros Hzero t Ht Hmask Hon.
    assert (Hland : Z.testbit (Z.land (pieces_of pos (~~c) PAWN) (passed_pawn_mask c s)) t
                    = false) by (rewrite Hzero; apply Z.bits_0).
    rewrite Z.land_spec, (Hbit t Ht), Hmask, (bool_decide_eq_true_2 _ Hon) in Hland.
    discriminate Hland.
  - intros Hnone. apply Z.bits_inj'. intros t Ht.
    rewrite Z.land_spec, Z.bits_0, (Hbit t Ht).
    destruct (Z.testbit (passed_pawn_mask c s) t) eqn:Hmask; [|apply andb_false_r].
    rewrite (bool_decide_eq_false_2 _ (Hnone t Ht Hmask)). reflexivity.
Qed.

End PieceSpecific.

Lemma bishops_ending_built :
  placement_reachable (BG := chess_geometry) (empty_position no_rules WHITE) bishops_ending.
Proof.
  eapply reach_step; [eapply reach_step; [eapply reach_step; [eapply reach_step|]|]|].
  - apply reach_here.
  - apply (step_put W_KING 4); [lia | discriminate | reflexivity].
  - apply (step_put B_KING 60); [lia | discriminate | reflexivity].
  - apply (step_put (make_piece WHITE BISHOP) 2); [lia | discriminate | reflexivity].
  - apply (step_put (make_piece BLACK BISHOP) 58); [lia | discriminate | reflexivity].
Qed.

(** The bishops on c1 and c8 run on squares of different colours. *)
Example bishops_ending_opposite :
  opposite_bishops chess_opposite_colors bishops_ending = true
  /\ chess_opposite_colors 2 58 = true.
Proof. split; reflexivity. Qed.

Lemma opposite_bishops_of_single_bishops_witness :
  (forall s1 s2, 0 <= s1 -> 0 <= s2 ->
     pieceCount bishops_ending (make_piece WHITE BISHOP) = 1 ->
     pieceCount bishops_ending (make_piece BLACK BISHOP) = 1 ->
     piece_on bishops_ending s1 = make_piece WHITE BISHOP ->
     piece_on bishops_ending s2 = make_piece BLACK BISHOP ->
     opposite_bishops chess_opposite_colors bishops_ending = chess_opposite_colors s1 s2)
  /\ (pieceCount bishops_ending (make_piece WHITE BISHOP) <> 1
      \/ pieceCount bishops_ending (make_piece BLACK BISHOP) <> 1 ->
      opposite_bishops chess_opposite_colors bishops_ending = false).
Proof.
  apply (opposite_bishops_of_single_bishops (BG := chess_geometry) chess_opposite_colors
           bishops_ending).
  apply (built_from_empty no_rules WHITE), bishops_ending_built.
Defined.

Lemma pawn_passed_no_enemy_pawn_ahead_witness :
  pawn_passed chess_passed_pawn_mask pawn_on_a2 WHITE 8 = true
  <-> forall t, 0 <= t -> Z.testbit (chess_passed_pawn_mask WHITE 8) t = true ->
        piece_on pawn_on_a2 t <> make_piece BLACK PAWN.
Proof.
  apply (pawn_passed_no_enemy_pawn_ahead chess_passed_pawn_mask pawn_on_a2 WHITE 8).
  apply (put_piece_fills W_PAWN 8); [lia | discriminate |].
  apply consistent_is_consistent_but;
    [apply empty_position_consistent | lia | reflexivity].
Defined.

Example pawn_on_a2_passed : pawn_passed chess_passed_pawn_mask pawn_on_a2 WHITE 8 = true.
Proof. vm_compute. reflexivity. Qed.
